(** * LivePulse: event pipeline, aggregation and milestones

    A shallow embedding of the Go packages [events], [aggregation],
    [milestones] and [config] of LivePulse, and the properties of its
    specification proved (or refuted) over that embedding.

    Conventions of the embedding.
    - Go's [int64] and [int] (64 bits on every supported target) are [Z];
      arithmetic goes through [Int64.add], which wraps around.
    - [time.Time] is an opaque instant, a [Z]; every function that reads
      the clock takes the reading as an argument [now].
    - A [*Event] is an [option Event]: [None] is the nil pointer.
    - A Go map is a [gmap]; the nil map and the empty map read alike.
    - Mutation through a receiver pointer is explicit state passing; the
      milestone tracker, whose slices share [*Milestone] pointers with its
      callers, is modelled over an explicit heap.
    - A mutex protects an operation that the embedding runs as one step:
      the embedding is sequential, one operation at a time. *)

From Stdlib Require Import ZArith List Bool Lia.
From Stdlib Require Import SpecFloat.
From stdpp Require Import gmap strings list fin_maps pretty.

Local Open Scope Z_scope.

(** ** Machine integers *)

Module Int64.

Definition min : Z := - 2 ^ 63.
Definition max : Z := 2 ^ 63 - 1.
Definition modulus : Z := 2 ^ 64.

Definition in_range (z : Z) : Prop := min <= z <= max.

(** Two's complement wrap-around of a mathematical integer. *)
Definition wrap (z : Z) : Z := (z - min) mod modulus + min.

(** [atomic.AddInt64(p, delta)] and [+] on [int64]. *)
Definition add (x y : Z) : Z := wrap (x + y).

End Int64.

(** A Go [error] value: [None] is [nil]. *)
Definition error : Type := option string.

(** The outcome of Go code that may panic, or wait for ever on a channel. *)
Inductive Res (A : Type) : Type :=
| Ok (a : A)
| Panic (msg : string)
| Blocked.
Arguments Ok {A} a.
Arguments Panic {A} msg.
Arguments Blocked {A}.

#[global] Instance res_ret : MRet Res := fun A a => Ok a.

#[global] Instance res_bind : MBind Res := fun A B k r =>
  match r with
  | Ok a => k a
  | Panic msg => Panic msg
  | Blocked => Blocked
  end.

(** [%d] of the [fmt] verbs. *)
Definition fmt_int (z : Z) : string := pretty z.

(** ** Package events: the event model (event.go) *)

Module Events.

Definition EventType : Type := string.
Definition EventTypeJoinSession : EventType := "join_session".
Definition EventTypeLeaveSession : EventType := "leave_session".
Definition EventTypeReaction : EventType := "reaction".

Definition ReactionType : Type := string.
Definition ReactionLike : ReactionType := "like".
Definition ReactionLove : ReactionType := "love".
Definition ReactionCheer : ReactionType := "cheer".
Definition ReactionApplause : ReactionType := "applause".
Definition ReactionFire : ReactionType := "fire".
Definition ReactionHeart : ReactionType := "heart".

(** The dynamic values an [interface{}] of a payload holds: the dynamic
    type is the constructor.  [VReactionType] is a value whose dynamic
    type is the named type [ReactionType], which is not [string]. *)
Inductive GoValue : Type :=
| VNil
| VBool (b : bool)
| VInt (z : Z)
| VString (s : string)
| VReactionType (s : ReactionType).

Record Event : Type := mkEvent {
  ID : string;
  Type_ : EventType;
  SessionID : string;
  UserID : string;
  Payload : gmap string GoValue;
  Timestamp : Z
}.

(** [NewEvent]: the generated UUID and the clock reading are inputs. *)
Definition NewEvent (uuid : string) (now : Z) (eventType : EventType)
    (sessionID userID : string) (payload : gmap string GoValue) : Event :=
  {| ID := uuid; Type_ := eventType; SessionID := sessionID;
     UserID := userID; Payload := payload; Timestamp := now |}.

Definition ReactionEvent (uuid : string) (now : Z)
    (sessionID userID : string) (reactionType : ReactionType) : Event :=
  NewEvent uuid now EventTypeReaction sessionID userID
    {[ "reaction_type" := VReactionType reactionType ]}.

Definition JoinSessionEvent (uuid : string) (now : Z)
    (sessionID userID : string) : Event :=
  NewEvent uuid now EventTypeJoinSession sessionID userID ∅.

Definition LeaveSessionEvent (uuid : string) (now : Z)
    (sessionID userID : string) : Event :=
  NewEvent uuid now EventTypeLeaveSession sessionID userID ∅.

(** The type assertion [v.(string)]: it holds for the dynamic type
    [string] only. *)
Definition assert_string (v : option GoValue) : string * bool :=
  match v with
  | Some (VString s) => (s, true)
  | _ => (EmptyString, false)
  end.

(** A payload entry that is missing, nil, a boolean or a number holds
    no reaction type. *)
Definition no_reaction_type (v : option GoValue) : Prop :=
  match v with
  | None | Some VNil | Some (VBool _) | Some (VInt _) => True
  | Some (VString _) | Some (VReactionType _) => False
  end.

Definition GetReactionType (e : Event) : ReactionType * bool :=
  if negb (String.eqb (Type_ e) EventTypeReaction) then (EmptyString, false)
  else
    let '(rt, ok) := assert_string (Payload e !! "reaction_type"%string) in
    if ok then (rt, true) else (EmptyString, false).

(** A reaction event without a reaction type in its payload, and one
    whose reaction type is the string "fire". *)
Definition malformed_reaction : Event :=
  NewEvent "e1" 0 EventTypeReaction "s1" "u1" ∅.

Definition fire_reaction : Event :=
  NewEvent "e1" 0 EventTypeReaction "s1" "u1"
    {[ "reaction_type" := VString ReactionFire ]}.

(** Three events used as concrete inputs. *)
Definition event1 : Event := JoinSessionEvent "e1" 1 "s1" "u1".
Definition event2 : Event := JoinSessionEvent "e2" 2 "s1" "u2".
Definition event3 : Event := LeaveSessionEvent "e3" 3 "s1" "u1".

End Events.

(** ** Package aggregation: session statistics (stats.go) *)

Module Aggregation.
Import Events.

Record SessionStats : Type := mkSessionStats {
  SessionID : string;
  ActiveUsers : gmap string bool;
  ReactionCounts : gmap ReactionType Z;
  TotalReactions : Z;
  PeakConcurrentUsers : Z;
  StartTime : Z;
  LastActivity : Z
}.

Definition NewSessionStats (sessionID : string) (now : Z) : SessionStats :=
  {| SessionID := sessionID;
     ActiveUsers := ∅;
     ReactionCounts :=
       <[ReactionLike := 0]> (<[ReactionLove := 0]> (<[ReactionCheer := 0]>
       (<[ReactionApplause := 0]> (<[ReactionFire := 0]>
       (<[ReactionHeart := 0]> ∅)))));
     TotalReactions := 0;
     PeakConcurrentUsers := 0;
     StartTime := now;
     LastActivity := now |}.

(** [len(s.ActiveUsers)] *)
Definition active_len (s : SessionStats) : Z :=
  Z.of_nat (size (ActiveUsers s)).

Definition AddUser (s : SessionStats) (userID : string) (now : Z)
    : SessionStats * Z :=
  let users := <[userID := true]> (ActiveUsers s) in
  let currentCount := Z.of_nat (size users) in
  let peak := if PeakConcurrentUsers s <? currentCount
              then currentCount else PeakConcurrentUsers s in
  ({| SessionID := SessionID s;
      ActiveUsers := users;
      ReactionCounts := ReactionCounts s;
      TotalReactions := TotalReactions s;
      PeakConcurrentUsers := peak;
      StartTime := StartTime s;
      LastActivity := now |}, currentCount).

Definition RemoveUser (s : SessionStats) (userID : string) (now : Z)
    : SessionStats * Z :=
  let users := delete userID (ActiveUsers s) in
  ({| SessionID := SessionID s;
      ActiveUsers := users;
      ReactionCounts := ReactionCounts s;
      TotalReactions := TotalReactions s;
      PeakConcurrentUsers := PeakConcurrentUsers s;
      StartTime := StartTime s;
      LastActivity := now |}, Z.of_nat (size users)).

Definition IncrementReaction (s : SessionStats) (reactionType : ReactionType)
    (now : Z) : SessionStats * Z :=
  match ReactionCounts s !! reactionType with
  | None =>
      (* unknown reaction type: the total only, LastActivity untouched *)
      let total := Int64.add (TotalReactions s) 1 in
      ({| SessionID := SessionID s;
          ActiveUsers := ActiveUsers s;
          ReactionCounts := ReactionCounts s;
          TotalReactions := total;
          PeakConcurrentUsers := PeakConcurrentUsers s;
          StartTime := StartTime s;
          LastActivity := LastActivity s |}, total)
  | Some counter =>
      let total := Int64.add (TotalReactions s) 1 in
      ({| SessionID := SessionID s;
          ActiveUsers := ActiveUsers s;
          ReactionCounts :=
            <[reactionType := Int64.add counter 1]> (ReactionCounts s);
          TotalReactions := total;
          PeakConcurrentUsers := PeakConcurrentUsers s;
          StartTime := StartTime s;
          LastActivity := now |}, total)
  end.

Definition GetActiveUserCount (s : SessionStats) : Z := active_len s.

Definition GetTotalReactions (s : SessionStats) : Z := TotalReactions s.

Definition GetReactionCount (s : SessionStats) (reactionType : ReactionType)
    : Z :=
  match ReactionCounts s !! reactionType with
  | None => 0
  | Some counter => counter
  end.

Definition GetAllReactionCounts (s : SessionStats) : gmap ReactionType Z :=
  ReactionCounts s.

(** *** The registry of sessions (manager.go) *)

Record Manager : Type := mkManager {
  sessions : gmap string SessionStats
}.

Definition NewManager : Manager := {| sessions := ∅ |}.

Definition GetOrCreateSession (m : Manager) (sessionID : string) (now : Z)
    : Manager * SessionStats :=
  match sessions m !! sessionID with
  | Some stats => (m, stats)
  | None =>
      let stats := NewSessionStats sessionID now in
      ({| sessions := <[sessionID := stats]> (sessions m) |}, stats)
  end.

Definition GetSession (m : Manager) (sessionID : string)
    : option SessionStats :=
  sessions m !! sessionID.

(** The session object is shared by pointer: what an operation does to it
    is what the registry holds afterwards. *)
Definition store_session (m : Manager) (sessionID : string)
    (stats : SessionStats) : Manager :=
  {| sessions := <[sessionID := stats]> (sessions m) |}.

Definition ProcessEvent (m : Manager) (event : Event) (now : Z) : Manager :=
  let '(m1, stats) := GetOrCreateSession m (Events.SessionID event) now in
  if String.eqb (Type_ event) EventTypeJoinSession then
    store_session m1 (Events.SessionID event)
      (fst (AddUser stats (UserID event) now))
  else if String.eqb (Type_ event) EventTypeLeaveSession then
    store_session m1 (Events.SessionID event)
      (fst (RemoveUser stats (UserID event) now))
  else if String.eqb (Type_ event) EventTypeReaction then
    let '(reactionType, ok) := GetReactionType event in
    if ok then
      store_session m1 (Events.SessionID event)
        (fst (IncrementReaction stats reactionType now))
    else m1
  else m1.

Definition RemoveSession (m : Manager) (sessionID : string) : Manager :=
  {| sessions := delete sessionID (sessions m) |}.

Definition GetSessionCount (m : Manager) : Z :=
  Z.of_nat (size (sessions m)).

(** The sum of the per-type reaction counters. *)
Definition sum_counts (counts : gmap ReactionType Z) : Z :=
  map_fold (fun _ c acc => c + acc) 0 counts.

(** The operations that change a [SessionStats]. *)
Inductive StatsOp : Type :=
| OpAddUser (userID : string)
| OpRemoveUser (userID : string)
| OpIncrementReaction (reactionType : ReactionType).

Definition apply_op (s : SessionStats) (op : StatsOp) (now : Z)
    : SessionStats :=
  match op with
  | OpAddUser userID => (AddUser s userID now).1
  | OpRemoveUser userID => (RemoveUser s userID now).1
  | OpIncrementReaction rt => (IncrementReaction s rt now).1
  end.

(** The reactions an operation counts in the total and in no per-type
    counter: one for a reaction of a type that has no counter. *)
Definition unattributed_by (s : SessionStats) (op : StatsOp) : Z :=
  match op with
  | OpIncrementReaction rt =>
      match ReactionCounts s !! rt with
      | None => 1
      | Some _ => 0
      end
  | _ => 0
  end.

(** The state invariant of the specification, for a session that has
    counted [unattributed] reactions of unknown type. *)
Definition stats_inv (s : SessionStats) (unattributed : Z) : Prop :=
  TotalReactions s = sum_counts (ReactionCounts s) + unattributed /\
  active_len s <= PeakConcurrentUsers s.

(** The counters are [int64] values that one more increment does not
    overflow. *)
Definition below_max (s : SessionStats) : Prop :=
  Int64.min <= TotalReactions s < Int64.max /\
  forall rt c, ReactionCounts s !! rt = Some c ->
    Int64.min <= c < Int64.max.

(** A run of operations, each with its reading of the clock, and the
    unattributed reactions it counts. *)
Fixpoint apply_ops (s : SessionStats) (ops : list (StatsOp * Z))
    : SessionStats :=
  match ops with
  | [] => s
  | (op, now) :: rest => apply_ops (apply_op s op now) rest
  end.

Fixpoint unattributed_in (s : SessionStats) (ops : list (StatsOp * Z)) : Z :=
  match ops with
  | [] => 0
  | (op, now) :: rest =>
      unattributed_by s op + unattributed_in (apply_op s op now) rest
  end.

(** What holds of a session after [n] operations at most: the invariant,
    and counters between 0 and [n]. *)
Definition stats_inv_upto (s : SessionStats) (unattributed n : Z) : Prop :=
  stats_inv s unattributed /\ 0 <= unattributed /\
  (forall rt c, ReactionCounts s !! rt = Some c -> 0 <= c) /\
  TotalReactions s <= n.

(** The reaction total of a session of the registry. *)
Definition session_total (m : Manager) (sessionID : string) : option Z :=
  TotalReactions <$> sessions m !! sessionID.

(** What [ProcessEvent] does to the statistics of the event's session. *)
Definition event_effect (stats : SessionStats) (event : Event) (now : Z)
    : SessionStats :=
  if String.eqb (Type_ event) EventTypeJoinSession then
    (AddUser stats (UserID event) now).1
  else if String.eqb (Type_ event) EventTypeLeaveSession then
    (RemoveUser stats (UserID event) now).1
  else if String.eqb (Type_ event) EventTypeReaction then
    if (GetReactionType event).2
    then (IncrementReaction stats (GetReactionType event).1 now).1
    else stats
  else stats.

(** [ProcessEvent] on the events of [evs] in turn, each with its reading
    of the clock. *)
Fixpoint process_all (m : Manager) (evs : list (Event * Z)) : Manager :=
  match evs with
  | [] => m
  | (e, now) :: rest => process_all (ProcessEvent m e now) rest
  end.

(** The events of [evs] for the session that carry a reaction type
    [GetReactionType] accepts. *)
Fixpoint count_reactions (sessionID : string) (evs : list (Event * Z)) : Z :=
  match evs with
  | [] => 0
  | (e, _) :: rest =>
      (if String.eqb (Events.SessionID e) sessionID && (GetReactionType e).2
       then 1 else 0) + count_reactions sessionID rest
  end.

End Aggregation.

(** ** Package events: the bounded queue (queue.go) *)

Module Queue.
Import Events.

Definition EventPtr : Type := option Event.

(** A buffered channel of [*Event]: the buffer in arrival order, the
    capacity given to [make], and whether [close] was called.  The
    goroutines parked in a receive are not part of it: a send that finds
    one hands its value over, which for a capacity of 1 or more is a send
    into the buffer followed by that receive.  For capacity 0 it is the
    only way a send is taken, so what is proved of sends on a channel of
    this model is proved for a positive capacity. *)
Record Chan : Type := mkChan {
  buf : list EventPtr;
  cap : Z;
  chclosed : bool
}.

Definition make_chan (size : Z) : Res Chan :=
  if size <? 0 then Panic "makechan: size out of range"
  else Ok {| buf := []; cap := size; chclosed := false |}.

Definition chan_len (c : Chan) : Z := Z.of_nat (length (buf c)).

(** The send case of a [select]: taken, not ready, or the panic of a
    send on a closed channel. *)
Inductive SendResult : Type :=
| Sent (c : Chan)
| SendNotReady
| SendPanic.

Definition chan_try_send (c : Chan) (v : EventPtr) : SendResult :=
  if chclosed c then SendPanic
  else if chan_len c <? cap c
       then Sent {| buf := buf c ++ [v]; cap := cap c; chclosed := false |}
       else SendNotReady.

(** A receive: a buffered value, the zero value of a closed and empty
    channel, or not ready. *)
Inductive RecvResult : Type :=
| Received (v : EventPtr) (c : Chan)
| RecvClosed
| RecvNotReady.

Definition chan_recv (c : Chan) : RecvResult :=
  match buf c with
  | v :: rest =>
      Received v {| buf := rest; cap := cap c; chclosed := chclosed c |}
  | [] => if chclosed c then RecvClosed else RecvNotReady
  end.

Definition chan_close (c : Chan) : Res Chan :=
  if chclosed c then Panic "close of closed channel"
  else Ok {| buf := buf c; cap := cap c; chclosed := true |}.

(** [for v := range c { acc = append(acc, v) }], by recursion on the
    buffer the receives consume: it ends when the channel is closed and
    empty, and waits for ever on an open one. *)
Fixpoint chan_range (b : list EventPtr) (c : Chan) (acc : list EventPtr)
    : Res (Chan * list EventPtr) :=
  match b with
  | v :: rest =>
      chan_range rest {| buf := rest; cap := cap c; chclosed := chclosed c |}
        (acc ++ [v])
  | [] => if chclosed c then Ok (c, acc) else Blocked
  end.

Record Queue : Type := mkQueue {
  events : Chan;
  size : Z;
  closed : bool;
  draining : bool
}.

Definition NewQueue (size : Z) : Res Queue :=
  c ← make_chan size;
  mret {| events := c; size := size; closed := false; draining := false |}.

Definition with_events (q : Queue) (c : Chan) : Queue :=
  {| events := c; size := size q; closed := closed q;
     draining := draining q |}.

(** [Enqueue]: the result, the queue afterwards and the lines logged. *)
Definition Enqueue (q : Queue) (event : EventPtr)
    : Res (bool * Queue * list string) :=
  if closed q then Ok (false, q, [])
  else
    match chan_try_send (events q) event with
    | Sent c => Ok (true, with_events q c, [])
    | SendNotReady =>
        match event with
        | Some e =>
            Ok (false, q,
                ["WARNING: Event queue full, dropping event " +:+ ID e])
        | None => Panic "nil pointer dereference"
        end
    | SendPanic => Panic "send on closed channel"
    end.

(** [Dequeue]: a [select] over the channel and the context's [Done];
    [pick] is the runtime's choice when both are ready ([true]: the
    receive).  [None]: neither is ready and the caller waits. *)
Definition Dequeue (q : Queue) (ctxDone : bool) (pick : bool)
    : option (EventPtr * bool * Queue) :=
  match chan_recv (events q), ctxDone with
  | Received v c, false => Some (v, true, with_events q c)
  | Received v c, true =>
      if pick then Some (v, true, with_events q c) else Some (None, false, q)
  | RecvClosed, false => Some (None, false, q)
  | RecvClosed, true => Some (None, false, q)
  | RecvNotReady, true => Some (None, false, q)
  | RecvNotReady, false => None
  end.

Definition Close (q : Queue) : Res Queue :=
  if negb (closed q) then
    c ← chan_close (events q);
    mret {| events := c; size := size q; closed := true;
            draining := draining q |}
  else Ok q.

Definition Drain (q : Queue) : Res (Queue * list EventPtr) :=
  let q1 := {| events := events q; size := size q; closed := closed q;
               draining := true |} in
  '(c, remaining) ← chan_range (buf (events q1)) (events q1) [];
  mret (with_events q1 c, remaining).

Definition Len (q : Queue) : Z := chan_len (events q).
Definition Cap (q : Queue) : Z := size q.
Definition IsClosed (q : Queue) : bool := closed q.

(** The operations of producers, workers and the shutdown on a queue,
    one at a time.  A [Dequeue] that finds nothing ready leaves the
    queue as it is: its caller waits. *)
Inductive QueueOp : Type :=
| OpEnqueue (e : Event)
| OpDequeue (ctxDone pick : bool)
| OpClose.

Definition step (q : Queue) (op : QueueOp) : Res Queue :=
  match op with
  | OpEnqueue e => '(_, q1, _) ← Enqueue q (Some e); mret q1
  | OpDequeue ctxDone pick =>
      match Dequeue q ctxDone pick with
      | Some (_, _, q1) => Ok q1
      | None => Ok q
      end
  | OpClose => Close q
  end.

Fixpoint run_ops (q : Queue) (ops : list QueueOp) : Res Queue :=
  match ops with
  | [] => Ok q
  | op :: rest => q1 ← step q op; run_ops q1 rest
  end.

(** [Enqueue] of the events of [es] in turn, results dropped. *)
Fixpoint enqueue_all (q : Queue) (es : list Event) : Res Queue :=
  match es with
  | [] => Ok q
  | e :: rest => '(_, q1, _) ← Enqueue q (Some e); enqueue_all q1 rest
  end.

(** The open queue of capacity [size] that buffers [b]. *)
Definition open_queue (size : Z) (b : list EventPtr) : Queue :=
  {| events := {| buf := b; cap := size; chclosed := false |};
     size := size; closed := false; draining := false |}.

(** What holds of a queue built by [NewQueue size] at all times. *)
Definition wf (size : Z) (q : Queue) : Prop :=
  Queue.size q = size /\ cap (events q) = size /\
  chclosed (events q) = closed q /\ Len q <= size.

(** [n] calls of [Dequeue] in a row by a consumer whose context is not
    cancelled: the events received, until one call finds nothing ready or
    the queue closed and empty. *)
Fixpoint dequeue_n (n : nat) (q : Queue) : list EventPtr * Queue :=
  match n with
  | O => ([], q)
  | S n' =>
      match Dequeue q false true with
      | Some (v, true, q1) =>
          let '(vs, q2) := dequeue_n n' q1 in (v :: vs, q2)
      | _ => ([], q)
      end
  end.

(** The events of a list of pointers, the nil pointers left out. *)
Definition non_nil (b : list EventPtr) : list Event := omap (fun p => p) b.

End Queue.

(** ** Package events: the worker pool (worker.go) *)

Module Worker.
Import Events Queue.

Section Pool.
(** The handler is a closure: [St] is the state it closes over. *)
Context {St : Type}.
Variable handler : EventPtr -> St -> St * error.

Record WorkerPool : Type := mkWorkerPool {
  queue : Queue;
  workerCount : Z;
  cancelled : bool;
  hstate : St;
  logged : list string
}.

Definition NewWorkerPool (queue : Queue) (workerCount : Z) (st : St)
    : WorkerPool :=
  {| queue := queue; workerCount := workerCount; cancelled := false;
     hstate := st; logged := [] |}.

Definition log (wp : WorkerPool) (line : string) : WorkerPool :=
  {| queue := queue wp; workerCount := workerCount wp;
     cancelled := cancelled wp; hstate := hstate wp;
     logged := logged wp ++ [line] |}.

Definition with_queue (wp : WorkerPool) (q : Queue) : WorkerPool :=
  {| queue := q; workerCount := workerCount wp;
     cancelled := cancelled wp; hstate := hstate wp;
     logged := logged wp |}.

Definition with_hstate (wp : WorkerPool) (st : St) : WorkerPool :=
  {| queue := queue wp; workerCount := workerCount wp;
     cancelled := cancelled wp; hstate := st;
     logged := logged wp |}.

Definition cancel (wp : WorkerPool) : WorkerPool :=
  {| queue := queue wp; workerCount := workerCount wp;
     cancelled := true; hstate := hstate wp;
     logged := logged wp |}.

(** How a run of the worker loop ends: it returned, it waits in
    [Dequeue] for the next event, or the fuel of the run is spent. *)
Inductive WorkerStatus : Type :=
| WorkerReturned
| WorkerWaiting
| WorkerOutOfFuel.

Definition worker_prefix (id : Z) : string :=
  "Worker " +:+ fmt_int id.

(** The line [worker] logs for a handler error. *)
Definition worker_error_line (id : Z) (e : Event) (err : string)
    : string :=
  worker_prefix id +:+ ": error processing event " +:+ ID e +:+ ": "
  +:+ err.

(** The line [ShutdownWithDrain] logs for a handler error. *)
Definition drain_error_line (e : Event) (err : string) : string :=
  "Error processing remaining event " +:+ ID e +:+ ": " +:+ err.

(** The [for] loop of [worker]: one unit of fuel per iteration. *)
Fixpoint worker_loop (fuel : nat) (id : Z) (pick : bool) (wp : WorkerPool)
    : WorkerStatus * WorkerPool :=
  match fuel with
  | O => (WorkerOutOfFuel, wp)
  | S fuel' =>
      if cancelled wp then
        (WorkerReturned, log wp (worker_prefix id +:+ " shutting down"))
      else
        match Dequeue (queue wp) (cancelled wp) pick with
        | None => (WorkerWaiting, wp)
        | Some (_, false, q) =>
            (WorkerReturned,
             log (with_queue wp q)
               (worker_prefix id +:+
                ": queue closed or context cancelled"))
        | Some (None, true, q) =>
            worker_loop fuel' id pick (with_queue wp q)
        | Some (Some e, true, q) =>
            let wp1 := with_queue wp q in
            match handler (Some e) (hstate wp1) with
            | (st, Some err) =>
                worker_loop fuel' id pick
                  (log (with_hstate wp1 st) (worker_error_line id e err))
            | (st, None) =>
                worker_loop fuel' id pick (with_hstate wp1 st)
            end
        end
  end.

Definition worker (fuel : nat) (id : Z) (pick : bool) (wp : WorkerPool)
    : WorkerStatus * WorkerPool :=
  worker_loop fuel id pick (log wp (worker_prefix id +:+ " started")).

(** The [for _, event := range remaining] loop of [ShutdownWithDrain]. *)
Fixpoint process_remaining (remaining : list EventPtr) (wp : WorkerPool)
    : Res WorkerPool :=
  match remaining with
  | [] => Ok wp
  | event :: rest =>
      match handler event (hstate wp) with
      | (st, Some err) =>
          match event with
          | Some e =>
              process_remaining rest
                (log (with_hstate wp st) (drain_error_line e err))
          | None => Panic "nil pointer dereference"
          end
      | (st, None) => process_remaining rest (with_hstate wp st)
      end
  end.

(** [Shutdown]: with no worker goroutine running, [wg.Wait] returns. *)
Definition Shutdown (wp : WorkerPool) : WorkerPool :=
  log (cancel (log wp "Shutting down worker pool..."))
    "Worker pool shutdown complete".

Definition ShutdownWithDrain (wp : WorkerPool) : Res WorkerPool :=
  let wp0 := log wp "Shutting down worker pool with drain..." in
  q1 ← Close (queue wp0);
  '(q2, remaining) ← Drain q1;
  let wp1 :=
    log (with_queue wp0 q2)
      ("Processing " +:+ fmt_int (Z.of_nat (length remaining))
       +:+ " remaining events") in
  wp2 ← process_remaining remaining wp1;
  mret (log (cancel wp2) "Worker pool shutdown with drain complete").

(** The handler's state after it has handled the events of [evs] in
    turn, whatever it returned for each. *)
Fixpoint handle_all (evs : list Event) (st : St) : St :=
  match evs with
  | [] => st
  | e :: rest => handle_all rest (handler (Some e) st).1
  end.

(** The lines logged for the events of [evs] that the handler fails
    on, [line] being the format of one. *)
Fixpoint error_lines (line : Event -> string -> string)
    (evs : list Event) (st : St) : list string :=
  match evs with
  | [] => []
  | e :: rest =>
      match (handler (Some e) st).2 with
      | Some err => line e err :: error_lines line rest (handler (Some e) st).1
      | None => error_lines line rest (handler (Some e) st).1
      end
  end.

(** The handler's state after it was given every pointer of [ptrs] in
    turn, nil ones included. *)
Fixpoint handle_ptrs (ptrs : list EventPtr) (st : St) : St :=
  match ptrs with
  | [] => st
  | p :: rest => handle_ptrs rest (handler p st).1
  end.

End Pool.

(** A handler that fails on every event, and records the events it was
    given. *)
Definition failing_handler (event : EventPtr) (seen : list EventPtr)
    : list EventPtr * error :=
  (seen ++ [event], Some "boom"%string).

(** A pool over an open queue that buffers two events. *)
Definition example_pool : @WorkerPool (list EventPtr) :=
  NewWorkerPool (open_queue 2 [Some event1; Some event2]) 1 [].

(** A pool over an open queue that buffers an event, a nil pointer and
    another event. *)
Definition example_pool_nil : @WorkerPool (list EventPtr) :=
  NewWorkerPool (open_queue 3 [Some event1; None; Some event2]) 1 [].

(** A handler that never fails, and records the pointers it was given. *)
Definition recording_handler (event : EventPtr) (seen : list EventPtr)
    : list EventPtr * error :=
  (seen ++ [event], None).

(** A pool over an open queue of capacity 3 that buffers one event. *)
Definition example_pool_room : @WorkerPool (list EventPtr) :=
  NewWorkerPool (open_queue 3 [Some event1]) 1 [].

End Worker.

(** ** IEEE 754 binary64, the [float64] of Go *)

Module Float64.

Definition prec : Z := 53.
Definition emax : Z := 1024.

Definition float64 : Type := spec_float.

(** The conversion [float64(n)] of an integer: round to nearest even. *)
Definition of_int (n : Z) : float64 := binary_normalize prec emax n 0 false.

Definition div (x y : float64) : float64 := SFdiv prec emax x y.
Definition mul (x y : float64) : float64 := SFmul prec emax x y.
Definition ltb (x y : float64) : bool := SFltb x y.
Definition leb (x y : float64) : bool := SFleb x y.

Definition zero : float64 := S754_zero false.
Definition hundred : float64 := Eval cbv in of_int 100.

(** [lo <= x <= hi], false when [x] is NaN. *)
Definition between (lo hi x : float64) : bool := leb lo x && leb x hi.

(** A float that is not NaN and has the sign [s]. *)
Definition signed (s : bool) (x : float64) : Prop :=
  match x with
  | S754_zero s' | S754_infinity s' | S754_finite s' _ _ => s' = s
  | S754_nan => False
  end.

(** A finite, non-zero float of sign [s]. *)
Definition finite (s : bool) (x : float64) : Prop :=
  match x with
  | S754_finite s' _ _ => s' = s
  | _ => False
  end.

(** A finite, non-zero float of sign [s] whose mantissa is below
    [2 ^ a] and whose exponent is between [lo] and [hi]. *)
Definition finite_within (s : bool) (a lo hi : Z) (x : float64) : Prop :=
  match x with
  | S754_finite s' m e => s' = s /\ Z.pos m < 2 ^ a /\ lo <= e <= hi
  | _ => False
  end.

End Float64.

(** ** Package milestones: the milestone (milestone.go) *)

Module Milestones.

Definition MilestoneType : Type := string.
Definition MilestoneTypeTotalReactions : MilestoneType := "total_reactions".
Definition MilestoneTypeConcurrentUsers : MilestoneType := "concurrent_users".
Definition MilestoneTypeSessionDuration : MilestoneType := "session_duration".

Record Milestone : Type := mkMilestone {
  ID : string;
  SessionID : string;
  Type_ : MilestoneType;
  Threshold : Z;
  Progress : Z;
  Achieved : bool;
  AchievedAt : option Z;
  Description : string
}.

(** [strconv.FormatInt(n, 10)] *)
Definition formatNumber (n : Z) : string := pretty n.

Definition generateMilestoneID (sessionID : string)
    (milestoneType : MilestoneType) (threshold : Z) : string :=
  sessionID +:+ "_" +:+ milestoneType +:+ "_" +:+ pretty threshold.

Definition generateDescription (milestoneType : MilestoneType)
    (threshold : Z) : string :=
  if String.eqb milestoneType MilestoneTypeTotalReactions then
    formatNumber threshold +:+ " total reactions"
  else if String.eqb milestoneType MilestoneTypeConcurrentUsers then
    formatNumber threshold +:+ " concurrent users"
  else if String.eqb milestoneType MilestoneTypeSessionDuration then
    formatNumber threshold +:+ " minutes session duration"
  else "Unknown milestone".

Definition NewMilestone (sessionID : string) (milestoneType : MilestoneType)
    (threshold : Z) : Milestone :=
  {| ID := generateMilestoneID sessionID milestoneType threshold;
     SessionID := sessionID;
     Type_ := milestoneType;
     Threshold := threshold;
     Progress := 0;
     Achieved := false;
     AchievedAt := None;
     Description := generateDescription milestoneType threshold |}.

(** [UpdateProgress]: the milestone afterwards and the result; [now] is
    the reading of the clock, used when the milestone is achieved. *)
Definition UpdateProgress (m : Milestone) (currentValue : Z) (now : Z)
    : Milestone * bool :=
  let m1 := {| ID := ID m; SessionID := SessionID m; Type_ := Type_ m;
               Threshold := Threshold m; Progress := currentValue;
               Achieved := Achieved m; AchievedAt := AchievedAt m;
               Description := Description m |} in
  if negb (Achieved m1) && (Threshold m1 <=? currentValue) then
    ({| ID := ID m1; SessionID := SessionID m1; Type_ := Type_ m1;
        Threshold := Threshold m1; Progress := Progress m1;
        Achieved := true; AchievedAt := Some now;
        Description := Description m1 |}, true)
  else (m1, false).

Definition ProgressPercentage (m : Milestone) : Float64.float64 :=
  if Threshold m =? 0 then Float64.zero
  else
    let percentage :=
      Float64.mul
        (Float64.div (Float64.of_int (Progress m))
                     (Float64.of_int (Threshold m)))
        Float64.hundred in
    if Float64.ltb Float64.hundred percentage then Float64.hundred
    else percentage.

(** A milestone of threshold 10 whose progress was reported as -5. *)
Definition negative_progress : Milestone :=
  (UpdateProgress (NewMilestone "s1" MilestoneTypeTotalReactions 10) (-5) 0).1.

(** [UpdateProgress] called with the values of [calls] in turn, each
    with its clock reading: the milestone at the end and the results. *)
Fixpoint update_all (m : Milestone) (calls : list (Z * Z))
    : Milestone * list bool :=
  match calls with
  | [] => (m, [])
  | (v, now) :: rest =>
      let '(m1, r) := UpdateProgress m v now in
      let '(m2, rs) := update_all m1 rest in
      (m2, r :: rs)
  end.

(** *** Calls that overlap

    [UpdateProgress] takes no lock and the milestone has none, and
    [CheckMilestones] calls it after it has released the tracker's: two
    goroutines can be inside [UpdateProgress] for one milestone at the
    same time.  A call is then a sequence of reads and writes of the
    milestone's fields, and the steps of two calls interleave. *)






End Milestones.

(** ** Package milestones: the tracker (tracker.go)

    The tracker's slices hold [*Milestone] pointers, and it hands these
    pointers out: milestones live in a heap of objects, slices in a heap
    of backing arrays. *)

Module Tracker.
Import Milestones.

Definition loc : Type := nat.

Record Heap : Type := mkHeap {
  objs : gmap loc Milestone;
  arrays : gmap loc (list loc)
}.

Definition empty_heap : Heap := {| objs := ∅; arrays := ∅ |}.

(** A slice of [*Milestone]: nil, or a backing array.  A slice built by
    [make] or by [append] to a nil slice owns a new array. *)
Definition Slice : Type := option loc.

Definition elems (h : Heap) (s : Slice) : list loc :=
  match s with
  | None => []
  | Some a => default [] (arrays h !! a)
  end.

(** [&Milestone{...}] *)
Definition alloc_obj (h : Heap) (m : Milestone) : loc * Heap :=
  let p := fresh (dom (objs h)) in
  (p, {| objs := <[p := m]> (objs h); arrays := arrays h |}).

(** A new backing array holding [l]. *)
Definition alloc_array (h : Heap) (l : list loc) : loc * Heap :=
  let a := fresh (dom (arrays h)) in
  (a, {| objs := objs h; arrays := <[a := l]> (arrays h) |}).

(** [append] of the elements [l] to a nil slice, one by one. *)
Definition append_all (h : Heap) (l : list loc) : Slice * Heap :=
  match l with
  | [] => (None, h)
  | _ => let '(a, h1) := alloc_array h l in (Some a, h1)
  end.

Record MilestoneAchievement : Type := mkAchievement {
  Milestone_ : loc;
  ASessionID : string;
  AAchievedAt : Z;
  CurrentValue : Z
}.

(** [notifyFunc] is a callback or nil; the achievements handed to
    [go t.notifyFunc(...)] are collected in dispatch order. *)
Record Tracker : Type := mkTracker {
  milestones : gmap string Slice;
  notifyFunc : bool
}.

Definition NewTracker (notifyFunc : bool) : Tracker :=
  {| milestones := ∅; notifyFunc := notifyFunc |}.

(** The loop of [InitializeSession]: one milestone per threshold. *)
Fixpoint new_milestones (h : Heap) (sessionID : string)
    (thresholds : list Z) : list loc * Heap :=
  match thresholds with
  | [] => ([], h)
  | threshold :: rest =>
      let '(p, h1) :=
        alloc_obj h
          (NewMilestone sessionID MilestoneTypeTotalReactions threshold) in
      let '(ps, h2) := new_milestones h1 sessionID rest in
      (p :: ps, h2)
  end.

Definition InitializeSession (t : Tracker) (h : Heap) (sessionID : string)
    (thresholds : list Z) : Tracker * Heap * list string :=
  let '(ps, h1) := new_milestones h sessionID thresholds in
  let '(s, h2) := append_all h1 ps in
  ({| milestones := <[sessionID := s]> (milestones t);
      notifyFunc := notifyFunc t |}, h2,
   ["Initialized " +:+ fmt_int (Z.of_nat (length ps))
    +:+ " milestones for session " +:+ sessionID]).

(** The value a milestone is measured by: [elapsedMinutes] is
    [int64(time.Since(stats.StartTime).Minutes())], a reading of the
    clock. *)
Definition current_value (m : Milestone) (totalReactions activeUsers
    elapsedMinutes : Z) : Z :=
  if String.eqb (Type_ m) MilestoneTypeTotalReactions then totalReactions
  else if String.eqb (Type_ m) MilestoneTypeConcurrentUsers then activeUsers
  else if String.eqb (Type_ m) MilestoneTypeSessionDuration
       then elapsedMinutes
  else 0.

(** The line [CheckMilestones] logs for an achievement. *)
Definition achieved_line (sessionID : string) (m : Milestone)
    (currentValue : Z) : string :=
  "Milestone achieved! Session: " +:+ sessionID +:+ ", Type: " +:+ Type_ m
  +:+ ", Threshold: " +:+ fmt_int (Threshold m) +:+ ", Current: "
  +:+ fmt_int currentValue.

(** The loop of [CheckMilestones] over the session's milestones: the
    heap afterwards, the achievements in the order found and the lines
    logged. *)
Fixpoint check_loop (ps : list loc) (h : Heap) (sessionID : string)
    (totalReactions activeUsers elapsedMinutes now : Z)
    : Res (Heap * list MilestoneAchievement * list string) :=
  match ps with
  | [] => Ok (h, [], [])
  | p :: rest =>
      match objs h !! p with
      | None => Panic "nil pointer dereference"
      | Some m =>
          if Achieved m then
            check_loop rest h sessionID totalReactions activeUsers
              elapsedMinutes now
          else
            let currentValue :=
              current_value m totalReactions activeUsers elapsedMinutes in
            let '(m1, justAchieved) := UpdateProgress m currentValue now in
            let h1 := {| objs := <[p := m1]> (objs h);
                         arrays := arrays h |} in
            '(h2, achievements, lines) ←
              check_loop rest h1 sessionID totalReactions activeUsers
                elapsedMinutes now;
            if justAchieved then
              mret (h2,
                    {| Milestone_ := p; ASessionID := sessionID;
                       AAchievedAt := now;
                       CurrentValue := currentValue |} :: achievements,
                    achieved_line sessionID m1 currentValue :: lines)
            else mret (h2, achievements, lines)
      end
  end.

(** [CheckMilestones]: the heap afterwards, the achievements handed to
    the notification callback, none when the callback is nil, and the
    lines logged. *)
Definition CheckMilestones (t : Tracker) (h : Heap) (sessionID : string)
    (stats : Aggregation.SessionStats) (elapsedMinutes now : Z)
    : Res (Heap * list MilestoneAchievement * list string) :=
  match milestones t !! sessionID with
  | None => Ok (h, [], [])
  | Some sessionMilestones =>
      '(h1, achievements, lines) ←
        check_loop (elems h sessionMilestones) h sessionID
          (Aggregation.GetTotalReactions stats)
          (Aggregation.GetActiveUserCount stats) elapsedMinutes now;
      mret (h1, if notifyFunc t then achievements else [], lines)
  end.

Definition GetSessionMilestones (t : Tracker) (h : Heap)
    (sessionID : string) : Slice * Heap :=
  match milestones t !! sessionID with
  | None => (None, h)
  | Some ms =>
      let '(a, h1) := alloc_array h (elems h ms) in (Some a, h1)
  end.

(** The loop of [GetAchievedMilestones]: the achieved milestones of
    [ps], appended to [achieved] in order. *)
Fixpoint achieved_loop (h : Heap) (ps : list loc) (achieved : list loc)
    : Res (list loc) :=
  match ps with
  | [] => Ok achieved
  | p :: rest =>
      match objs h !! p with
      | None => Panic "nil pointer dereference"
      | Some m =>
          achieved_loop h rest
            (if Achieved m then achieved ++ [p] else achieved)
      end
  end.

Definition GetAchievedMilestones (t : Tracker) (h : Heap)
    (sessionID : string) : Res (Slice * Heap) :=
  match milestones t !! sessionID with
  | None => Ok (None, h)
  | Some ms =>
      achieved ← achieved_loop h (elems h ms) [];
      mret (append_all h achieved)
  end.

(** Whether [p] points to an achieved milestone. *)
Definition is_achieved (h : Heap) (p : loc) : bool :=
  match objs h !! p with
  | Some m => Achieved m
  | None => false
  end.

Definition RemoveSession (t : Tracker) (sessionID : string) : Tracker :=
  {| milestones := delete sessionID (milestones t);
     notifyFunc := notifyFunc t |}.

Definition AddCustomMilestone (t : Tracker) (h : Heap) (sessionID : string)
    (milestoneType : MilestoneType) (threshold : Z) : Tracker * Heap :=
  let '(p, h1) :=
    alloc_obj h (NewMilestone sessionID milestoneType threshold) in
  let old := default None (milestones t !! sessionID) in
  let '(a, h2) := alloc_array h1 (elems h1 old ++ [p]) in
  ({| milestones := <[sessionID := Some a]> (milestones t);
      notifyFunc := notifyFunc t |}, h2).

(** *** What a caller can do with a returned slice *)

(** [s[i] = p] *)
Definition slice_store (h : Heap) (s : Slice) (i : nat) (p : loc)
    : Res Heap :=
  if decide (i < length (elems h s))%nat then
    match s with
    | Some a =>
        Ok {| objs := objs h;
              arrays := <[a := <[i := p]> (elems h s)]> (arrays h) |}
    | None => Panic "index out of range"
    end
  else Panic "index out of range".

(** A write through the element [s[i]], a pointer, such as
    [s[i].Achieved = true]: the milestone it points to becomes [f] of
    what it was. *)
Definition elem_store (h : Heap) (s : Slice) (i : nat)
    (f : Milestone -> Milestone) : Res Heap :=
  match elems h s !! i with
  | None => Panic "index out of range"
  | Some p =>
      match objs h !! p with
      | None => Panic "nil pointer dereference"
      | Some m => Ok {| objs := <[p := f m]> (objs h); arrays := arrays h |}
      end
  end.

(** The milestone state the tracker owns for a session: the pointers of
    its slice, in order, each with the milestone it points to. *)
Definition owned (t : Tracker) (h : Heap) (sessionID : string)
    : option (list (loc * option Milestone)) :=
  match milestones t !! sessionID with
  | None => None
  | Some ms => Some ((fun p => (p, objs h !! p)) <$> elems h ms)
  end.

Definition set_achieved (m : Milestone) : Milestone :=
  {| ID := ID m; SessionID := SessionID m; Type_ := Type_ m;
     Threshold := Threshold m; Progress := Progress m;
     Achieved := true; AchievedAt := AchievedAt m;
     Description := Description m |}.

Definition clear_achieved (m : Milestone) : Milestone :=
  {| ID := ID m; SessionID := SessionID m; Type_ := Type_ m;
     Threshold := Threshold m; Progress := Progress m;
     Achieved := false; AchievedAt := None;
     Description := Description m |}.

(** The backing array of a slice is one the heap holds. *)
Definition allocated (h : Heap) (s : Slice) : Prop :=
  match s with
  | None => True
  | Some a => is_Some (arrays h !! a)
  end.

(** The slices of the tracker are slices of the heap, and their elements
    point to milestones of the heap. *)
Definition tracker_wf (t : Tracker) (h : Heap) : Prop :=
  forall sessionID s, milestones t !! sessionID = Some s ->
    allocated h s /\
    forall p, p ∈ elems h s -> is_Some (objs h !! p).

(** A tracker with one session and its milestones of thresholds 0 and
    100, before and after a first check. *)
Definition example_tracker : Tracker :=
  (InitializeSession (NewTracker true) empty_heap "s1" [0; 100]).1.1.

Definition example_heap : Heap :=
  (InitializeSession (NewTracker true) empty_heap "s1" [0; 100]).1.2.

Definition example_checked_heap : Heap :=
  match CheckMilestones example_tracker example_heap "s1"
          (Aggregation.NewSessionStats "s1" 0) 0 7 with
  | Ok (h, _, _) => h
  | _ => example_heap
  end.

(** Whether the milestone at [p] is pending and the metric it is measured
    by has reached its threshold. *)
Definition crossed (h : Heap) (p : loc)
    (totalReactions activeUsers elapsedMinutes : Z) : bool :=
  match objs h !! p with
  | Some m =>
      negb (Achieved m) &&
      (Threshold m <=?
       current_value m totalReactions activeUsers elapsedMinutes)
  | None => false
  end.

(** The pointers of the session's slice, none for an unknown session. *)
Definition session_ptrs (t : Tracker) (h : Heap) (sessionID : string)
    : list loc :=
  match milestones t !! sessionID with
  | Some ms => elems h ms
  | None => []
  end.

(** What a check of the milestones at [ps] leaves: the heap [h2] and the
    achievements [achs] found, from the heap [h]. *)
Definition check_post (ps : list loc) (h h2 : Heap)
    (achs : list MilestoneAchievement) (sessionID : string)
    (totalReactions activeUsers elapsedMinutes now : Z) : Prop :=
  arrays h2 = arrays h /\
  (forall p, is_Some (objs h2 !! p) <-> is_Some (objs h !! p)) /\
  (forall p, p ∉ ps -> objs h2 !! p = objs h !! p) /\
  (forall p, is_achieved h p = true -> objs h2 !! p = objs h !! p) /\
  (forall p, p ∈ ps ->
     is_achieved h2 p =
     is_achieved h p || crossed h p totalReactions activeUsers elapsedMinutes)
  /\
  (forall p, p ∈ Milestone_ <$> achs <->
     p ∈ ps /\
     crossed h p totalReactions activeUsers elapsedMinutes = true) /\
  NoDup (Milestone_ <$> achs) /\
  (forall a, a ∈ achs ->
     ASessionID a = sessionID /\ AAchievedAt a = now /\
     exists m, objs h !! Milestone_ a = Some m /\
       CurrentValue a =
         current_value m totalReactions activeUsers elapsedMinutes).

End Tracker.

(** ** Package config (config.go) *)

Module Config.

Record ServerConfig : Type := mkServerConfig {
  Port : string;
  ReadTimeout : Z;
  WriteTimeout : Z
}.

Record WorkerConfig : Type := mkWorkerConfig {
  Count : Z;
  EventQueueSize : Z
}.

Record DynamoDBConfig : Type := mkDynamoDBConfig {
  Endpoint : string;
  Region : string;
  EventsTable : string;
  SessionsTable : string;
  MilestonesTable : string
}.

Record MilestoneConfig : Type := mkMilestoneConfig {
  Thresholds : list Z
}.

Record Config : Type := mkConfig {
  Server : ServerConfig;
  Worker : WorkerConfig;
  DynamoDB : DynamoDBConfig;
  Milestone : MilestoneConfig
}.

(** [getEnv]: the environment is a map from names to values, an unset
    variable reads as the empty string. *)
Definition getEnv (env : gmap string string) (key defaultValue : string)
    : string :=
  let value := default EmptyString (env !! key) in
  if negb (String.eqb value EmptyString) then value else defaultValue.

Definition Validate (c : Config) : error :=
  if Count (Worker c) <=? 0 then Some "worker count must be positive"%string
  else if EventQueueSize (Worker c) <=? 0
       then Some "event queue size must be positive"%string
  else if String.eqb (Region (DynamoDB c)) EmptyString
       then Some "AWS region is required"%string
  else None.

(** A configuration with the given worker settings and region, the
    other fields as [Load] defaults them. *)
Definition config_with (count queueSize : Z) (region : string) : Config :=
  {| Server := {| Port := "8080"; ReadTimeout := 15; WriteTimeout := 15 |};
     Worker := {| Count := count; EventQueueSize := queueSize |};
     DynamoDB := {| Endpoint := EmptyString; Region := region;
                    EventsTable := "LivePulse_Events";
                    SessionsTable := "LivePulse_Sessions";
                    MilestonesTable := "LivePulse_Milestones" |};
     Milestone := {| Thresholds := [100; 500; 1000; 5000; 10000] |} |}.

(** *** Reading the configuration

    [Load] and its helpers call the Go library: [strconv.Atoi] and
    [time.ParseDuration] return a value or an error, [strings.Split] and
    [strings.TrimSpace] are total.  They are the variables of this
    section, and what is proved holds for whatever they compute.  The
    environment [env] is the process environment as [os.Getenv] reads it
    after [godotenv.Load], whose error is ignored. *)

(** [time.Second], in nanoseconds. *)
Definition Second : Z := 1000000000.

Section Load.
Variable Atoi : string -> option Z.
Variable ParseDuration : string -> option Z.
Variable Split : string -> string -> list string.
Variable TrimSpace : string -> string.

Definition parseInt (s : string) : Z :=
  match Atoi s with
  | Some val => val
  | None => 0
  end.

Definition parseDuration (s : string) : Z :=
  match ParseDuration s with
  | Some d => d
  | None => 15 * Second
  end.

(** The loop of [parseIntSlice] over the parts, appending to [result]. *)
Fixpoint parseIntSlice_loop (parts : list string) (result : list Z)
    : list Z :=
  match parts with
  | [] => result
  | part :: rest =>
      let part := TrimSpace part in
      match Atoi part with
      | Some val => parseIntSlice_loop rest (result ++ [val])
      | None => parseIntSlice_loop rest result
      end
  end.

Definition parseIntSlice (s : string) : list Z :=
  parseIntSlice_loop (Split s ",") [].

Definition Load (env : gmap string string) : Config * error :=
  ({| Server :=
        {| Port := getEnv env "SERVER_PORT" "8080";
           ReadTimeout :=
             parseDuration (getEnv env "SERVER_READ_TIMEOUT" "15s");
           WriteTimeout :=
             parseDuration (getEnv env "SERVER_WRITE_TIMEOUT" "15s") |};
      Worker :=
        {| Count := parseInt (getEnv env "WORKER_COUNT" "10");
           EventQueueSize :=
             parseInt (getEnv env "EVENT_QUEUE_SIZE" "10000") |};
      DynamoDB :=
        {| Endpoint := getEnv env "DYNAMODB_ENDPOINT" EmptyString;
           Region := getEnv env "AWS_REGION" "us-west-2";
           EventsTable :=
             getEnv env "DYNAMODB_EVENTS_TABLE" "LivePulse_Events";
           SessionsTable :=
             getEnv env "DYNAMODB_SESSIONS_TABLE" "LivePulse_Sessions";
           MilestonesTable :=
             getEnv env "DYNAMODB_MILESTONES_TABLE" "LivePulse_Milestones" |};
      Milestone :=
        {| Thresholds :=
             parseIntSlice
               (getEnv env "MILESTONE_THRESHOLDS"
                  "100,500,1000,5000,10000") |} |},
   None).

End Load.

(** A parser of unsigned decimal numbers, standing in for the library's
    in examples: it accepts a string of digits that is not empty. *)
Definition digit_value (c : Ascii.ascii) : option Z :=
  let n := Z.of_nat (Ascii.nat_of_ascii c) in
  if (48 <=? n) && (n <=? 57) then Some (n - 48) else None.

Fixpoint decimal_loop (s : string) (acc : Z) : option Z :=
  match s with
  | EmptyString => Some acc
  | String c rest =>
      match digit_value c with
      | Some d => decimal_loop rest (10 * acc + d)
      | None => None
      end
  end.

Definition decimal (s : string) : option Z :=
  match s with
  | EmptyString => None
  | _ => decimal_loop s 0
  end.

(** An environment that sets the worker count to a word. *)
Definition example_env : gmap string string :=
  <["WORKER_COUNT" := "many"]> ∅.

End Config.

(** * Properties *)

(** ** The milestone state machine *)

Section MilestoneFacts.
Import Milestones.

Lemma UpdateProgress_result (m : Milestone) (v now : Z) :
  (UpdateProgress m v now).2 = negb (Achieved m) && (Threshold m <=? v).
Proof.
  unfold UpdateProgress; simpl.
  destruct (negb (Achieved m) && (Threshold m <=? v)); reflexivity.
Qed.

Lemma UpdateProgress_Progress (m : Milestone) (v now : Z) :
  Progress (UpdateProgress m v now).1 = v.
Proof.
  unfold UpdateProgress; simpl.
  destruct (negb (Achieved m) && (Threshold m <=? v)); reflexivity.
Qed.

Lemma UpdateProgress_Threshold (m : Milestone) (v now : Z) :
  Threshold (UpdateProgress m v now).1 = Threshold m.
Proof.
  unfold UpdateProgress; simpl.
  destruct (negb (Achieved m) && (Threshold m <=? v)); reflexivity.
Qed.

Lemma UpdateProgress_Achieved (m : Milestone) (v now : Z) :
  Achieved (UpdateProgress m v now).1 = Achieved m || (Threshold m <=? v).
Proof.
  unfold UpdateProgress; simpl.
  destruct (Achieved m), (Threshold m <=? v); reflexivity.
Qed.

Lemma UpdateProgress_AchievedAt (m : Milestone) (v now : Z) :
  AchievedAt (UpdateProgress m v now).1 =
  if (UpdateProgress m v now).2 then Some now else AchievedAt m.
Proof.
  unfold UpdateProgress; simpl.
  destruct (negb (Achieved m) && (Threshold m <=? v)); reflexivity.
Qed.

Lemma update_all_cons (m : Milestone) (v now : Z) (rest : list (Z * Z)) :
  update_all m ((v, now) :: rest) =
  ((update_all (UpdateProgress m v now).1 rest).1,
   (UpdateProgress m v now).2 :: (update_all (UpdateProgress m v now).1 rest).2).
Proof.
  simpl. destruct (UpdateProgress m v now) as [m1 r]; simpl.
  destruct (update_all m1 rest) as [m2 rs]; reflexivity.
Qed.

(** Once achieved, a milestone stays achieved and no call returns true. *)
Lemma update_all_achieved (calls : list (Z * Z)) (m : Milestone) :
  Achieved m = true ->
  Achieved (update_all m calls).1 = true /\
  AchievedAt (update_all m calls).1 = AchievedAt m /\
  forall i, (update_all m calls).2 !! i ≠ Some true.
Proof.
  revert m. induction calls as [|[v now] rest IH]; intros m Hm.
  - simpl. split; [exact Hm|]. split; [reflexivity|].
    intros i. rewrite lookup_nil. discriminate.
  - rewrite update_all_cons; simpl.
    assert (Hr : (UpdateProgress m v now).2 = false)
      by (rewrite UpdateProgress_result, Hm; reflexivity).
    assert (Ha : Achieved (UpdateProgress m v now).1 = true)
      by (rewrite UpdateProgress_Achieved, Hm; reflexivity).
    destruct (IH _ Ha) as (IH1 & IH2 & IH3).
    split; [exact IH1|]. split.
    + rewrite IH2, UpdateProgress_AchievedAt, Hr. reflexivity.
    + intros [|i]; simpl.
      * rewrite Hr. discriminate.
      * apply IH3.
Qed.


Lemma update_all_Achieved_mono (calls : list (Z * Z)) (m : Milestone) :
  Achieved m = true -> Achieved (update_all m calls).1 = true.
Proof. intros H. apply (update_all_achieved calls m H). Qed.

Lemma update_all_app (c1 c2 : list (Z * Z)) (m : Milestone) :
  update_all m (c1 ++ c2) =
  ((update_all (update_all m c1).1 c2).1,
   (update_all m c1).2 ++ (update_all (update_all m c1).1 c2).2).
Proof.
  revert m. induction c1 as [|[v now] rest IH]; intros m.
  - simpl. destruct (update_all m c2); reflexivity.
  - rewrite <- app_comm_cons, !update_all_cons, IH. reflexivity.
Qed.

End MilestoneFacts.

Section MilestoneClaims.
Import Milestones.




End MilestoneClaims.

(** ** Session statistics *)

Section StatsFacts.
Import Events Aggregation.

Lemma Int64_add_1 (x : Z) :
  Int64.min <= x < Int64.max -> Int64.add x 1 = x + 1.
Proof.
  unfold Int64.add, Int64.wrap, Int64.min, Int64.max, Int64.modulus.
  intros H. rewrite Z.mod_small; lia.
Qed.

Lemma sum_counts_update (counts : gmap ReactionType Z) (rt : ReactionType)
    (c c' : Z) :
  counts !! rt = Some c ->
  sum_counts (<[rt := c']> counts) = sum_counts counts - c + c'.
Proof.
  intros Hc. unfold sum_counts.
  rewrite (map_fold_delete_L _ 0 rt c counts); [|intros; lia|exact Hc].
  rewrite <- (insert_delete_eq counts).
  rewrite map_fold_insert_L; [lia|intros; lia|apply lookup_delete_eq].
Qed.

Lemma AddUser_peak (s : SessionStats) (userID : string) (now : Z) :
  active_len (AddUser s userID now).1
    <= PeakConcurrentUsers (AddUser s userID now).1.
Proof.
  unfold AddUser, active_len; simpl.
  destruct (Z.ltb_spec (PeakConcurrentUsers s)
              (Z.of_nat (size (<[userID:=true]> (ActiveUsers s))))); lia.
Qed.

Lemma RemoveUser_len (s : SessionStats) (userID : string) (now : Z) :
  active_len (RemoveUser s userID now).1 <= active_len s.
Proof.
  unfold RemoveUser, active_len; simpl.
  rewrite map_size_delete. destruct (ActiveUsers s !! userID); simpl; lia.
Qed.

Lemma IncrementReaction_known (s : SessionStats) (rt : ReactionType)
    (c now : Z) :
  ReactionCounts s !! rt = Some c ->
  IncrementReaction s rt now =
  ({| SessionID := SessionID s; ActiveUsers := ActiveUsers s;
      ReactionCounts := <[rt := Int64.add c 1]> (ReactionCounts s);
      TotalReactions := Int64.add (TotalReactions s) 1;
      PeakConcurrentUsers := PeakConcurrentUsers s;
      StartTime := StartTime s; LastActivity := now |},
   Int64.add (TotalReactions s) 1).
Proof. intros H. unfold IncrementReaction. rewrite H. reflexivity. Qed.

Lemma IncrementReaction_unknown (s : SessionStats) (rt : ReactionType)
    (now : Z) :
  ReactionCounts s !! rt = None ->
  IncrementReaction s rt now =
  ({| SessionID := SessionID s; ActiveUsers := ActiveUsers s;
      ReactionCounts := ReactionCounts s;
      TotalReactions := Int64.add (TotalReactions s) 1;
      PeakConcurrentUsers := PeakConcurrentUsers s;
      StartTime := StartTime s; LastActivity := LastActivity s |},
   Int64.add (TotalReactions s) 1).
Proof. intros H. unfold IncrementReaction. rewrite H. reflexivity. Qed.

(** The six reaction types, and no other, have a counter in a new
    session. *)
Lemma NewSessionStats_counters (sessionID : string) (now : Z)
    (rt : ReactionType) :
  is_Some (ReactionCounts (NewSessionStats sessionID now) !! rt) <->
  rt ∈ [ReactionLike; ReactionLove; ReactionCheer; ReactionApplause;
        ReactionFire; ReactionHeart].
Proof.
  unfold NewSessionStats; simpl.
  rewrite !lookup_insert_is_Some, lookup_empty, !elem_of_cons, elem_of_nil.
  split.
  - intros H. repeat (destruct H as [H|[_ H]]; [auto 10|]).
    destruct H as [? H]; discriminate.
  - intros H.
    destruct (decide (ReactionLike = rt)); [auto|right; split; [auto|]].
    destruct (decide (ReactionLove = rt)); [auto|right; split; [auto|]].
    destruct (decide (ReactionCheer = rt)); [auto|right; split; [auto|]].
    destruct (decide (ReactionApplause = rt)); [auto|right; split; [auto|]].
    destruct (decide (ReactionFire = rt)); [auto|right; split; [auto|]].
    destruct (decide (ReactionHeart = rt)); [auto|exfalso].
    repeat (destruct H as [H|H]; [congruence|]). exact H.
Qed.

Lemma NewSessionStats_inv (sessionID : string) (now : Z) :
  stats_inv (NewSessionStats sessionID now) 0 /\
  below_max (NewSessionStats sessionID now).
Proof.
  split; [split|split].
  - vm_compute. reflexivity.
  - vm_compute. discriminate.
  - vm_compute. split; [discriminate|reflexivity].
  - intros rt c. unfold NewSessionStats; simpl. intros H.
    repeat (apply lookup_insert_Some in H as [[_ <-]|[_ H]];
            [vm_compute; split; [discriminate|reflexivity]|]).
    rewrite lookup_empty in H. discriminate.
Qed.

Lemma sum_counts_nonneg (counts : gmap ReactionType Z) :
  (forall rt c, counts !! rt = Some c -> 0 <= c) -> 0 <= sum_counts counts.
Proof.
  unfold sum_counts.
  induction counts as [|rt c counts Hrt Hfold IH] using map_first_key_ind.
  - intros _. rewrite map_fold_empty. lia.
  - intros Hall. rewrite map_fold_insert_first_key by assumption.
    assert (0 <= c) by (apply (Hall rt); apply lookup_insert_eq).
    assert (0 <= map_fold (fun _ c acc => c + acc) 0 counts).
    { apply IH. intros rt' c' Hc'. apply (Hall rt').
      rewrite lookup_insert_ne by congruence. exact Hc'. }
    lia.
Qed.

(** A counter is at most the sum of the counters when none is negative. *)
Lemma counter_le_sum (counts : gmap ReactionType Z) (rt : ReactionType)
    (c : Z) :
  (forall rt c, counts !! rt = Some c -> 0 <= c) ->
  counts !! rt = Some c -> c <= sum_counts counts.
Proof.
  intros Hall Hc.
  pose proof (sum_counts_update counts rt c 0 Hc) as Hup.
  assert (0 <= sum_counts (<[rt := 0]> counts)).
  { apply sum_counts_nonneg. intros rt' c'. rewrite lookup_insert_Some.
    intros [[_ <-]|[_ H']]; [lia|eauto]. }
  lia.
Qed.

Lemma stats_inv_upto_below_max (s : SessionStats) (unattributed n : Z) :
  stats_inv_upto s unattributed n -> n < Int64.max -> below_max s.
Proof.
  intros ([Htot Hpeak] & Hu & Hpos & Hn) Hmax.
  pose proof (sum_counts_nonneg _ Hpos) as Hsum.
  unfold below_max, Int64.min, Int64.max in *. split; [lia|].
  intros rt c Hc. pose proof (counter_le_sum _ rt c Hpos Hc).
  pose proof (Hpos rt c Hc). lia.
Qed.

Lemma stats_inv_upto_step (s : SessionStats) (unattributed n : Z)
    (op : StatsOp) (now : Z) :
  stats_inv_upto s unattributed n -> n < Int64.max ->
  stats_inv_upto (apply_op s op now) (unattributed + unattributed_by s op)
    (n + 1).
Proof.
  intros Hinv Hmax.
  pose proof (stats_inv_upto_below_max s unattributed n Hinv Hmax) as Hbm.
  destruct Hinv as (Hinv & Hu & Hpos & Hn).
  destruct Hbm as [Hbt Hbc].
  split; [|split; [|split]].
  - destruct op as [uid|uid|rt]; simpl.
    + destruct Hinv as [Htot Hpeak]. split; [simpl; lia|apply AddUser_peak].
    + destruct Hinv as [Htot Hpeak]. split; [simpl; lia|].
      pose proof (RemoveUser_len s uid now) as Hlen. simpl in *. lia.
    + destruct Hinv as [Htot Hpeak].
      destruct (ReactionCounts s !! rt) as [c|] eqn:Hc.
      * rewrite (IncrementReaction_known s rt c now Hc). split; simpl.
        -- rewrite (sum_counts_update _ _ c _ Hc).
           rewrite !Int64_add_1 by eauto. lia.
        -- exact Hpeak.
      * rewrite (IncrementReaction_unknown s rt now Hc). split; simpl.
        -- rewrite Int64_add_1 by exact Hbt. lia.
        -- exact Hpeak.
  - destruct op as [uid|uid|rt]; simpl; try lia.
    destruct (ReactionCounts s !! rt); lia.
  - destruct op as [uid|uid|rt]; simpl; try exact Hpos.
    destruct (ReactionCounts s !! rt) as [c|] eqn:Hc.
    + rewrite (IncrementReaction_known s rt c now Hc). simpl.
      intros rt' c'. rewrite lookup_insert_Some.
      intros [[_ <-]|[_ H']]; [|eauto].
      rewrite Int64_add_1 by eauto. pose proof (Hpos rt c Hc). lia.
    + rewrite (IncrementReaction_unknown s rt now Hc). simpl. exact Hpos.
  - destruct op as [uid|uid|rt]; simpl; try lia.
    destruct (ReactionCounts s !! rt) as [c|] eqn:Hc.
    + rewrite (IncrementReaction_known s rt c now Hc). simpl.
      rewrite Int64_add_1 by exact Hbt. lia.
    + rewrite (IncrementReaction_unknown s rt now Hc). simpl.
      rewrite Int64_add_1 by exact Hbt. lia.
Qed.

(** The invariant holds at all times of a session made by
    [NewSessionStats], over any run of fewer than [2 ^ 63 - 1] operations:
    the counters cannot overflow before. *)
Lemma stats_inv_reachable (sessionID : string) (now : Z)
    (ops : list (StatsOp * Z)) :
  Z.of_nat (length ops) < Int64.max ->
  stats_inv (apply_ops (NewSessionStats sessionID now) ops)
    (unattributed_in (NewSessionStats sessionID now) ops).
Proof.
  intros Hlen.
  assert (Hgen : forall ops s u n,
    stats_inv_upto s u n -> 0 <= n ->
    n + Z.of_nat (length ops) < Int64.max ->
    stats_inv (apply_ops s ops) (u + unattributed_in s ops)).
  { clear. induction ops as [|[op t] rest IH]; intros s u n Hinv Hn Hlen.
    - simpl. rewrite Z.add_0_r. apply Hinv.
    - simpl in *. rewrite Z.add_assoc.
      apply (IH _ _ (n + 1)); [|lia|lia].
      apply stats_inv_upto_step; [exact Hinv|lia]. }
  apply (Hgen ops _ 0 0); [|lia|lia].
  split; [apply NewSessionStats_inv|]. split; [lia|]. split.
  - intros rt c. unfold NewSessionStats; simpl. intros H.
    repeat (apply lookup_insert_Some in H as [[_ <-]|[_ H]]; [lia|]).
    rewrite lookup_empty in H. discriminate.
  - simpl. lia.
Qed.

End StatsFacts.

Section StatsClaims.
Import Events Aggregation.

(** C5. Every operation on a [SessionStats] preserves the invariant that
    the reaction total is the sum of the per-type counters plus the
    unattributed reactions, and that the peak of concurrent users is at
    least the number of active users; the counters are [int64] values
    below the largest one. *)
Theorem stats_ops_preserve_invariant (s : SessionStats) (unattributed : Z)
    (op : StatsOp) (now : Z) :
  stats_inv s unattributed -> below_max s ->
  stats_inv (apply_op s op now) (unattributed + unattributed_by s op).
Proof.
  intros [Htot Hpeak] [Hmax Hcs]. destruct op as [uid|uid|rt]; simpl.
  - split; [simpl; lia|apply AddUser_peak].
  - split; [simpl; lia|].
    pose proof (RemoveUser_len s uid now) as Hlen. simpl in *. lia.
  - destruct (ReactionCounts s !! rt) as [c|] eqn:Hc.
    + rewrite (IncrementReaction_known s rt c now Hc). split; simpl.
      * rewrite (sum_counts_update _ _ c _ Hc).
        rewrite !Int64_add_1 by eauto. lia.
      * exact Hpeak.
    + rewrite (IncrementReaction_unknown s rt now Hc). split; simpl.
      * rewrite Int64_add_1 by exact Hmax. lia.
      * exact Hpeak.
Qed.

Lemma stats_ops_preserve_invariant_witness :
  stats_inv (NewSessionStats "s1" 0) 0 /\
  below_max (NewSessionStats "s1" 0) /\
  stats_inv
    (apply_op (NewSessionStats "s1" 0) (OpIncrementReaction "wow") 5)
    (0 + unattributed_by (NewSessionStats "s1" 0)
           (OpIncrementReaction "wow")).
Proof.
  split; [apply NewSessionStats_inv|].
  split; [apply NewSessionStats_inv|].
  apply (stats_ops_preserve_invariant (NewSessionStats "s1" 0) 0
           (OpIncrementReaction "wow") 5); apply NewSessionStats_inv.
Defined.

(** A reaction event whose payload has no reaction type is not counted:
    the total of its session stays 0. *)
Lemma malformed_reaction_not_counted :
  Type_ malformed_reaction = EventTypeReaction /\
  GetReactionType malformed_reaction = (EmptyString, false) /\
  session_total (ProcessEvent NewManager malformed_reaction 0) "s1"
    = Some 0 /\
  session_total (ProcessEvent NewManager malformed_reaction 0) "s1"
    ≠ Some (Int64.add 0 1).
Proof.
  vm_compute. repeat split; discriminate.
Qed.

(** The event that [ReactionEvent] builds carries its reaction type as a
    [ReactionType], which the assertion to [string] of [GetReactionType]
    rejects: it is not counted either. *)
Lemma ReactionEvent_not_counted :
  GetReactionType (ReactionEvent "e1" 0 "s1" "u1" ReactionLike)
    = (EmptyString, false) /\
  session_total
    (ProcessEvent NewManager (ReactionEvent "e1" 0 "s1" "u1" ReactionLike) 0)
    "s1" = Some 0.
Proof. vm_compute. split; reflexivity. Qed.

Lemma GetOrCreateSession_lookup (m : Manager) (sessionID : string)
    (now : Z) :
  sessions (GetOrCreateSession m sessionID now).1 !! sessionID =
  Some (GetOrCreateSession m sessionID now).2.
Proof.
  unfold GetOrCreateSession.
  destruct (sessions m !! sessionID) eqn:H; simpl;
    [exact H|apply lookup_insert_eq].
Qed.

Lemma GetReactionType_string (e : Event) (rt : ReactionType) :
  Type_ e = EventTypeReaction ->
  Payload e !! "reaction_type"%string = Some (VString rt) ->
  GetReactionType e = (rt, true).
Proof.
  intros Ht Hp. unfold GetReactionType. rewrite Ht, Hp. reflexivity.
Qed.

Lemma GetReactionType_none (e : Event) :
  no_reaction_type (Payload e !! "reaction_type"%string) ->
  GetReactionType e = (EmptyString, false).
Proof.
  intros Hp. unfold GetReactionType.
  destruct (negb (Type_ e =? EventTypeReaction)%string); [reflexivity|].
  destruct (Payload e !! "reaction_type"%string) as [[]|];
    simpl in *; tauto.
Qed.

Lemma ProcessEvent_reaction_eq (m : Manager) (e : Event) (now : Z) :
  Type_ e = EventTypeReaction ->
  ProcessEvent m e now =
  let m1 := (GetOrCreateSession m (Events.SessionID e) now).1 in
  let stats := (GetOrCreateSession m (Events.SessionID e) now).2 in
  if (GetReactionType e).2
  then store_session m1 (Events.SessionID e)
         (IncrementReaction stats (GetReactionType e).1 now).1
  else m1.
Proof.
  intros Ht. unfold ProcessEvent.
  destruct (GetOrCreateSession m (Events.SessionID e) now) as [m1 stats].
  rewrite Ht; simpl. destruct (GetReactionType e) as [rt ok]. reflexivity.
Qed.

(** C2, as the code has it. [ProcessEvent] on a reaction event whose
    payload holds a string reaction type counts it: a type that has a
    counter increments that counter and the total; a type that has none
    increments the total only.  A reaction event whose payload entry is
    missing, nil, a boolean or a number changes no counter.  No case
    returns an error: [ProcessEvent] has no error result. *)
Theorem ProcessEvent_reaction (m : Manager) (e : Event) (now : Z) :
  Type_ e = EventTypeReaction ->
  let sid := Events.SessionID e in
  let stats := (GetOrCreateSession m sid now).2 in
  let after := sessions (ProcessEvent m e now) !! sid in
  (forall rt c,
      Payload e !! "reaction_type"%string = Some (VString rt) ->
      ReactionCounts stats !! rt = Some c ->
      exists s', after = Some s' /\
        TotalReactions s' = Int64.add (TotalReactions stats) 1 /\
        ReactionCounts s' = <[rt := Int64.add c 1]> (ReactionCounts stats)) /\
  (forall rt,
      Payload e !! "reaction_type"%string = Some (VString rt) ->
      ReactionCounts stats !! rt = None ->
      exists s', after = Some s' /\
        TotalReactions s' = Int64.add (TotalReactions stats) 1 /\
        ReactionCounts s' = ReactionCounts stats) /\
  (no_reaction_type (Payload e !! "reaction_type"%string) ->
   after = Some stats).
Proof.
  intros Ht sid stats after. subst after.
  rewrite (ProcessEvent_reaction_eq m e now Ht). cbv zeta.
  fold sid. fold stats. split; [|split].
  - intros rt c Hp Hc. rewrite (GetReactionType_string e rt Ht Hp); simpl.
    rewrite lookup_insert_eq.
    rewrite (IncrementReaction_known stats rt c now Hc); simpl.
    eexists; split; [reflexivity|]. split; reflexivity.
  - intros rt Hp Hc. rewrite (GetReactionType_string e rt Ht Hp); simpl.
    rewrite lookup_insert_eq.
    rewrite (IncrementReaction_unknown stats rt now Hc); simpl.
    eexists; split; [reflexivity|]. split; reflexivity.
  - intros Hp. rewrite (GetReactionType_none e Hp); simpl.
    apply GetOrCreateSession_lookup.
Qed.

Lemma ProcessEvent_reaction_witness :
  Type_ fire_reaction = EventTypeReaction /\
  session_total (ProcessEvent NewManager fire_reaction 0) "s1" = Some 1 /\
  exists s',
    sessions (ProcessEvent NewManager fire_reaction 0) !! "s1" = Some s' /\
    TotalReactions s' =
      Int64.add (TotalReactions (GetOrCreateSession NewManager "s1" 0).2) 1 /\
    ReactionCounts s' =
      <[ReactionFire := Int64.add 0 1]>
        (ReactionCounts (GetOrCreateSession NewManager "s1" 0).2).
Proof.
  split; [reflexivity|]. split; [vm_compute; reflexivity|].
  apply (proj1 (ProcessEvent_reaction NewManager fire_reaction 0 eq_refl)
           ReactionFire 0); reflexivity.
Defined.

End StatsClaims.

(** ** The bounded queue *)

Section QueueFacts.
Import Events Queue.

Local Ltac finish :=
  repeat split; first [assumption | reflexivity | congruence | lia].

Lemma NewQueue_wf (size : Z) (q : Queue) :
  NewQueue size = Ok q -> wf size q /\ closed q = false /\ Len q = 0.
Proof.
  unfold NewQueue, make_chan. destruct (Z.ltb_spec size 0); [discriminate|].
  simpl. intros [= <-]. unfold wf, Len, chan_len; simpl.
  repeat split; auto.
Qed.

(** [Enqueue] of an event on a well-formed queue returns, and tells by
    its result whether the event was buffered. *)
Lemma Enqueue_spec (size : Z) (q : Queue) (e : Event) :
  wf size q ->
  exists r q' logs, Enqueue q (Some e) = Ok (r, q', logs) /\
    (r = false <-> Len q = size \/ closed q = true) /\
    (r = false -> q' = q) /\
    (r = true -> buf (events q') = buf (events q) ++ [Some e] /\
                 closed q' = false) /\
    wf size q'.
Proof.
  intros (Hs & Hc & Hcl & Hlen). unfold Enqueue.
  destruct (closed q) eqn:Hq.
  - exists false, q, []. split; [reflexivity|].
    split; [split; auto|]. split; [reflexivity|].
    split; [discriminate|]. unfold wf, Len. repeat split; first [assumption | congruence].
  - unfold chan_try_send. rewrite Hcl.
    unfold Len in Hlen. rewrite Hc.
    destruct (Z.ltb_spec (chan_len (events q)) size) as [Hlt|Hge].
    + eexists true, _, []. split; [reflexivity|].
      split; [split; [discriminate|unfold Len; intros [?|?]; [lia|discriminate]]|].
      split; [discriminate|]. split; [intros _; split; [reflexivity|exact Hq]|].
      unfold wf, Len, chan_len in *; simpl. rewrite length_app; simpl.
      repeat split; auto. lia.
    + eexists false, q, _. split; [reflexivity|].
      split; [split; [intros _; left; unfold Len; lia|reflexivity]|].
      split; [reflexivity|]. split; [discriminate|].
      unfold wf, Len. repeat split; first [assumption | congruence].
Qed.

Lemma Dequeue_wf (size : Z) (q q' : Queue) (ctxDone pick : bool)
    (v : EventPtr) (ok : bool) :
  wf size q -> Dequeue q ctxDone pick = Some (v, ok, q') -> wf size q'.
Proof.
  intros Hw. unfold Dequeue, chan_recv.
  destruct (buf (events q)) as [|x rest] eqn:Hb.
  - destruct (chclosed (events q)) eqn:Hch, ctxDone;
      intros [= <- <- <-]; exact Hw.
  - assert (Hw' : wf size
              (with_events q {| buf := rest; cap := cap (events q);
                                chclosed := chclosed (events q) |})).
    { destruct Hw as (Hs & Hc & Hcl & Hlen).
      unfold wf, Len, chan_len in *. rewrite Hb in Hlen. simpl in *.
      repeat split; try assumption. lia. }
    destruct ctxDone; [destruct pick|]; intros [= <- <- <-];
      assumption.
Qed.

Lemma Close_spec (size : Z) (q : Queue) :
  wf size q ->
  exists q', Close q = Ok q' /\ closed q' = true /\
    buf (events q') = buf (events q) /\ wf size q'.
Proof.
  intros (Hs & Hc & Hcl & Hlen). unfold Close, chan_close.
  destruct (closed q) eqn:Hq; simpl.
  - exists q. unfold wf. finish.
  - rewrite Hcl; simpl. eexists; split; [reflexivity|].
    unfold wf, Len, chan_len in *; simpl. finish.
Qed.

Lemma step_wf (size : Z) (q : Queue) (op : QueueOp) :
  wf size q -> exists q', step q op = Ok q' /\ wf size q'.
Proof.
  intros Hw. destruct op as [e|ctxDone pick|]; simpl.
  - destruct (Enqueue_spec size q e Hw) as (r & q' & logs & -> & _ & _ & _ & Hw').
    exists q'; auto.
  - destruct (Dequeue q ctxDone pick) as [[[v ok] q']|] eqn:Hd.
    + exists q'. split; [reflexivity|]. eapply Dequeue_wf; eauto.
    + exists q; auto.
  - destruct (Close_spec size q Hw) as (q' & -> & _ & _ & Hw'). eauto.
Qed.

Lemma run_ops_wf (size : Z) (ops : list QueueOp) (q : Queue) :
  wf size q -> exists q', run_ops q ops = Ok q' /\ wf size q'.
Proof.
  revert q. induction ops as [|op rest IH]; intros q Hw; simpl.
  - eauto.
  - destruct (step_wf size q op Hw) as (q1 & -> & Hw1). simpl.
    apply IH, Hw1.
Qed.

(** On a closed queue [Enqueue] returns false and changes nothing. *)
Lemma Enqueue_closed (q : Queue) (v : EventPtr) :
  closed q = true -> Enqueue q v = Ok (false, q, []).
Proof. intros H. unfold Enqueue. rewrite H. reflexivity. Qed.

Lemma enqueue_all_closed (es : list Event) (q : Queue) :
  closed q = true -> enqueue_all q es = Ok q.
Proof.
  intros H. induction es as [|e rest IH]; simpl; [reflexivity|].
  rewrite (Enqueue_closed q (Some e) H). simpl. exact IH.
Qed.

(** The [range] loop over a closed channel returns its buffer, oldest
    first, after what was collected before. *)
Lemma chan_range_closed (b : list EventPtr) (c : Chan)
    (acc : list EventPtr) :
  chclosed c = true ->
  chan_range b c acc =
  Ok ({| buf := match b with [] => buf c | _ => [] end; cap := cap c;
         chclosed := true |}, acc ++ b).
Proof.
  revert c acc. induction b as [|v rest IH]; intros c acc Hc; simpl.
  - rewrite Hc, app_nil_r. destruct c; simpl in *; subst; reflexivity.
  - rewrite IH by exact Hc. simpl. rewrite <- app_assoc. simpl.
    destruct rest; reflexivity.
Qed.

Lemma chan_range_open (b : list EventPtr) (c : Chan) (acc : list EventPtr) :
  chclosed c = false -> chan_range b c acc = Blocked.
Proof.
  revert c acc. induction b as [|v rest IH]; intros c acc Hc; simpl.
  - rewrite Hc. reflexivity.
  - apply IH. exact Hc.
Qed.

(** One turn of the [range] loop is one receive. *)
Lemma chan_range_step (c : Chan) (acc : list EventPtr) :
  chan_range (buf c) c acc =
  match chan_recv c with
  | Received v c' => chan_range (buf c') c' (acc ++ [v])
  | RecvClosed => Ok (c, acc)
  | RecvNotReady => Blocked
  end.
Proof.
  unfold chan_recv.
  destruct (buf c) as [|v rest]; simpl; [destruct (chclosed c)|];
    reflexivity.
Qed.

Lemma Drain_closed (size : Z) (q : Queue) :
  wf size q -> closed q = true ->
  exists q', Drain q = Ok (q', buf (events q)) /\
    closed q' = true /\ buf (events q') = [] /\ wf size q'.
Proof.
  intros (Hs & Hc & Hcl & Hlen) Hq. unfold Drain; simpl.
  rewrite chan_range_closed by congruence. simpl.
  eexists; split; [reflexivity|].
  unfold wf, Len, chan_len in *; simpl.
  assert (Hnil : match buf (events q) with [] => buf (events q) | _ => [] end
                 = []) by (destruct (buf (events q)); reflexivity).
  rewrite Hnil; simpl. finish.
Qed.

(** Enqueuing the events of [es] on an open queue buffers as many of
    them as there is room for, the first ones, and drops the others. *)
Lemma enqueue_all_open (size : Z) (es : list Event) (q : Queue) :
  wf size q -> closed q = false ->
  exists q', enqueue_all q es = Ok q' /\ wf size q' /\ closed q' = false /\
    buf (events q') =
      buf (events q) ++
      (Some <$> take (Z.to_nat (size - Len q)) es).
Proof.
  revert q. induction es as [|e rest IH]; intros q Hw Hq; simpl.
  - exists q. rewrite take_nil, app_nil_r. split; [reflexivity|].
    split; [exact Hw|]. split; [exact Hq|reflexivity].
  - destruct (Enqueue_spec size q e Hw)
      as (r & q1 & logs & -> & Hiff & Hf & Ht & Hw1).
    simpl. destruct r.
    + destruct (Ht eq_refl) as [Hb1 Hq1].
      destruct (IH q1 Hw1 Hq1) as (q' & -> & Hw' & Hq' & Hb').
      exists q'. split; [reflexivity|]. split; [exact Hw'|].
      split; [exact Hq'|].
      rewrite Hb', Hb1, <- app_assoc. f_equal.
      assert (Hlt : Len q < size).
      { destruct (Z.lt_ge_cases (Len q) size) as [?|Hge]; [assumption|].
        destruct Hw as (_ & _ & _ & Hle).
        assert (Hfalse : true = false) by (apply Hiff; left; lia).
        discriminate. }
      assert (HL : Len q1 = Len q + 1).
      { unfold Len, chan_len. rewrite Hb1, length_app. simpl. lia. }
      rewrite HL.
      replace (Z.to_nat (size - Len q))
        with (S (Z.to_nat (size - (Len q + 1)))) by lia.
      reflexivity.
    + rewrite (Hf eq_refl) in *.
      destruct (IH q Hw Hq) as (q' & -> & Hw' & Hq' & Hb').
      exists q'. split; [reflexivity|]. split; [exact Hw'|].
      split; [exact Hq'|].
      rewrite Hb'. f_equal.
      destruct (proj1 Hiff eq_refl) as [Hfull|Hcl]; [|congruence].
      rewrite Hfull, Z.sub_diag. reflexivity.
Qed.

(** Of the events enqueued on a new queue of capacity [size], the first
    [size] are buffered and the overflow is dropped. *)
Lemma enqueue_all_overflow (size : Z) (q0 : Queue) (es : list Event) :
  NewQueue size = Ok q0 ->
  exists q, enqueue_all q0 es = Ok q /\
    buf (events q) = Some <$> take (Z.to_nat size) es.
Proof.
  intros Hnew. destruct (NewQueue_wf size q0 Hnew) as (Hw & Hq & Hlen).
  destruct (enqueue_all_open size es q0 Hw Hq) as (q & He & _ & _ & Hb).
  exists q. split; [exact He|].
  rewrite Hb, Hlen, Z.sub_0_r.
  assert (Hnil : buf (events q0) = []).
  { unfold Len, chan_len in Hlen. destruct (buf (events q0)); [reflexivity|].
    simpl in Hlen. lia. }
  rewrite Hnil. reflexivity.
Qed.

End QueueFacts.

Section QueueClaims.
Import Events Queue.




(** C4. After [Close] and then [Drain], the drained sequence is the
    buffer the queue held when it was closed, every event once and the
    oldest first; the events offered to [Enqueue] between the two are
    refused and are not in it; and every later [Enqueue] returns false. *)
Theorem Close_then_Drain (C : Z) (q0 q : Queue) (ops : list QueueOp)
    (late : list Event) :
  NewQueue C = Ok q0 -> run_ops q0 ops = Ok q ->
  exists q1 q2,
    Close q = Ok q1 /\
    enqueue_all q1 late = Ok q1 /\
    Drain q1 = Ok (q2, buf (events q)) /\
    buf (events q2) = [] /\
    forall v, Enqueue q2 v = Ok (false, q2, []).
Proof.
  intros Hnew Hrun. destruct (NewQueue_wf C q0 Hnew) as (Hw0 & _ & _).
  destruct (run_ops_wf C ops q0 Hw0) as (q' & Hrun' & Hw).
  rewrite Hrun in Hrun'. injection Hrun' as <-.
  destruct (Close_spec C q Hw) as (q1 & Hclose & Hc1 & Hb1 & Hw1).
  destruct (Drain_closed C q1 Hw1 Hc1) as (q2 & Hdrain & Hc2 & Hb2 & Hw2).
  exists q1, q2. split; [exact Hclose|].
  split; [apply enqueue_all_closed, Hc1|].
  split; [rewrite <- Hb1; exact Hdrain|].
  split; [exact Hb2|].
  intros v. apply Enqueue_closed, Hc2.
Qed.

Lemma Close_then_Drain_witness :
  NewQueue 2 = Ok (open_queue 2 []) /\
  run_ops (open_queue 2 [])
    [OpEnqueue event1; OpEnqueue event2; OpEnqueue event3] =
    Ok (open_queue 2 [Some event1; Some event2]) /\
  exists q1 q2,
    Close (open_queue 2 [Some event1; Some event2]) = Ok q1 /\
    enqueue_all q1 [event3] = Ok q1 /\
    Drain q1 = Ok (q2, [Some event1; Some event2]) /\
    buf (events q2) = [] /\
    forall v, Enqueue q2 v = Ok (false, q2, []).
Proof.
  split; [reflexivity|]. split; [reflexivity|].
  apply (Close_then_Drain 2 (open_queue 2 [])
           (open_queue 2 [Some event1; Some event2])
           [OpEnqueue event1; OpEnqueue event2; OpEnqueue event3] [event3]);
    reflexivity.
Defined.

(** [Drain] of a queue that was not closed never returns. *)
Lemma Drain_open (C : Z) (q : Queue) :
  wf C q -> closed q = false -> Drain q = Blocked.
Proof.
  intros (_ & _ & Hcl & _) Hq. unfold Drain; simpl.
  rewrite chan_range_open by congruence. reflexivity.
Qed.

End QueueClaims.

(** ** The worker pool *)

Section WorkerFacts.
Import Events Queue Worker.
Context {St : Type}.
Variable handler : EventPtr -> St -> St * error.

Lemma Dequeue_cons (q : Queue) (v : EventPtr) (rest : list EventPtr)
    (pick : bool) :
  buf (events q) = v :: rest ->
  Dequeue q false pick =
  Some (v, true,
        with_events q {| buf := rest; cap := cap (events q);
                         chclosed := chclosed (events q) |}).
Proof. intros H. unfold Dequeue, chan_recv. rewrite H. reflexivity. Qed.

Lemma Dequeue_nil (q : Queue) (pick : bool) :
  buf (events q) = [] ->
  Dequeue q false pick =
  if chclosed (events q) then Some (None, false, q) else None.
Proof.
  intros H. unfold Dequeue, chan_recv. rewrite H.
  destruct (chclosed (events q)); reflexivity.
Qed.

(** A worker that is not cancelled handles every buffered event, in
    order, whether the handler fails or not; it then returns if the
    queue is closed and waits for the next event otherwise. *)
Lemma worker_loop_handles_all (evs : list Event) (fuel : nat) (id : Z)
    (pick : bool) (wp : WorkerPool) :
  cancelled wp = false ->
  buf (events (queue wp)) = Some <$> evs ->
  (length evs < fuel)%nat ->
  let res := worker_loop handler fuel id pick wp in
  res.1 = (if chclosed (events (queue wp))
           then WorkerReturned else WorkerWaiting) /\
  hstate res.2 = handle_all handler evs (hstate wp) /\
  buf (events (queue res.2)) = [] /\
  logged res.2 =
    logged wp ++ error_lines handler (worker_error_line id) evs (hstate wp)
    ++ (if chclosed (events (queue wp))
        then [worker_prefix id +:+ ": queue closed or context cancelled"]
        else []).
Proof.
  revert fuel wp. induction evs as [|e rest IH]; intros fuel wp Hc Hb Hf.
  - destruct fuel as [|fuel]; [simpl in Hf; lia|]. simpl.
    rewrite Hc. rewrite (Dequeue_nil _ pick Hb).
    destruct (chclosed (events (queue wp))); simpl.
    + repeat split; auto.
    + rewrite app_nil_r. repeat split; auto.
  - destruct fuel as [|fuel]; [simpl in Hf; lia|]. simpl in Hf.
    cbn [worker_loop]. rewrite Hc.
    rewrite (Dequeue_cons _ _ _ pick Hb).
    destruct (handler (Some e) (hstate _)) as [st oerr] eqn:Hh.
    simpl in Hh.
    destruct oerr as [err|].
    + match goal with |- context [worker_loop handler fuel id pick ?w] =>
        specialize (IH fuel w) end.
      destruct IH as (I1 & I2 & I3 & I4); [exact Hc|reflexivity|lia|].
      simpl in *. rewrite Hh; simpl.
      rewrite I1, I2, I3, I4. repeat split; auto.
      rewrite <- !app_assoc. reflexivity.
    + match goal with |- context [worker_loop handler fuel id pick ?w] =>
        specialize (IH fuel w) end.
      destruct IH as (I1 & I2 & I3 & I4); [exact Hc|reflexivity|lia|].
      simpl in *. rewrite Hh; simpl.
      rewrite I1, I2, I3, I4. repeat split; auto.
Qed.

Lemma process_remaining_all (evs : list Event) (wp : WorkerPool) :
  exists wp', process_remaining handler (Some <$> evs) wp = Ok wp' /\
    hstate wp' = handle_all handler evs (hstate wp) /\
    queue wp' = queue wp /\ cancelled wp' = cancelled wp /\
    logged wp' =
      logged wp ++ error_lines handler drain_error_line evs (hstate wp).
Proof.
  revert wp. induction evs as [|e rest IH]; intros wp; simpl.
  - exists wp. rewrite app_nil_r. repeat split; auto.
  - destruct (handler (Some e) (hstate wp)) as [st [err|]] eqn:Hh; simpl.
    + destruct (IH (log (with_hstate wp st) (drain_error_line e err)))
        as (wp' & Hp & I2 & I3 & I4 & I5).
      exists wp'. split; [exact Hp|]. simpl in *.
      rewrite I5, <- app_assoc. repeat split; auto.
    + destruct (IH (with_hstate wp st)) as (wp' & Hp & I2 & I3 & I4 & I5).
      exists wp'. split; [exact Hp|]. simpl in *. repeat split; auto.
Qed.

End WorkerFacts.

Section WorkerClaims.
Import Events Queue Worker.
Context {St : Type}.
Variable handler : EventPtr -> St -> St * error.

(** On events that are not nil, a handler that returns an error does
    not halt the processing.  The worker loop, on a queue that buffers
    the events [evs], calls the handler on every one of them in order,
    logs one line for each error and goes on to the next event; it
    returns only when the queue is closed and empty, and otherwise waits
    for the next event.  [ShutdownWithDrain] likewise calls the handler
    on every drained event, logging the errors, and returns. *)
Theorem handler_errors_do_not_halt (C : Z) (evs : list Event) (id : Z)
    (pick : bool) (fuel : nat) (wp : WorkerPool) :
  wf C (queue wp) ->
  cancelled wp = false ->
  buf (events (queue wp)) = Some <$> evs ->
  (length evs < fuel)%nat ->
  (let res := worker_loop handler fuel id pick wp in
   res.1 = (if closed (queue wp) then WorkerReturned else WorkerWaiting) /\
   hstate res.2 = handle_all handler evs (hstate wp) /\
   buf (events (queue res.2)) = [] /\
   logged res.2 =
     logged wp ++ error_lines handler (worker_error_line id) evs (hstate wp)
     ++ (if closed (queue wp)
         then [worker_prefix id +:+ ": queue closed or context cancelled"]
         else [])) /\
  (exists wp', ShutdownWithDrain handler wp = Ok wp' /\
     hstate wp' = handle_all handler evs (hstate wp) /\
     buf (events (queue wp')) = [] /\
     cancelled wp' = true /\
     logged wp' =
       logged wp ++ ["Shutting down worker pool with drain..."] ++
       ["Processing " +:+ fmt_int (Z.of_nat (length evs))
        +:+ " remaining events"] ++
       error_lines handler drain_error_line evs (hstate wp) ++
       ["Worker pool shutdown with drain complete"]).
Proof.
  intros Hw Hc Hb Hf. split.
  - destruct Hw as (_ & _ & <- & _).
    apply worker_loop_handles_all; assumption.
  - unfold ShutdownWithDrain.
    change (queue (log wp "Shutting down worker pool with drain..."))
      with (queue wp).
    destruct (Close_spec C (queue wp) Hw) as (q1 & -> & Hc1 & Hb1 & Hw1).
    simpl.
    destruct (Drain_closed C q1 Hw1 Hc1) as (q2 & -> & Hc2 & Hb2 & Hw2).
    simpl. rewrite Hb1, Hb.
    match goal with |- context [process_remaining handler _ ?w] =>
      destruct (process_remaining_all handler evs w)
        as (wp2 & -> & I2 & I3 & I4 & I5) end.
    simpl. eexists; split; [reflexivity|]. simpl in *.
    rewrite I2, I3, I5, length_fmap, Hb2, <- !app_assoc.
    repeat split; auto.
Qed.

End WorkerClaims.

Lemma handler_errors_do_not_halt_witness :
  Queue.wf 2 (Worker.queue Worker.example_pool) /\
  Worker.hstate
    (Worker.worker_loop Worker.failing_handler 3 0 true Worker.example_pool).2
  = [Some Events.event1; Some Events.event2].
Proof.
  split; [vm_compute; repeat split; discriminate|].
  apply (proj1 (handler_errors_do_not_halt Worker.failing_handler 2
           [Events.event1; Events.event2] 0 true 3 Worker.example_pool
           ltac:(vm_compute; repeat split; discriminate)
           eq_refl eq_refl ltac:(simpl; lia))).
Defined.

(** C9. The drain loop has no nil guard, the worker loop has one.  A
    queue of capacity 3 takes an event, a nil pointer and another event,
    [Enqueue] returning true for each.  With a handler that returns an
    error for whatever it is given, the worker loop skips the nil
    pointer, hands both events to the handler, logging both errors, and
    waits for more; [ShutdownWithDrain] on the same pool hands the nil
    pointer to the handler and panics when it logs the error, the line
    reading the id of the nil event: the event behind it is never
    handled and the shutdown does not complete. *)
Lemma drain_halts_on_nil_event :
  Queue.NewQueue 3 = Ok (Queue.open_queue 3 []) /\
  Queue.Enqueue (Queue.open_queue 3 []) (Some Events.event1)
    = Ok (true, Queue.open_queue 3 [Some Events.event1], []) /\
  Queue.Enqueue (Queue.open_queue 3 [Some Events.event1]) None
    = Ok (true, Queue.open_queue 3 [Some Events.event1; None], []) /\
  Queue.Enqueue (Queue.open_queue 3 [Some Events.event1; None])
      (Some Events.event2)
    = Ok (true, Worker.queue Worker.example_pool_nil, []) /\
  fst (Worker.worker_loop Worker.failing_handler 4 1 true
         Worker.example_pool_nil) = Worker.WorkerWaiting /\
  Worker.hstate
    (snd (Worker.worker_loop Worker.failing_handler 4 1 true
            Worker.example_pool_nil))
    = [Some Events.event1; Some Events.event2] /\
  length
    (Worker.logged
       (snd (Worker.worker_loop Worker.failing_handler 4 1 true
               Worker.example_pool_nil))) = 2%nat /\
  Worker.process_remaining Worker.failing_handler
    [Some Events.event1; None; Some Events.event2] Worker.example_pool_nil
    = Panic "nil pointer dereference" /\
  Worker.ShutdownWithDrain Worker.failing_handler Worker.example_pool_nil
    = Panic "nil pointer dereference".
Proof. vm_compute. repeat split. Qed.

(** ** Configuration *)

Section ConfigClaims.
Import Config.

(** A configuration with a positive worker count and a positive queue
    size, and no region, does not pass [Validate]. *)
Lemma Validate_rejects_empty_region :
  0 < Count (Worker (config_with 4 100 EmptyString)) /\
  0 < EventQueueSize (Worker (config_with 4 100 EmptyString)) /\
  Validate (config_with 4 100 EmptyString) = Some "AWS region is required"%string.
Proof. repeat split. Qed.

(** C8, as the code has it. [Validate] reports an error whenever the
    worker count is not positive or the queue size is not positive; it
    also requires a region; a configuration passes exactly when its
    worker count and queue size are positive and its region is not
    empty. *)
Theorem Validate_spec (c : Config) :
  (Count (Worker c) <= 0 ->
   Validate c = Some "worker count must be positive"%string) /\
  (0 < Count (Worker c) -> EventQueueSize (Worker c) <= 0 ->
   Validate c = Some "event queue size must be positive"%string) /\
  (0 < Count (Worker c) -> 0 < EventQueueSize (Worker c) ->
   Region (DynamoDB c) = EmptyString ->
   Validate c = Some "AWS region is required"%string) /\
  (Validate c = None <->
   0 < Count (Worker c) /\ 0 < EventQueueSize (Worker c) /\
   Region (DynamoDB c) ≠ EmptyString).
Proof.
  unfold Validate.
  destruct (Z.leb_spec (Count (Worker c)) 0) as [Hc|Hc];
    [repeat split; try (intros; lia); try discriminate; tauto|].
  destruct (Z.leb_spec (EventQueueSize (Worker c)) 0) as [Hq|Hq];
    [repeat split; try (intros; lia); try discriminate; tauto|].
  destruct (String.eqb_spec (Region (DynamoDB c)) EmptyString) as [Hr|Hr].
  - repeat split; try (intros; lia); try discriminate; tauto.
  - repeat split; try (intros; lia); try (intros; congruence); tauto.
Qed.

(** What [Load] reads through [getEnv] with a default that is not empty
    is not empty: the region of a loaded configuration is set. *)
Lemma getEnv_nonempty (env : gmap string string) (key defaultValue : string) :
  defaultValue ≠ EmptyString -> getEnv env key defaultValue ≠ EmptyString.
Proof.
  intros Hd. unfold getEnv.
  destruct (String.eqb_spec (default EmptyString (env !! key)) EmptyString);
    simpl; assumption.
Qed.

End ConfigClaims.

(** ** The milestone tracker *)

Section TrackerFacts.
Import Milestones Tracker.

Lemma fresh_array (h : Heap) : arrays h !! fresh (dom (arrays h)) = None.
Proof. apply not_elem_of_dom, is_fresh. Qed.

Lemma fresh_obj (h : Heap) : objs h !! fresh (dom (objs h)) = None.
Proof. apply not_elem_of_dom, is_fresh. Qed.

(** Writing a backing array that a slice does not use leaves the
    elements of the slice as they were. *)
Lemma elems_other_array (h : Heap) (s : Slice) (a : loc) (l : list loc)
    (objs' : gmap loc Milestone) :
  s ≠ Some a ->
  elems {| objs := objs'; arrays := <[a := l]> (arrays h) |} s = elems h s.
Proof.
  intros Hne. destruct s as [a0|]; simpl; [|reflexivity].
  rewrite lookup_insert_ne by congruence. reflexivity.
Qed.

Lemma allocated_not_fresh (h : Heap) (s : Slice) :
  allocated h s -> s ≠ Some (fresh (dom (arrays h))).
Proof.
  intros Ha ->. simpl in Ha. rewrite fresh_array in Ha.
  destruct Ha as [? ?]; discriminate.
Qed.

(** What the tracker owns depends on its own arrays and on the objects
    only. *)
Lemma owned_other_array (t : Tracker) (h : Heap) (a : loc) (l : list loc)
    (sessionID : string) :
  (forall s, milestones t !! sessionID = Some s -> s ≠ Some a) ->
  owned t {| objs := objs h; arrays := <[a := l]> (arrays h) |} sessionID
  = owned t h sessionID.
Proof.
  intros Hne. unfold owned.
  destruct (milestones t !! sessionID) as [s|] eqn:Hs; [|reflexivity].
  rewrite elems_other_array by (apply Hne; reflexivity). reflexivity.
Qed.

Lemma alloc_array_spec (h : Heap) (l : list loc) :
  alloc_array h l =
  (fresh (dom (arrays h)),
   {| objs := objs h;
      arrays := <[fresh (dom (arrays h)) := l]> (arrays h) |}).
Proof. reflexivity. Qed.

Lemma elems_alloc_array (h : Heap) (l : list loc) :
  elems (alloc_array h l).2 (Some (alloc_array h l).1) = l.
Proof. simpl. rewrite lookup_insert_eq. reflexivity. Qed.

(** A slot write on a slice of a new array: what the tracker owns is
    what it owned before the array was made. *)
Lemma store_new_array_owned (t : Tracker) (h h2 : Heap) (l : list loc)
    (i : nat) (p : loc) (sessionID : string) :
  tracker_wf t h ->
  slice_store (alloc_array h l).2 (Some (alloc_array h l).1) i p = Ok h2 ->
  owned t h2 sessionID = owned t h sessionID.
Proof.
  intros Hwf. unfold slice_store.
  destruct (decide _); [|discriminate]. intros [= <-].
  simpl. rewrite insert_insert_eq.
  apply (owned_other_array t h). intros s Hs.
  apply allocated_not_fresh, (Hwf _ _ Hs).
Qed.

Lemma alloc_array_owned (t : Tracker) (h : Heap) (l : list loc)
    (sessionID : string) :
  tracker_wf t h ->
  owned t (alloc_array h l).2 sessionID = owned t h sessionID.
Proof.
  intros Hwf. simpl. apply (owned_other_array t h). intros s Hs.
  apply allocated_not_fresh, (Hwf _ _ Hs).
Qed.

Lemma new_milestones_spec (thresholds : list Z) (h : Heap)
    (sessionID : string) :
  arrays (new_milestones h sessionID thresholds).2 = arrays h /\
  (forall p, p ∈ (new_milestones h sessionID thresholds).1 ->
     is_Some (objs (new_milestones h sessionID thresholds).2 !! p)) /\
  (forall p, is_Some (objs h !! p) ->
     is_Some (objs (new_milestones h sessionID thresholds).2 !! p)).
Proof.
  revert h. induction thresholds as [|th rest IH]; intros h; simpl.
  - split; [reflexivity|]. split; [|auto].
    intros p Hp. apply elem_of_nil in Hp. contradiction.
  - specialize (IH (alloc_obj h
      (NewMilestone sessionID MilestoneTypeTotalReactions th)).2).
    simpl in IH.
    destruct (new_milestones _ sessionID rest) as [ps h2].
    simpl in *. destruct IH as (IH1 & IH2 & IH3).
    split; [exact IH1|]. split.
    + intros p Hp. apply elem_of_cons in Hp as [->|Hp]; [|auto].
      apply IH3. rewrite lookup_insert_eq. eauto.
    + intros p Hp. apply IH3. rewrite lookup_insert_is_Some.
      destruct (decide (fresh (dom (objs h)) = p)); auto.
Qed.

Lemma append_all_spec (h : Heap) (l : list loc) :
  objs (append_all h l).2 = objs h /\
  elems (append_all h l).2 (append_all h l).1 = l /\
  allocated (append_all h l).2 (append_all h l).1 /\
  forall s, allocated h s ->
    allocated (append_all h l).2 s /\ elems (append_all h l).2 s = elems h s.
Proof.
  destruct l as [|x l].
  - simpl. repeat split; auto.
  - unfold append_all. rewrite alloc_array_spec. cbn [fst snd objs].
    split; [reflexivity|].
    split; [apply (elems_alloc_array h (x :: l))|].
    split; [simpl; rewrite lookup_insert_eq; eauto|].
    intros s Hs. split.
    + destruct s as [a|]; simpl in *; [|exact I].
      rewrite lookup_insert_is_Some.
      destruct (decide (fresh (dom (arrays h)) = a)); auto.
    + apply elems_other_array, allocated_not_fresh, Hs.
Qed.

Lemma NewTracker_wf (notify : bool) (h : Heap) :
  tracker_wf (NewTracker notify) h.
Proof. intros sid s. simpl. rewrite lookup_empty. discriminate. Qed.

(** [InitializeSession] keeps the tracker's slices and their milestones
    in the heap. *)
Lemma InitializeSession_wf (t : Tracker) (h : Heap) (sessionID : string)
    (thresholds : list Z) :
  tracker_wf t h ->
  tracker_wf (InitializeSession t h sessionID thresholds).1.1
             (InitializeSession t h sessionID thresholds).1.2.
Proof.
  intros Hwf. unfold InitializeSession.
  pose proof (new_milestones_spec thresholds h sessionID)
    as (Harr & Hnew & Hold).
  destruct (new_milestones h sessionID thresholds) as [ps h1].
  simpl in Harr, Hnew, Hold.
  pose proof (append_all_spec h1 ps) as (Hobjs & Helems & Ha & Hother).
  destruct (append_all h1 ps) as [s h2]. simpl in *.
  intros sid s'. simpl. rewrite lookup_insert_Some.
  intros [[_ <-]|[_ Hs]].
  - split; [exact Ha|]. intros p Hp. rewrite Hobjs. apply Hnew.
    rewrite <- Helems. exact Hp.
  - destruct (Hwf _ _ Hs) as [Hal Hps].
    assert (Hal1 : allocated h1 s').
    { destruct s' as [a|]; simpl in *; [rewrite Harr; exact Hal|exact I]. }
    destruct (Hother s' Hal1) as [Hal2 Hel].
    split; [exact Hal2|]. intros p Hp. rewrite Hobjs. apply Hold, Hps.
    rewrite Hel in Hp.
    destruct s' as [a|]; simpl in *; [rewrite Harr in Hp|]; exact Hp.
Qed.

(** On pointers to milestones of the heap, the loop of
    [GetAchievedMilestones] returns the achieved ones, in order. *)
Lemma achieved_loop_spec (h : Heap) (ps achieved : list loc) :
  (forall p, p ∈ ps -> is_Some (objs h !! p)) ->
  achieved_loop h ps achieved =
  Ok (achieved ++ filter (fun p => is_achieved h p) ps).
Proof.
  revert achieved. induction ps as [|p rest IH]; intros achieved Hps; simpl.
  - rewrite app_nil_r. reflexivity.
  - destruct (Hps p ltac:(left)) as [m Hm]. rewrite Hm.
    rewrite IH by (intros q Hq; apply Hps; right; exact Hq).
    assert (Hp : is_achieved h p = Achieved m)
      by (unfold is_achieved; rewrite Hm; reflexivity).
    rewrite filter_cons. destruct (Achieved m); simpl.
    + rewrite decide_True by (rewrite Hp; exact I).
      rewrite <- app_assoc. reflexivity.
    + rewrite decide_False by (rewrite Hp; intros []). reflexivity.
Qed.

End TrackerFacts.

Section TrackerClaims.
Import Milestones Tracker.

(** A caller that writes through an element of the slice returned by
    [GetSessionMilestones] changes the milestone the tracker owns; one
    that writes through an element of the slice returned by
    [GetAchievedMilestones] makes an achieved milestone of the tracker
    not achieved again. *)
Lemma element_write_changes_tracker :
  match elem_store
          (GetSessionMilestones example_tracker example_heap "s1").2
          (GetSessionMilestones example_tracker example_heap "s1").1
          1 set_achieved with
  | Ok h' =>
      owned example_tracker h' "s1" ≠
      owned example_tracker example_heap "s1"
  | _ => False
  end /\
  match GetAchievedMilestones example_tracker example_checked_heap "s1" with
  | Ok (r, h1) =>
      match elem_store h1 r 0 clear_achieved with
      | Ok h' =>
          owned example_tracker h' "s1" ≠
          owned example_tracker example_checked_heap "s1"
      | _ => False
      end
  | _ => False
  end.
Proof. vm_compute. split; discriminate. Qed.

Lemma slice_store_nil (h : Heap) (i : nat) (p : loc) :
  slice_store h None i p = Panic "index out of range".
Proof. unfold slice_store. case_decide; reflexivity. Qed.

Lemma append_all_owned (t : Tracker) (h : Heap) (l : list loc)
    (sessionID : string) :
  tracker_wf t h ->
  owned t (append_all h l).2 sessionID = owned t h sessionID /\
  forall i p h2,
    slice_store (append_all h l).2 (append_all h l).1 i p = Ok h2 ->
    owned t h2 sessionID = owned t h sessionID.
Proof.
  intros Hwf. destruct l as [|x l].
  - simpl. split; [reflexivity|]. intros i p h2.
    rewrite slice_store_nil. discriminate.
  - unfold append_all. rewrite alloc_array_spec. cbn [fst snd].
    split; [apply (alloc_array_owned t h (x :: l)), Hwf|].
    intros i p h2. apply (store_new_array_owned t h h2 (x :: l)), Hwf.
Qed.

(** C7, as the code has it. [GetSessionMilestones] and
    [GetAchievedMilestones] return a slice of their own that holds the
    tracker's milestone pointers, all of them or the achieved ones:
    making it changes nothing the tracker owns, and no write of a caller
    to a slot of the returned slice does either. *)
Theorem returned_slices_are_copies (t : Tracker) (h : Heap)
    (sessionID : string) :
  tracker_wf t h ->
  (let r := (GetSessionMilestones t h sessionID).1 in
   let h1 := (GetSessionMilestones t h sessionID).2 in
   elems h1 r = default [] (elems h <$> milestones t !! sessionID) /\
   forall sid', owned t h1 sid' = owned t h sid' /\
     forall i p h2, slice_store h1 r i p = Ok h2 ->
       owned t h2 sid' = owned t h sid') /\
  (exists r h1,
     GetAchievedMilestones t h sessionID = Ok (r, h1) /\
     elems h1 r =
       default []
         ((fun ms => filter (fun p => is_achieved h p) (elems h ms))
            <$> milestones t !! sessionID) /\
     forall sid', owned t h1 sid' = owned t h sid' /\
       forall i p h2, slice_store h1 r i p = Ok h2 ->
         owned t h2 sid' = owned t h sid').
Proof.
  intros Hwf. split.
  - unfold GetSessionMilestones.
    destruct (milestones t !! sessionID) as [ms|] eqn:Hms.
    + rewrite alloc_array_spec.
      cbn [fst snd fmap option_fmap option_map default].
      split; [apply (elems_alloc_array h (elems h ms))|].
      intros sid'.
      split; [apply (alloc_array_owned t h (elems h ms)), Hwf|].
      intros i p h2.
      apply (store_new_array_owned t h h2 (elems h ms)), Hwf.
    + simpl. split; [reflexivity|]. intros sid'. split; [reflexivity|].
      intros i p h2. rewrite slice_store_nil. discriminate.
  - unfold GetAchievedMilestones.
    destruct (milestones t !! sessionID) as [ms|] eqn:Hms.
    + rewrite (achieved_loop_spec h (elems h ms) [])
        by (apply (Hwf _ _ Hms)).
      cbn [fmap option_fmap option_map default mbind res_bind mret res_ret
           app].
      set (l := filter (fun p => is_achieved h p) (elems h ms)).
      exists (append_all h l).1, (append_all h l).2.
      split; [destruct (append_all h l); reflexivity|].
      split; [apply (append_all_spec h l)|].
      intros sid'. apply (append_all_owned t h l sid' Hwf).
    + exists None, h. split; [reflexivity|]. split; [reflexivity|].
      intros sid'. split; [reflexivity|].
      intros i p h2. rewrite slice_store_nil. discriminate.
Qed.

(** The first check of a session initialised with one threshold that
    the reaction total has reached achieves its milestone, hands one
    achievement to the callback and logs it. *)
Lemma first_check_achieves (t : Tracker) (h : Heap) (sessionID : string)
    (threshold : Z) (stats : Aggregation.SessionStats)
    (elapsedMinutes now : Z) :
  threshold <= Aggregation.GetTotalReactions stats ->
  let p := fresh (dom (objs h)) in
  let t1 := (InitializeSession t h sessionID [threshold]).1.1 in
  let h1 := (InitializeSession t h sessionID [threshold]).1.2 in
  let m1 := (UpdateProgress
               (NewMilestone sessionID MilestoneTypeTotalReactions threshold)
               (Aggregation.GetTotalReactions stats) now).1 in
  objs h1 !! p =
    Some (NewMilestone sessionID MilestoneTypeTotalReactions threshold) /\
  exists h2,
    CheckMilestones t1 h1 sessionID stats elapsedMinutes now =
      Ok (h2,
          if notifyFunc t
          then [{| Milestone_ := p; ASessionID := sessionID;
                   AAchievedAt := now;
                   CurrentValue := Aggregation.GetTotalReactions stats |}]
          else [],
          [achieved_line sessionID m1
             (Aggregation.GetTotalReactions stats)]) /\
    objs h2 !! p = Some m1 /\
    (Achieved <$> objs h2 !! p) = Some true.
Proof.
  intros Hle p t1 h1 m1. subst t1 h1 m1. unfold InitializeSession. simpl.
  fold p. rewrite lookup_insert_eq. split; [reflexivity|].
  unfold CheckMilestones. simpl. rewrite lookup_insert_eq. simpl.
  rewrite lookup_insert_eq. simpl. rewrite lookup_insert_eq. simpl.
  unfold current_value; simpl.
  assert (Hb : (threshold <=? Aggregation.GetTotalReactions stats) = true)
    by (apply Z.leb_le; exact Hle).
  unfold UpdateProgress; simpl. rewrite Hb. simpl.
  eexists. split; [reflexivity|]. simpl. rewrite lookup_insert_eq.
  split; reflexivity.
Qed.

(** C10. A milestone whose threshold is zero or negative is achieved by
    its first [UpdateProgress] call with any non-negative value: the
    call returns true and marks it achieved; so [UpdateProgress(0)] on a
    new milestone of threshold 0 returns true; and the first
    [CheckMilestones] of a session initialised with such a threshold, on
    statistics of that reaction total, achieves the milestone and
    notifies. *)
Theorem nonpositive_threshold_first_update (sessionID : string)
    (milestoneType : MilestoneType) (threshold v now : Z) :
  threshold <= 0 -> 0 <= v ->
  let m := NewMilestone sessionID milestoneType threshold in
  (UpdateProgress m v now).2 = true /\
  Achieved (UpdateProgress m v now).1 = true /\
  AchievedAt (UpdateProgress m v now).1 = Some now /\
  (UpdateProgress (NewMilestone sessionID milestoneType 0) 0 now).2 = true /\
  forall t h stats elapsedMinutes,
    Aggregation.GetTotalReactions stats = v ->
    let p := fresh (dom (objs h)) in
    let t1 := (InitializeSession t h sessionID [threshold]).1.1 in
    let h1 := (InitializeSession t h sessionID [threshold]).1.2 in
    exists h2 lines,
      CheckMilestones t1 h1 sessionID stats elapsedMinutes now =
        Ok (h2,
            if notifyFunc t
            then [{| Milestone_ := p; ASessionID := sessionID;
                     AAchievedAt := now; CurrentValue := v |}]
            else [],
            lines) /\
      (Achieved <$> objs h2 !! p) = Some true.
Proof.
  intros Ht Hv m.
  assert (Hr : (UpdateProgress m v now).2 = true).
  { rewrite UpdateProgress_result. subst m; simpl. apply Z.leb_le. lia. }
  split; [exact Hr|]. split; [|split; [|split]].
  - rewrite UpdateProgress_Achieved. subst m; simpl. apply Z.leb_le. lia.
  - rewrite UpdateProgress_AchievedAt, Hr. reflexivity.
  - reflexivity.
  - intros t h stats el <- p t1 h1.
    destruct (first_check_achieves t h sessionID threshold stats el now
                ltac:(lia)) as (_ & h2 & H1 & _ & H3).
    exists h2. eexists. split; [exact H1|exact H3].
Qed.

Lemma nonpositive_threshold_first_update_witness :
  -3 <= 0 /\ 0 <= 7 /\
  (UpdateProgress (NewMilestone "s1" MilestoneTypeTotalReactions (-3)) 7 42).2
    = true /\
  Achieved
    (UpdateProgress (NewMilestone "s1" MilestoneTypeTotalReactions (-3)) 7 42).1
    = true.
Proof.
  split; [lia|]. split; [lia|].
  pose proof (nonpositive_threshold_first_update
                "s1" MilestoneTypeTotalReactions (-3) 7 42
                ltac:(lia) ltac:(lia)) as H.
  split; [apply H|apply H].
Defined.

Lemma returned_slices_are_copies_witness :
  tracker_wf example_tracker example_heap /\
  elems (GetSessionMilestones example_tracker example_heap "s1").2
        (GetSessionMilestones example_tracker example_heap "s1").1
    = default [] (elems example_heap <$> milestones example_tracker !! "s1")
  /\
  forall sid',
    owned example_tracker
      (GetSessionMilestones example_tracker example_heap "s1").2 sid'
    = owned example_tracker example_heap sid' /\
    forall i p h2,
      slice_store (GetSessionMilestones example_tracker example_heap "s1").2
        (GetSessionMilestones example_tracker example_heap "s1").1 i p
        = Ok h2 ->
      owned example_tracker h2 sid' = owned example_tracker example_heap sid'.
Proof.
  split; [apply InitializeSession_wf, NewTracker_wf|].
  apply (proj1 (returned_slices_are_copies example_tracker example_heap "s1"
                  (InitializeSession_wf _ _ _ _ (NewTracker_wf _ _)))).
Defined.

End TrackerClaims.

(** ** binary64 arithmetic *)

Section FloatFacts.
Import Float64.

Lemma digits2_pos_size (p : positive) : digits2_pos p = Pos.size p.
Proof. induction p; simpl; congruence. Qed.

Lemma digits2_bounds (p : positive) :
  2 ^ (Z.pos (digits2_pos p) - 1) <= Z.pos p < 2 ^ Z.pos (digits2_pos p).
Proof.
  induction p as [p IH|p IH|]; simpl digits2_pos.
  - rewrite Pos2Z.inj_succ.
    replace (Z.succ (Z.pos (digits2_pos p)) - 1)
      with (Z.succ (Z.pos (digits2_pos p) - 1)) by lia.
    rewrite !Z.pow_succ_r by lia. lia.
  - rewrite Pos2Z.inj_succ.
    replace (Z.succ (Z.pos (digits2_pos p)) - 1)
      with (Z.succ (Z.pos (digits2_pos p) - 1)) by lia.
    rewrite !Z.pow_succ_r by lia. lia.
  - simpl. lia.
Qed.

Lemma Zdigits2_pos (m : Z) : 0 < m -> 0 < Zdigits2 m.
Proof. destruct m; simpl; lia. Qed.

Lemma Zdigits2_lower (m : Z) : 0 < m -> 2 ^ (Zdigits2 m - 1) <= m.
Proof.
  destruct m as [|p|p]; try lia. intros _. apply digits2_bounds.
Qed.

(** A positive number below [2 ^ k] has at most [k] digits. *)
Lemma Zdigits2_upper (m k : Z) : 0 < m < 2 ^ k -> Zdigits2 m <= k.
Proof.
  intros [Hm Hk]. pose proof (Zdigits2_lower m Hm) as Hl.
  pose proof (Zdigits2_pos m Hm) as Hd.
  destruct (Z.le_gt_cases (Zdigits2 m) k) as [H|H]; [exact H|exfalso].
  assert (0 <= k).
  { destruct (Z.le_gt_cases 0 k) as [?|Hneg]; [assumption|].
    rewrite (Z.pow_neg_r 2 k Hneg) in Hk. lia. }
  assert (2 ^ k <= 2 ^ (Zdigits2 m - 1)) by (apply Z.pow_le_mono_r; lia).
  lia.
Qed.

Lemma shr_1_m (mrs : shr_record) :
  0 <= shr_m mrs -> shr_m (shr_1 mrs) = shr_m mrs / 2.
Proof.
  destruct mrs as [m r s]; simpl. intros Hm.
  destruct m as [|[p|p|]|p]; simpl; try lia.
  - reflexivity.
  - apply (Z.div_unique (Z.pos p~1) 2 (Z.pos p) 1); lia.
  - apply (Z.div_unique (Z.pos p~0) 2 (Z.pos p) 0); lia.
  - reflexivity.
Qed.

Lemma iter_shr_1_m (p : positive) (mrs : shr_record) :
  0 <= shr_m mrs ->
  shr_m (SpecFloat.iter_pos shr_1 p mrs) = shr_m mrs / 2 ^ Z.pos p.
Proof.
  revert mrs. induction p as [p IH|p IH|]; intros mrs Hm; simpl SpecFloat.iter_pos.
  - assert (H1 : 0 <= shr_m (shr_1 mrs))
      by (rewrite shr_1_m by lia; apply Z.div_pos; lia).
    assert (H2 : 0 <= shr_m (SpecFloat.iter_pos shr_1 p (shr_1 mrs)))
      by (rewrite IH by lia; apply Z.div_pos; lia).
    rewrite IH, IH, shr_1_m by lia.
    rewrite !Z.div_div by lia. f_equal.
    rewrite Pos2Z.inj_xI, Z.pow_add_r, Z.pow_mul_r by lia.
    change (2 ^ 2) with 4. change (2 ^ 1) with 2.
    replace (4 ^ Z.pos p) with (2 ^ Z.pos p * 2 ^ Z.pos p).
    + lia.
    + rewrite <- Z.pow_mul_l. reflexivity.
  - assert (H2 : 0 <= shr_m (SpecFloat.iter_pos shr_1 p mrs))
      by (rewrite IH by lia; apply Z.div_pos; lia).
    rewrite IH, IH by lia.
    rewrite !Z.div_div by lia. f_equal.
    rewrite <- Z.pow_add_r by lia. f_equal. lia.
  - rewrite shr_1_m by lia. reflexivity.
Qed.

Lemma shr_spec (mrs : shr_record) (e n : Z) :
  0 <= shr_m mrs ->
  shr_m (shr mrs e n).1 = shr_m mrs / 2 ^ Z.max n 0 /\
  (shr mrs e n).2 = e + Z.max n 0.
Proof.
  intros Hm. destruct n as [|p|p]; simpl.
  - rewrite Z.div_1_r. lia.
  - rewrite iter_shr_1_m by exact Hm. rewrite Z.max_l by lia. auto.
  - rewrite Z.div_1_r. lia.
Qed.

Lemma shr_record_of_loc_m (m : Z) (l : location) :
  shr_m (shr_record_of_loc m l) = m.
Proof. destruct l as [|[]]; reflexivity. Qed.

Lemma shr_fexp_spec (prec emax m e : Z) (l : location) :
  0 <= m ->
  let n := Z.max (fexp prec emax (Zdigits2 m + e) - e) 0 in
  shr_m (shr_fexp prec emax m e l).1 = m / 2 ^ n /\
  (shr_fexp prec emax m e l).2 = e + n.
Proof.
  intros Hm n. unfold shr_fexp.
  pose proof (shr_spec (shr_record_of_loc m l) e
                (fexp prec emax (Zdigits2 m + e) - e)) as H.
  rewrite shr_record_of_loc_m in H. apply H, Hm.
Qed.

Lemma round_nearest_even_bounds (m : Z) (l : location) :
  m <= round_nearest_even m l <= m + 1.
Proof.
  destruct l as [|[]]; simpl; try lia. destruct (Z.even m); lia.
Qed.

(** Rounding a non-negative mantissa gives a float of the sign asked
    for, never NaN. *)
Lemma binary_round_aux_signed (prec emax : Z) (sx : bool) (mx ex : Z)
    (lx : location) :
  0 <= mx -> signed sx (binary_round_aux prec emax sx mx ex lx).
Proof.
  intros Hm. unfold binary_round_aux.
  pose proof (shr_fexp_spec prec emax mx ex lx Hm) as [H1 _].
  destruct (shr_fexp prec emax mx ex lx) as [mrs1 e1]. simpl in H1.
  assert (Hm1 : 0 <= shr_m mrs1)
    by (rewrite H1; apply Z.div_pos; lia).
  pose proof (round_nearest_even_bounds (shr_m mrs1)
                (loc_of_shr_record mrs1)) as Hr.
  assert (Hm2 : 0 <= round_nearest_even (shr_m mrs1)
                       (loc_of_shr_record mrs1)) by lia.
  pose proof (shr_fexp_spec prec emax _ e1 loc_Exact Hm2) as [H2 _].
  destruct (shr_fexp prec emax _ e1 loc_Exact) as [mrs2 e2]. simpl in H2.
  assert (Hm3 : 0 <= shr_m mrs2)
    by (rewrite H2; apply Z.div_pos; lia).
  destruct (shr_m mrs2) as [|m|m]; simpl; [reflexivity| |lia].
  destruct (e2 <=? emax - prec); reflexivity.
Qed.

Lemma div_pow2_pos (m n : Z) :
  0 < m -> 0 <= n < Zdigits2 m -> 0 < m / 2 ^ n <= m.
Proof.
  intros Hm Hn. pose proof (Zdigits2_lower m Hm) as Hl.
  assert (Hp : 0 < 2 ^ n) by (apply Z.pow_pos_nonneg; lia).
  assert (2 ^ n <= 2 ^ (Zdigits2 m - 1)) by (apply Z.pow_le_mono_r; lia).
  split.
  - apply Z.div_str_pos. lia.
  - apply Z.div_le_upper_bound; [lia|]. nia.
Qed.

(** Rounding a positive mantissa of moderate size and exponent gives a
    finite, non-zero float. *)
Lemma binary_round_aux_finite (sx : bool) (mx ex : Z) (lx : location) :
  0 < mx < 2 ^ 128 -> -60 <= ex <= 60 ->
  finite sx (binary_round_aux prec emax sx mx ex lx).
Proof.
  intros [Hm Hlt] He. unfold binary_round_aux.
  pose proof (shr_fexp_spec prec emax mx ex lx (Z.lt_le_incl _ _ Hm))
    as [H1 E1].
  destruct (shr_fexp prec emax mx ex lx) as [mrs1 e1].
  cbv zeta in H1, E1. simpl fst in H1. simpl snd in E1.
  pose proof (Zdigits2_pos mx Hm) as Hd.
  pose proof (Zdigits2_upper mx 128 (conj Hm Hlt)) as Hd'.
  unfold fexp, SpecFloat.emin, prec, emax in H1, E1.
  pose proof (div_pow2_pos mx
    (Z.max (Z.max (Zdigits2 mx + ex - 53) (3 - 1024 - 53) - ex) 0) Hm) as Hq.
  rewrite <- H1 in Hq. specialize (Hq ltac:(lia)).
  pose proof (round_nearest_even_bounds (shr_m mrs1)
                (loc_of_shr_record mrs1)) as Hr.
  set (m2 := round_nearest_even (shr_m mrs1) (loc_of_shr_record mrs1)) in *.
  assert (Hm2 : 0 < m2) by lia.
  assert (Hlt2 : m2 < 2 ^ 129).
  { change (2 ^ 129) with (2 ^ 128 * 2). lia. }
  pose proof (shr_fexp_spec prec emax m2 e1 loc_Exact (Z.lt_le_incl _ _ Hm2))
    as [H2 E2].
  destruct (shr_fexp prec emax m2 e1 loc_Exact) as [mrs2 e2].
  cbv zeta in H2, E2. simpl fst in H2. simpl snd in E2.
  pose proof (Zdigits2_pos m2 Hm2) as Hd2.
  pose proof (Zdigits2_upper m2 129 (conj Hm2 Hlt2)) as Hd2'.
  unfold fexp, SpecFloat.emin, prec, emax in H2, E2.
  pose proof (div_pow2_pos m2
    (Z.max (Z.max (Zdigits2 m2 + e1 - 53) (3 - 1024 - 53) - e1) 0) Hm2)
    as Hq2.
  rewrite <- H2 in Hq2. specialize (Hq2 ltac:(lia)).
  destruct (shr_m mrs2) as [|m|m]; try lia.
  unfold prec, emax.
  destruct (Z.leb_spec e2 (1024 - 53)) as [_|Hbad]; [reflexivity|lia].
Qed.

Lemma pos_iter_xO (m k : positive) :
  Z.pos (Pos.iter xO m k) = Z.pos m * 2 ^ Z.pos k.
Proof.
  induction k as [|k IH] using Pos.peano_ind.
  - simpl. lia.
  - rewrite Pos.iter_succ, Pos2Z.inj_xO, IH, Pos2Z.inj_succ,
      Z.pow_succ_r by lia. lia.
Qed.

(** The conversion of a non-zero integer of at most 64 bits is a finite,
    non-zero float of the same sign. *)
Lemma binary_round_finite (sx : bool) (mx : positive) :
  Z.pos mx <= 2 ^ 63 -> finite sx (binary_round prec emax sx mx 0).
Proof.
  intros Hle. unfold binary_round.
  pose proof (digits2_bounds mx) as [Hlo Hhi].
  assert (Hd : Z.pos (digits2_pos mx) <= 64).
  { apply (Zdigits2_upper (Z.pos mx) 64).
    change (2 ^ 64) with (2 ^ 63 * 2). lia. }
  unfold shl_align, fexp, SpecFloat.emin, prec, emax.
  rewrite Z.max_l by lia.
  replace (Z.pos (digits2_pos mx) + 0 - 53 - 0)
    with (Z.pos (digits2_pos mx) - 53) by lia.
  destruct (Z.pos (digits2_pos mx) - 53) as [|d|d] eqn:Hsub.
  - apply binary_round_aux_finite; [|lia].
    change (2 ^ 128) with (2 ^ 63 * 2 ^ 65). lia.
  - apply binary_round_aux_finite; [|lia].
    change (2 ^ 128) with (2 ^ 63 * 2 ^ 65). lia.
  - apply binary_round_aux_finite; [|lia].
    rewrite pos_iter_xO. split; [lia|].
    assert (Z.pos mx * 2 ^ Z.pos d < 2 ^ 53).
    { replace 53 with (Z.pos (digits2_pos mx) + Z.pos d) by lia.
      rewrite Z.pow_add_r by lia.
      apply Z.mul_lt_mono_pos_r; [apply Z.pow_pos_nonneg; lia|exact Hhi]. }
    change (2 ^ 128) with (2 ^ 53 * 2 ^ 75). lia.
Qed.

Lemma of_int_finite (z : Z) :
  z ≠ 0 -> - 2 ^ 63 <= z <= 2 ^ 63 -> finite (z <? 0) (of_int z).
Proof.
  intros Hz Hr. unfold of_int, binary_normalize.
  destruct z as [|p|p]; [congruence| |].
  - apply binary_round_finite. lia.
  - apply binary_round_finite. lia.
Qed.

Lemma of_int_signed (z : Z) :
  - 2 ^ 63 <= z <= 2 ^ 63 -> signed (z <? 0) (of_int z).
Proof.
  intros Hr. destruct (Z.eq_dec z 0) as [->|Hz]; [reflexivity|].
  pose proof (of_int_finite z Hz Hr) as H.
  destruct (of_int z); simpl in *; tauto.
Qed.

Lemma div_eucl_nonneg (a : Z) (b : positive) :
  0 <= a -> 0 <= (Z.div_eucl a (Z.pos b)).1.
Proof.
  intros Ha. pose proof (Z_div_mod a (Z.pos b) eq_refl) as H.
  destruct (Z.div_eucl a (Z.pos b)) as [q r]. simpl. nia.
Qed.

(** A float that is not NaN, divided by a finite non-zero float, is not
    NaN, and its sign is the product of the signs. *)
Lemma div_signed (x y : float64) (sx sy : bool) :
  signed sx x -> finite sy y -> signed (xorb sx sy) (div x y).
Proof.
  intros Hx Hy.
  destruct y as [| | |sy' my ey]; simpl in Hy; try tauto. subst sy'.
  destruct x as [sx'|sx'| |sx' mx ex]; simpl in Hx; try tauto; subst sx';
    try reflexivity.
  unfold div, SFdiv.
  destruct (SFdiv_core_binary prec emax (Z.pos mx) ex (Z.pos my) ey)
    as [[mz ez] lz] eqn:Hcore.
  apply binary_round_aux_signed.
  unfold SFdiv_core_binary in Hcore.
  match type of Hcore with
  | (let '(q, r) := Z.div_eucl ?a _ in _) = _ =>
      pose proof (div_eucl_nonneg a my) as Hq;
      destruct (Z.div_eucl a (Z.pos my)) as [q r]
  end.
  injection Hcore as <- _ _. simpl in Hq. apply Hq.
  destruct (ex - ey - _) as [|s|s]; try lia.
  apply Z.shiftl_nonneg. lia.
Qed.

Lemma mul_hundred_signed (x : float64) (s : bool) :
  signed s x -> signed s (mul x hundred).
Proof.
  intros Hx. destruct x as [s'|s'| |s' m e]; simpl in Hx; try tauto; subst s'.
  - destruct s; reflexivity.
  - destruct s; reflexivity.
  - unfold mul, hundred, SFmul.
    replace (xorb s false) with s by (destruct s; reflexivity).
    apply binary_round_aux_signed. lia.
Qed.

Lemma leb_zero_signed (x : float64) :
  signed false x -> leb zero x = true.
Proof.
  destruct x as [s|s| |s m e]; simpl; try tauto; intros ->; reflexivity.
Qed.

Lemma SFcompare_finite_antisym (m1 m2 : positive) (e1 e2 : Z) :
  SFcompare (S754_finite false m1 e1) (S754_finite false m2 e2) =
  option_map CompOpp
    (SFcompare (S754_finite false m2 e2) (S754_finite false m1 e1)).
Proof.
  unfold SFcompare, option_map. f_equal.
  rewrite (Z.compare_antisym e1 e2).
  destruct (e1 ?= e2); cbn [CompOpp]; try reflexivity.
  pose proof (Pos.compare_cont_antisym m1 m2 Eq) as H.
  cbn [CompOpp] in H. rewrite <- H.
  destruct (Pos.compare_cont Eq m1 m2); reflexivity.
Qed.

(** A float that is not NaN and not above a positive finite bound is at
    most the bound. *)
Lemma leb_of_not_ltb (x : float64) (s : bool) (m : positive) (e : Z) :
  signed s x ->
  ltb (S754_finite false m e) x = false ->
  leb x (S754_finite false m e) = true.
Proof.
  intros Hx. unfold ltb, leb, SFltb, SFleb.
  destruct x as [s'|s'| |s' mx ex]; cbn [signed] in Hx;
    [subst s'..|contradiction|subst s'].
  - intros _. reflexivity.
  - destruct s; [intros _; reflexivity|]. cbn. discriminate.
  - destruct s; [intros _; reflexivity|].
    rewrite (SFcompare_finite_antisym m mx e ex).
    unfold SFcompare. cbn [option_map].
    destruct (match ex ?= e with
              | Eq => Pos.compare_cont Eq mx m
              | Lt => Lt
              | Gt => Gt
              end); cbn; try reflexivity; discriminate.
Qed.

Lemma leb_hundred (x : float64) (s : bool) :
  signed s x -> ltb hundred x = false -> leb x hundred = true.
Proof. apply leb_of_not_ltb. Qed.

Lemma finite_within_finite (s : bool) (a lo hi : Z) (x : float64) :
  finite_within s a lo hi x -> finite s x.
Proof. destruct x; simpl; tauto. Qed.

Lemma finite_within_weaken (s : bool) (a lo hi a' lo' hi' : Z)
    (x : float64) :
  finite_within s a lo hi x -> 0 <= a <= a' -> lo' <= lo -> hi <= hi' ->
  finite_within s a' lo' hi' x.
Proof.
  destruct x as [| | |s' m e]; simpl; try tauto.
  intros (-> & Hm & He) Ha Hlo Hhi. split; [reflexivity|].
  split; [|lia].
  assert (2 ^ a <= 2 ^ a') by (apply Z.pow_le_mono_r; lia). lia.
Qed.

(** Rounding a positive mantissa below [2 ^ a] with a moderate exponent
    gives a finite, non-zero float, with bounds on its mantissa and its
    exponent. *)
Lemma binary_round_aux_within (sx : bool) (mx ex a : Z) (lx : location) :
  0 < mx < 2 ^ a -> a <= 250 -> -500 <= ex <= 400 ->
  finite_within sx (a + 1) ex (ex + 2 * a + 1)
    (binary_round_aux prec emax sx mx ex lx).
Proof.
  intros [Hm Hlt] Ha He. unfold binary_round_aux.
  assert (Ha0 : 0 <= a).
  { destruct (Z.le_gt_cases 0 a) as [?|Hneg]; [assumption|].
    rewrite (Z.pow_neg_r 2 a Hneg) in Hlt. lia. }
  pose proof (shr_fexp_spec prec emax mx ex lx (Z.lt_le_incl _ _ Hm))
    as [H1 E1].
  destruct (shr_fexp prec emax mx ex lx) as [mrs1 e1].
  cbv zeta in H1, E1. simpl fst in H1. simpl snd in E1.
  pose proof (Zdigits2_pos mx Hm) as Hd.
  pose proof (Zdigits2_upper mx a (conj Hm Hlt)) as Hd'.
  unfold fexp, SpecFloat.emin, prec, emax in H1, E1.
  pose proof (div_pow2_pos mx
    (Z.max (Z.max (Zdigits2 mx + ex - 53) (3 - 1024 - 53) - ex) 0) Hm) as Hq.
  rewrite <- H1 in Hq. specialize (Hq ltac:(lia)).
  pose proof (round_nearest_even_bounds (shr_m mrs1)
                (loc_of_shr_record mrs1)) as Hr.
  set (m2 := round_nearest_even (shr_m mrs1) (loc_of_shr_record mrs1)) in *.
  assert (Hm2 : 0 < m2) by lia.
  assert (Hpow : 2 ^ (a + 1) = 2 * 2 ^ a)
    by (rewrite Z.pow_add_r by lia; change (2 ^ 1) with 2; lia).
  assert (Hlt2 : m2 < 2 ^ (a + 1)) by lia.
  pose proof (shr_fexp_spec prec emax m2 e1 loc_Exact (Z.lt_le_incl _ _ Hm2))
    as [H2 E2].
  destruct (shr_fexp prec emax m2 e1 loc_Exact) as [mrs2 e2].
  cbv zeta in H2, E2. simpl fst in H2. simpl snd in E2.
  pose proof (Zdigits2_pos m2 Hm2) as Hd2.
  pose proof (Zdigits2_upper m2 (a + 1) (conj Hm2 Hlt2)) as Hd2'.
  unfold fexp, SpecFloat.emin, prec, emax in H2, E2.
  pose proof (div_pow2_pos m2
    (Z.max (Z.max (Zdigits2 m2 + e1 - 53) (3 - 1024 - 53) - e1) 0) Hm2)
    as Hq2.
  rewrite <- H2 in Hq2. specialize (Hq2 ltac:(lia)).
  destruct (shr_m mrs2) as [|m|m]; try lia.
  unfold prec, emax.
  destruct (Z.leb_spec e2 (1024 - 53)) as [_|Hbad]; [|lia].
  simpl. split; [reflexivity|]. split; lia.
Qed.

(** The conversion of a non-zero integer of at most 64 bits, with
    bounds. *)
Lemma binary_round_within (sx : bool) (mx : positive) :
  Z.pos mx <= 2 ^ 63 ->
  finite_within sx 65 (-52) 130 (binary_round prec emax sx mx 0).
Proof.
  intros Hle. unfold binary_round.
  pose proof (digits2_bounds mx) as [Hlo Hhi].
  assert (Hd : Z.pos (digits2_pos mx) <= 64).
  { apply (Zdigits2_upper (Z.pos mx) 64).
    change (2 ^ 64) with (2 ^ 63 * 2). lia. }
  unfold shl_align, fexp, SpecFloat.emin, prec, emax.
  rewrite Z.max_l by lia.
  replace (Z.pos (digits2_pos mx) + 0 - 53 - 0)
    with (Z.pos (digits2_pos mx) - 53) by lia.
  destruct (Z.pos (digits2_pos mx) - 53) as [|d|d] eqn:Hsub.
  - apply (finite_within_weaken sx (64 + 1) 0 (0 + 2 * 64 + 1)); try lia.
    apply binary_round_aux_within; lia.
  - apply (finite_within_weaken sx (64 + 1) 0 (0 + 2 * 64 + 1)); try lia.
    apply binary_round_aux_within; lia.
  - eapply finite_within_weaken;
      [apply (binary_round_aux_within _ _ _ 64); try lia|lia..].
    rewrite pos_iter_xO. split; [lia|].
    assert (Z.pos mx * 2 ^ Z.pos d < 2 ^ 53).
    { replace 53 with (Z.pos (digits2_pos mx) + Z.pos d) by lia.
      rewrite Z.pow_add_r by lia.
      apply Z.mul_lt_mono_pos_r; [apply Z.pow_pos_nonneg; lia|exact Hhi]. }
    change (2 ^ 64) with (2 ^ 53 * 2 ^ 11). lia.
Qed.

Lemma of_int_within (z : Z) :
  z ≠ 0 -> - 2 ^ 63 <= z <= 2 ^ 63 ->
  finite_within (z <? 0) 65 (-52) 130 (of_int z).
Proof.
  intros Hz Hr. unfold of_int, binary_normalize.
  destruct z as [|p|p]; [congruence| |].
  - apply binary_round_within. lia.
  - apply binary_round_within. lia.
Qed.

(** The quotient [SFdiv] rounds, for operands that come from 64-bit
    integers: it is positive, and it and its exponent are bounded. *)
Lemma SFdiv_core_binary_within (m1 m2 : positive) (e1 e2 : Z) :
  Z.pos m1 < 2 ^ 65 -> Z.pos m2 < 2 ^ 65 ->
  -52 <= e1 <= 130 -> -52 <= e2 <= 130 ->
  0 < (SFdiv_core_binary prec emax (Z.pos m1) e1 (Z.pos m2) e2).1.1
    < 2 ^ 118 /\
  -299 <= (SFdiv_core_binary prec emax (Z.pos m1) e1 (Z.pos m2) e2).1.2
    <= 182.
Proof.
  intros H1 H2 He1 He2. unfold SFdiv_core_binary.
  pose proof (digits2_bounds m1) as [Hlo1 Hhi1].
  pose proof (digits2_bounds m2) as [Hlo2 Hhi2].
  pose proof (Zdigits2_upper (Z.pos m1) 65 ltac:(lia)) as Hd1.
  pose proof (Zdigits2_upper (Z.pos m2) 65 ltac:(lia)) as Hd2.
  simpl Zdigits2 in *.
  set (d1 := Z.pos (digits2_pos m1)) in *.
  set (d2 := Z.pos (digits2_pos m2)) in *.
  assert (Hp1 : 0 < d1) by (unfold d1; lia).
  assert (Hp2 : 0 < d2) by (unfold d2; lia).
  unfold fexp, SpecFloat.emin, prec, emax.
  set (e' := Z.min (Z.max (d1 + e1 - (d2 + e2) - 53) (3 - 1024 - 53))
                   (e1 - e2)).
  set (s := e1 - e2 - e').
  assert (Hs : s = Z.max (d2 - d1 + 53) 0) by (unfold s, e'; lia).
  set (m' := match s with
             | 0 => Z.pos m1
             | Z.pos _ => Z.shiftl (Z.pos m1) s
             | Z.neg _ => 0
             end).
  assert (Hm' : m' = Z.pos m1 * 2 ^ s).
  { unfold m'. destruct s as [|p|p] eqn:Hsp.
    - simpl. lia.
    - rewrite Z.shiftl_mul_pow2 by lia. reflexivity.
    - lia. }
  assert (Hs0 : 0 <= s) by lia.
  assert (Hps : 0 < 2 ^ s) by (apply Z.pow_pos_nonneg; lia).
  assert (Hlow : 2 ^ d2 <= m').
  { rewrite Hm'.
    assert (2 ^ d2 <= 2 ^ (d1 - 1 + s)) by (apply Z.pow_le_mono_r; lia).
    assert (2 ^ (d1 - 1 + s) = 2 ^ (d1 - 1) * 2 ^ s)
      by (apply Z.pow_add_r; lia).
    nia. }
  assert (Hupp : m' < 2 ^ 118).
  { rewrite Hm'.
    assert (2 ^ (d1 + s) <= 2 ^ 118) by (apply Z.pow_le_mono_r; lia).
    assert (2 ^ (d1 + s) = 2 ^ d1 * 2 ^ s) by (apply Z.pow_add_r; lia).
    nia. }
  pose proof (Z_div_mod m' (Z.pos m2) eq_refl) as Hdm.
  destruct (Z.div_eucl m' (Z.pos m2)) as [q r]. simpl.
  destruct Hdm as [Heq Hr].
  split; [|unfold e'; lia].
  split; nia.
Qed.

(** The quotient of two floats that come from non-zero 64-bit integers
    is finite and not zero. *)
Lemma div_within (x y : float64) (sx sy : bool) :
  finite_within sx 65 (-52) 130 x -> finite_within sy 65 (-52) 130 y ->
  finite_within (xorb sx sy) 119 (-299) 420 (div x y).
Proof.
  intros Hx Hy.
  destruct x as [| | |sx' mx ex]; simpl in Hx; try tauto.
  destruct y as [| | |sy' my ey]; simpl in Hy; try tauto.
  destruct Hx as (-> & Hmx & Hex). destruct Hy as (-> & Hmy & Hey).
  unfold div, SFdiv.
  pose proof (SFdiv_core_binary_within mx my ex ey Hmx Hmy Hex Hey)
    as [Hq He].
  destruct (SFdiv_core_binary prec emax (Z.pos mx) ex (Z.pos my) ey)
    as [[mz ez] lz].
  simpl in Hq, He.
  eapply finite_within_weaken;
    [apply (binary_round_aux_within _ _ _ 118); lia|lia..].
Qed.

(** Such a quotient times 100 is finite and not zero. *)
Lemma mul_hundred_finite (x : float64) (s : bool) :
  finite_within s 119 (-299) 420 x -> finite s (mul x hundred).
Proof.
  destruct x as [| | |s' m e]; simpl; try tauto.
  intros (-> & Hm & He).
  unfold mul, hundred, SFmul.
  replace (xorb s false) with s by (destruct s; reflexivity).
  eapply finite_within_finite.
  apply (binary_round_aux_within _ _ _ 172); [|lia|lia].
  rewrite Pos2Z.inj_mul.
  change (2 ^ 172) with (2 ^ 119 * 2 ^ 53).
  split; [lia|].
  apply Z.mul_lt_mono_nonneg; lia.
Qed.

(** A finite, non-zero float of negative sign is below zero, and not
    above 100. *)
Lemma finite_negative (x : float64) :
  finite true x -> ltb x zero = true /\ ltb hundred x = false.
Proof.
  destruct x as [| | |s m e]; simpl; try tauto.
  intros ->. split; reflexivity.
Qed.

(** The quotient of zero by a finite, non-zero float, times 100, is a
    zero. *)
Lemma zero_percentage (y : float64) (sy : bool) :
  finite sy y ->
  mul (div (of_int 0) y) hundred = S754_zero sy.
Proof.
  destruct y as [| | |s m e]; simpl; try tauto.
  intros ->. destruct sy; reflexivity.
Qed.

End FloatFacts.

Section PercentageClaims.
Import Float64 Milestones.

(** A milestone of threshold 10 and progress -5 has the percentage -50,
    which is below 0. *)
Lemma ProgressPercentage_negative :
  Int64.in_range (Progress negative_progress) /\
  Int64.in_range (Threshold negative_progress) /\
  ProgressPercentage negative_progress = SFopp (of_int 50) /\
  ltb (ProgressPercentage negative_progress) zero = true /\
  between zero hundred (ProgressPercentage negative_progress) = false.
Proof.
  split; [unfold Int64.in_range, Int64.min, Int64.max; simpl; lia|].
  split; [unfold Int64.in_range, Int64.min, Int64.max; simpl; lia|].
  vm_compute. repeat split.
Qed.

(** C6, as the code has it. [ProgressPercentage] never returns NaN or a
    value above 100, however far the progress exceeds the threshold; it
    returns 0 when the threshold is 0; its value is in [0,100] whenever
    the progress and the threshold are not of opposite signs, that is
    for a progress that is not negative over a positive threshold and
    for a progress that is not positive over a negative threshold; and
    it is below 0 whenever they are of opposite signs, one negative and
    the other positive: there is no clamp from below. *)
Theorem ProgressPercentage_bounds (m : Milestone) :
  Int64.in_range (Progress m) -> Int64.in_range (Threshold m) ->
  leb (ProgressPercentage m) hundred = true /\
  (Threshold m = 0 -> ProgressPercentage m = zero) /\
  (0 <= Progress m -> 0 < Threshold m ->
   between zero hundred (ProgressPercentage m) = true) /\
  (Progress m <= 0 -> Threshold m < 0 ->
   between zero hundred (ProgressPercentage m) = true) /\
  ((Progress m < 0 /\ 0 < Threshold m) \/
   (0 < Progress m /\ Threshold m < 0) ->
   ltb (ProgressPercentage m) zero = true).
Proof.
  unfold Int64.in_range, Int64.min, Int64.max. intros HP HT.
  unfold ProgressPercentage, between.
  destruct (Z.eqb_spec (Threshold m) 0) as [Hz|Hnz].
  - split; [reflexivity|]. split; [reflexivity|].
    split; [lia|]. split; lia.
  - pose proof (of_int_signed (Progress m) ltac:(lia)) as Ha.
    pose proof (of_int_finite (Threshold m) Hnz ltac:(lia)) as Hb.
    pose proof (mul_hundred_signed _ _ (div_signed _ _ _ _ Ha Hb)) as Hp.
    set (p := mul (div (of_int (Progress m)) (of_int (Threshold m))) hundred)
      in *.
    assert (Hle : leb (if ltb hundred p then hundred else p) hundred = true).
    { destruct (ltb hundred p) eqn:Hlt; [reflexivity|].
      apply (leb_hundred p _ Hp Hlt). }
    split; [exact Hle|]. split; [lia|]. split; [|split].
    + intros Hp0 Ht0. rewrite Hle, andb_true_r.
      destruct (ltb hundred p); [reflexivity|].
      apply leb_zero_signed.
      replace (Progress m <? 0) with false in Hp
        by (symmetry; apply Z.ltb_ge; lia).
      replace (Threshold m <? 0) with false in Hp
        by (symmetry; apply Z.ltb_ge; lia).
      exact Hp.
    + intros Hp0 Ht0. rewrite Hle, andb_true_r.
      destruct (Z.eq_dec (Progress m) 0) as [Hz|Hnz'].
      * assert (Hpz : p = S754_zero (Threshold m <? 0)).
        { unfold p. rewrite Hz. apply zero_percentage, Hb. }
        rewrite Hpz. destruct (Threshold m <? 0); reflexivity.
      * destruct (ltb hundred p); [reflexivity|].
        apply leb_zero_signed.
        replace (Progress m <? 0) with true in Hp
          by (symmetry; apply Z.ltb_lt; lia).
        replace (Threshold m <? 0) with true in Hp
          by (symmetry; apply Z.ltb_lt; lia).
        exact Hp.
    + intros Hopp.
      assert (Hpn : Progress m ≠ 0) by lia.
      pose proof (mul_hundred_finite _ _
                    (div_within _ _ _ _
                       (of_int_within (Progress m) Hpn ltac:(lia))
                       (of_int_within (Threshold m) Hnz ltac:(lia))))
        as Hfin.
      fold p in Hfin.
      replace (xorb (Progress m <? 0) (Threshold m <? 0)) with true in Hfin.
      * destruct (finite_negative p Hfin) as [Hneg Hnot].
        rewrite Hnot. exact Hneg.
      * destruct Hopp as [[Ha1 Ha2]|[Ha1 Ha2]].
        -- replace (Progress m <? 0) with true
             by (symmetry; apply Z.ltb_lt; lia).
           replace (Threshold m <? 0) with false
             by (symmetry; apply Z.ltb_ge; lia).
           reflexivity.
        -- replace (Progress m <? 0) with false
             by (symmetry; apply Z.ltb_ge; lia).
           replace (Threshold m <? 0) with true
             by (symmetry; apply Z.ltb_lt; lia).
           reflexivity.
Qed.

Lemma ProgressPercentage_bounds_witness :
  Int64.in_range
    (Progress (UpdateProgress (NewMilestone "s1" "total_reactions" 100)
                 100000 0).1) /\
  Int64.in_range
    (Threshold (UpdateProgress (NewMilestone "s1" "total_reactions" 100)
                  100000 0).1) /\
  leb (ProgressPercentage
         (UpdateProgress (NewMilestone "s1" "total_reactions" 100)
            100000 0).1) hundred = true.
Proof.
  split; [unfold Int64.in_range, Int64.min, Int64.max; simpl; lia|].
  split; [unfold Int64.in_range, Int64.min, Int64.max; simpl; lia|].
  apply (proj1 (ProgressPercentage_bounds
           (UpdateProgress (NewMilestone "s1" "total_reactions" 100)
              100000 0).1
           ltac:(unfold Int64.in_range, Int64.min, Int64.max; simpl; lia)
           ltac:(unfold Int64.in_range, Int64.min, Int64.max; simpl; lia))).
Defined.

End PercentageClaims.

(** * Further properties of the code *)

(** ** Events and the session registry *)

Section RegistryFacts.
Import Events Aggregation.

Lemma GetOrCreateSession_sessions (m : Manager) (sessionID : string)
    (now : Z) :
  sessions (GetOrCreateSession m sessionID now).1 =
  <[sessionID := (GetOrCreateSession m sessionID now).2]> (sessions m).
Proof.
  unfold GetOrCreateSession.
  destruct (sessions m !! sessionID) as [stats|] eqn:H; simpl;
    [symmetry; apply insert_id, H|reflexivity].
Qed.

(** [ProcessEvent] rewrites the entry of the event's session, and nothing
    else of the registry. *)
Lemma ProcessEvent_sessions (m : Manager) (e : Event) (now : Z) :
  sessions (ProcessEvent m e now) =
  <[Events.SessionID e :=
      event_effect (GetOrCreateSession m (Events.SessionID e) now).2 e now]>
    (sessions m).
Proof.
  pose proof (GetOrCreateSession_sessions m (Events.SessionID e) now) as Hs.
  unfold ProcessEvent, event_effect.
  destruct (GetOrCreateSession m (Events.SessionID e) now) as [m1 stats].
  simpl in Hs.
  destruct (Type_ e =? EventTypeJoinSession)%string;
    [simpl; rewrite Hs; apply insert_insert_eq|].
  destruct (Type_ e =? EventTypeLeaveSession)%string;
    [simpl; rewrite Hs; apply insert_insert_eq|].
  destruct (Type_ e =? EventTypeReaction)%string; [|exact Hs].
  destruct (GetReactionType e) as [rt ok]. simpl.
  destruct ok; [simpl; rewrite Hs; apply insert_insert_eq|exact Hs].
Qed.

Lemma event_effect_total (stats : SessionStats) (e : Event) (now : Z) :
  TotalReactions (event_effect stats e now) =
  if (GetReactionType e).2 then Int64.add (TotalReactions stats) 1
  else TotalReactions stats.
Proof.
  unfold event_effect, GetReactionType.
  destruct (Type_ e =? EventTypeJoinSession)%string eqn:Hj.
  { apply String.eqb_eq in Hj. rewrite Hj. reflexivity. }
  destruct (Type_ e =? EventTypeLeaveSession)%string eqn:Hl.
  { apply String.eqb_eq in Hl. rewrite Hl. reflexivity. }
  destruct (Type_ e =? EventTypeReaction)%string; simpl; [|reflexivity].
  destruct (assert_string (Payload e !! "reaction_type"%string)) as [rt ok].
  destruct ok; simpl; [|reflexivity].
  destruct (ReactionCounts stats !! rt) as [c|] eqn:Hc;
    [rewrite (IncrementReaction_known _ _ _ _ Hc)
    |rewrite (IncrementReaction_unknown _ _ _ Hc)]; reflexivity.
Qed.

Lemma GetOrCreateSession_total (m : Manager) (sessionID : string) (now : Z) :
  TotalReactions (GetOrCreateSession m sessionID now).2 =
  default 0 (session_total m sessionID).
Proof.
  unfold GetOrCreateSession, session_total.
  destruct (sessions m !! sessionID); reflexivity.
Qed.

(** The reaction total of a session after one event. *)
Lemma ProcessEvent_total (m : Manager) (e : Event) (now : Z)
    (sessionID : string) :
  default 0 (session_total (ProcessEvent m e now) sessionID) =
  if String.eqb (Events.SessionID e) sessionID && (GetReactionType e).2
  then Int64.add (default 0 (session_total m sessionID)) 1
  else default 0 (session_total m sessionID).
Proof.
  unfold session_total at 1. rewrite ProcessEvent_sessions.
  destruct (String.eqb_spec (Events.SessionID e) sessionID) as [<-|Hne].
  - rewrite lookup_insert_eq. simpl.
    rewrite event_effect_total, GetOrCreateSession_total. reflexivity.
  - rewrite lookup_insert_ne by exact Hne. reflexivity.
Qed.

End RegistryFacts.

Section RegistryProperties.
Import Events Aggregation.

Lemma count_reactions_nonneg (sessionID : string) (evs : list (Event * Z)) :
  0 <= count_reactions sessionID evs.
Proof.
  induction evs as [|[e t] rest IH]; simpl; [lia|].
  destruct (_ && _); lia.
Qed.

(** X1. After any run of events through [ProcessEvent], the reaction
    total of a session has grown by the number of events of that session
    whose reaction type [GetReactionType] accepts, whatever their order
    and whatever else is in the run, as long as the total stays an
    [int64]. *)
Theorem reaction_total_counts_events (evs : list (Event * Z)) (m : Manager)
    (sessionID : string) :
  Int64.min <= default 0 (session_total m sessionID) ->
  default 0 (session_total m sessionID) + count_reactions sessionID evs
    <= Int64.max ->
  default 0 (session_total (process_all m evs) sessionID) =
  default 0 (session_total m sessionID) + count_reactions sessionID evs.
Proof.
  revert m. induction evs as [|[e t] rest IH]; intros m Hmin Hmax; simpl.
  - lia.
  - pose proof (count_reactions_nonneg sessionID rest) as Hc.
    simpl in Hmax.
    pose proof (ProcessEvent_total m e t sessionID) as Hstep.
    destruct (_ && _).
    + rewrite Int64_add_1 in Hstep by lia.
      rewrite IH; rewrite Hstep; lia.
    + rewrite IH; rewrite Hstep; lia.
Qed.

Lemma reaction_total_counts_events_witness :
  Int64.min <= default 0 (session_total NewManager "s1") /\
  default 0 (session_total NewManager "s1") +
    count_reactions "s1"
      [(fire_reaction, 1); (malformed_reaction, 2); (event1, 3);
       (fire_reaction, 4)] <= Int64.max /\
  default 0
    (session_total
       (process_all NewManager
          [(fire_reaction, 1); (malformed_reaction, 2); (event1, 3);
           (fire_reaction, 4)]) "s1") = 2.
Proof.
  split; [vm_compute; discriminate|].
  split; [vm_compute; discriminate|].
  apply (reaction_total_counts_events
           [(fire_reaction, 1); (malformed_reaction, 2); (event1, 3);
            (fire_reaction, 4)] NewManager "s1");
    vm_compute; discriminate.
Defined.

(** X2. An event built by [ReactionEvent] carries its reaction type as a
    [ReactionType] value, which [GetReactionType] does not accept: for
    every such event [ProcessEvent] makes sure the session exists and
    leaves its statistics as they were. *)
Theorem ReactionEvent_is_not_counted (uuid : string) (created : Z)
    (sessionID userID : string) (reactionType : ReactionType) (m : Manager)
    (now : Z) :
  GetReactionType (ReactionEvent uuid created sessionID userID reactionType)
    = (EmptyString, false) /\
  sessions
    (ProcessEvent m
       (ReactionEvent uuid created sessionID userID reactionType) now)
    !! sessionID
  = Some (GetOrCreateSession m sessionID now).2.
Proof.
  assert (Hg : GetReactionType
                 (ReactionEvent uuid created sessionID userID reactionType)
               = (EmptyString, false)).
  { unfold GetReactionType, ReactionEvent, NewEvent; simpl.
    rewrite lookup_singleton_eq. reflexivity. }
  split; [exact Hg|].
  rewrite ProcessEvent_sessions. simpl. rewrite lookup_insert_eq.
  unfold event_effect. rewrite Hg. reflexivity.
Qed.

(** X3. [ProcessEvent] changes the registry entry of the event's session
    only; that session exists afterwards, created if it was not there;
    and an event of a type other than join, leave and reaction changes
    nothing of its statistics. *)
Theorem ProcessEvent_touches_one_session (m : Manager) (e : Event) (now : Z) :
  (forall sid', sid' ≠ Events.SessionID e ->
     sessions (ProcessEvent m e now) !! sid' = sessions m !! sid') /\
  is_Some (sessions (ProcessEvent m e now) !! Events.SessionID e) /\
  (Type_ e ≠ EventTypeJoinSession -> Type_ e ≠ EventTypeLeaveSession ->
   Type_ e ≠ EventTypeReaction ->
   sessions (ProcessEvent m e now) !! Events.SessionID e =
   Some (GetOrCreateSession m (Events.SessionID e) now).2).
Proof.
  rewrite ProcessEvent_sessions. split; [|split].
  - intros sid' Hne. apply lookup_insert_ne. congruence.
  - rewrite lookup_insert_eq. eauto.
  - intros Hj Hl Hr. rewrite lookup_insert_eq. unfold event_effect.
    apply String.eqb_neq in Hj, Hl, Hr. rewrite Hj, Hl, Hr. reflexivity.
Qed.

(** X4. The active users are a set: [AddUser] returns the size of the set
    after the insertion, one more than before for a new user and the same
    for a user already active; [RemoveUser] returns one less for an active
    user and the same for an absent one; the peak after [AddUser] is the
    larger of the old peak and the new count; adding a user twice is
    adding it once, and removing a user that was just added to a set
    without it gives the set back. *)
Theorem active_users_are_a_set (s : SessionStats) (userID : string)
    (now now' : Z) :
  (AddUser s userID now).2 = active_len (AddUser s userID now).1 /\
  (AddUser s userID now).2 =
    active_len s +
      match ActiveUsers s !! userID with Some _ => 0 | None => 1 end /\
  (RemoveUser s userID now).2 = active_len (RemoveUser s userID now).1 /\
  (RemoveUser s userID now).2 =
    active_len s -
      match ActiveUsers s !! userID with Some _ => 1 | None => 0 end /\
  PeakConcurrentUsers (AddUser s userID now).1 =
    Z.max (PeakConcurrentUsers s) (AddUser s userID now).2 /\
  ActiveUsers (AddUser (AddUser s userID now).1 userID now').1 =
    ActiveUsers (AddUser s userID now).1 /\
  (ActiveUsers s !! userID = None ->
   ActiveUsers (RemoveUser (AddUser s userID now).1 userID now').1 =
   ActiveUsers s).
Proof.
  unfold AddUser, RemoveUser, active_len; simpl.
  split; [reflexivity|]. split.
  { rewrite map_size_insert. destruct (ActiveUsers s !! userID); simpl; lia. }
  split; [reflexivity|]. split.
  { rewrite map_size_delete.
    destruct (ActiveUsers s !! userID) eqn:Hu; simpl; [|lia].
    assert (size (ActiveUsers s) ≠ 0%nat).
    { intros H0. apply map_size_empty_inv in H0. rewrite H0 in Hu.
      rewrite lookup_empty in Hu. discriminate. }
    lia. }
  split.
  { destruct (Z.ltb_spec (PeakConcurrentUsers s)
                (Z.of_nat (size (<[userID:=true]> (ActiveUsers s))))); lia. }
  split; [apply insert_insert_eq|].
  intros Hu. rewrite delete_insert_eq. apply delete_id, Hu.
Qed.

Lemma GetReactionCount_IncrementReaction (s : SessionStats)
    (rt rt' : ReactionType) (now : Z) :
  GetReactionCount (IncrementReaction s rt now).1 rt' =
  match ReactionCounts s !! rt with
  | Some c => if decide (rt = rt') then Int64.add c 1
              else GetReactionCount s rt'
  | None => GetReactionCount s rt'
  end.
Proof.
  unfold GetReactionCount.
  destruct (ReactionCounts s !! rt) as [c|] eqn:Hc.
  - rewrite (IncrementReaction_known _ _ _ _ Hc). simpl.
    destruct (decide (rt = rt')) as [<-|Hne].
    + rewrite lookup_insert_eq. reflexivity.
    + rewrite lookup_insert_ne by exact Hne. reflexivity.
  - rewrite (IncrementReaction_unknown _ _ _ Hc). reflexivity.
Qed.

Lemma dom_IncrementReaction (s : SessionStats) (rt : ReactionType) (now : Z) :
  dom (ReactionCounts (IncrementReaction s rt now).1) =
  dom (ReactionCounts s).
Proof.
  destruct (ReactionCounts s !! rt) as [c|] eqn:Hc.
  - rewrite (IncrementReaction_known _ _ _ _ Hc). simpl.
    apply dom_insert_lookup_L. eauto.
  - rewrite (IncrementReaction_unknown _ _ _ Hc). reflexivity.
Qed.

(** X5. No operation on a [SessionStats] lowers the peak, the reaction
    total or a per-type counter, as long as the counters are below the
    largest [int64]; no operation adds or removes a per-type counter, so a
    reaction of unknown type never gets a bucket; and the start time is
    never changed. *)
Theorem counters_never_decrease (s : SessionStats) (op : StatsOp) (now : Z) :
  below_max s ->
  PeakConcurrentUsers s <= PeakConcurrentUsers (apply_op s op now) /\
  TotalReactions s <= TotalReactions (apply_op s op now) /\
  (forall rt, GetReactionCount s rt
              <= GetReactionCount (apply_op s op now) rt) /\
  dom (ReactionCounts (apply_op s op now)) = dom (ReactionCounts s) /\
  StartTime (apply_op s op now) = StartTime s.
Proof.
  intros [Htot Hc]. destruct op as [uid|uid|rt]; simpl.
  - split; [|repeat split; try reflexivity; lia].
    destruct (Z.ltb_spec (PeakConcurrentUsers s)
                (Z.of_nat (size (<[uid:=true]> (ActiveUsers s))))); lia.
  - repeat split; try reflexivity; lia.
  - split; [|split; [|split; [|split]]].
    + unfold IncrementReaction. destruct (ReactionCounts s !! rt); simpl; lia.
    + unfold IncrementReaction.
      destruct (ReactionCounts s !! rt); simpl;
        rewrite Int64_add_1 by exact Htot; lia.
    + intros rt'. rewrite GetReactionCount_IncrementReaction.
      destruct (ReactionCounts s !! rt) as [c|] eqn:Hrt; [|lia].
      destruct (decide (rt = rt')) as [<-|Hne]; [|lia].
      unfold GetReactionCount. rewrite Hrt.
      rewrite Int64_add_1 by (apply (Hc rt), Hrt). lia.
    + apply dom_IncrementReaction.
    + unfold IncrementReaction. destruct (ReactionCounts s !! rt); reflexivity.
Qed.

Lemma counters_never_decrease_witness :
  below_max (NewSessionStats "s1" 0) /\
  TotalReactions (NewSessionStats "s1" 0)
    <= TotalReactions
         (apply_op (NewSessionStats "s1" 0) (OpIncrementReaction "wow") 1) /\
  dom (ReactionCounts
         (apply_op (NewSessionStats "s1" 0) (OpIncrementReaction "wow") 1))
    = dom (ReactionCounts (NewSessionStats "s1" 0)).
Proof.
  split; [apply NewSessionStats_inv|].
  pose proof (counters_never_decrease (NewSessionStats "s1" 0)
                (OpIncrementReaction "wow") 1
                (proj2 (NewSessionStats_inv "s1" 0))) as H.
  split; apply H.
Defined.

(** X6. Reactions commute: counting a reaction of type [a] and then one
    of type [b] leaves the same per-type counters and the same total as
    counting [b] and then [a], overflow included. *)
Theorem IncrementReaction_commutes (s : SessionStats) (a b : ReactionType)
    (t1 t2 t3 t4 : Z) :
  ReactionCounts
    (IncrementReaction (IncrementReaction s a t1).1 b t2).1 =
  ReactionCounts
    (IncrementReaction (IncrementReaction s b t3).1 a t4).1 /\
  TotalReactions
    (IncrementReaction (IncrementReaction s a t1).1 b t2).1 =
  TotalReactions
    (IncrementReaction (IncrementReaction s b t3).1 a t4).1.
Proof.
  split.
  -
    destruct (decide (a = b)) as [<-|Hab].
    + destruct (ReactionCounts s !! a) as [c|] eqn:Ha.
      * rewrite !(IncrementReaction_known s a c _ Ha). simpl.
        rewrite !(IncrementReaction_known _ a (Int64.add c 1))
          by (simpl; apply lookup_insert_eq).
        reflexivity.
      * rewrite !(IncrementReaction_unknown s a _ Ha).
        rewrite !(IncrementReaction_unknown _ a) by (simpl; exact Ha).
        reflexivity.
    + destruct (ReactionCounts s !! a) as [ca|] eqn:Ha;
        destruct (ReactionCounts s !! b) as [cb|] eqn:Hb.
      * rewrite (IncrementReaction_known s a ca _ Ha),
          (IncrementReaction_known s b cb _ Hb).
        rewrite (IncrementReaction_known _ b cb)
          by (simpl; rewrite lookup_insert_ne by congruence; exact Hb).
        rewrite (IncrementReaction_known _ a ca)
          by (simpl; rewrite lookup_insert_ne by congruence; exact Ha).
        simpl. apply insert_insert_ne. congruence.
      * rewrite (IncrementReaction_known s a ca _ Ha),
          (IncrementReaction_unknown s b _ Hb).
        rewrite (IncrementReaction_unknown _ b)
          by (simpl; rewrite lookup_insert_ne by congruence; exact Hb).
        rewrite (IncrementReaction_known _ a ca) by (simpl; exact Ha).
        reflexivity.
      * rewrite (IncrementReaction_unknown s a _ Ha),
          (IncrementReaction_known s b cb _ Hb).
        rewrite (IncrementReaction_known _ b cb) by (simpl; exact Hb).
        rewrite (IncrementReaction_unknown _ a)
          by (simpl; rewrite lookup_insert_ne by congruence; exact Ha).
        reflexivity.
      * rewrite (IncrementReaction_unknown s a _ Ha),
          (IncrementReaction_unknown s b _ Hb).
        rewrite (IncrementReaction_unknown _ b) by (simpl; exact Hb).
        rewrite (IncrementReaction_unknown _ a) by (simpl; exact Ha).
        reflexivity.
  - unfold IncrementReaction.
    destruct (ReactionCounts s !! a), (ReactionCounts s !! b); simpl;
      repeat match goal with
             | |- context [match ?x with Some _ => _ | None => _ end] =>
                 destruct x; simpl
             end; reflexivity.
Qed.

(** X7. [GetOrCreateSession] creates a session at most once: it returns
    the registered statistics when there are some and leaves the registry
    as it is; otherwise it registers new, empty statistics under that id
    and the registry grows by one; a second call returns what the first
    returned; and no other session is touched. *)
Theorem GetOrCreateSession_once (m : Manager) (sessionID : string)
    (now now' : Z) :
  GetOrCreateSession (GetOrCreateSession m sessionID now).1 sessionID now' =
    GetOrCreateSession m sessionID now /\
  GetSession (GetOrCreateSession m sessionID now).1 sessionID =
    Some (GetOrCreateSession m sessionID now).2 /\
  (forall sid', sid' ≠ sessionID ->
     GetSession (GetOrCreateSession m sessionID now).1 sid' =
     GetSession m sid') /\
  (forall stats, GetSession m sessionID = Some stats ->
     GetOrCreateSession m sessionID now = (m, stats)) /\
  (GetSession m sessionID = None ->
   (GetOrCreateSession m sessionID now).2 = NewSessionStats sessionID now /\
   GetSessionCount (GetOrCreateSession m sessionID now).1 =
     GetSessionCount m + 1).
Proof.
  unfold GetSession, GetSessionCount, GetOrCreateSession.
  destruct (sessions m !! sessionID) as [stats|] eqn:Hs; simpl.
  - rewrite Hs. split; [reflexivity|]. split; [reflexivity|].
    split; [reflexivity|]. split; [congruence|discriminate].
  - rewrite lookup_insert_eq. split; [reflexivity|]. split; [reflexivity|].
    split; [intros sid' Hne; apply lookup_insert_ne; congruence|].
    split; [discriminate|]. intros _. split; [reflexivity|].
    rewrite map_size_insert_None by exact Hs. lia.
Qed.

(** X8. [RemoveSession] forgets a session: it is no longer found, the
    registry shrinks by one if it was there, the other sessions stay, and
    the next [GetOrCreateSession] for the id starts from new, empty
    statistics. *)
Theorem RemoveSession_forgets (m : Manager) (sessionID : string) (now : Z) :
  GetSession (RemoveSession m sessionID) sessionID = None /\
  (forall sid', sid' ≠ sessionID ->
     GetSession (RemoveSession m sessionID) sid' = GetSession m sid') /\
  GetSessionCount (RemoveSession m sessionID) =
    GetSessionCount m -
    match GetSession m sessionID with Some _ => 1 | None => 0 end /\
  (GetOrCreateSession (RemoveSession m sessionID) sessionID now).2 =
    NewSessionStats sessionID now.
Proof.
  unfold GetSession, GetSessionCount, RemoveSession, GetOrCreateSession.
  simpl. rewrite lookup_delete_eq. split; [reflexivity|].
  split; [intros sid' Hne; apply lookup_delete_ne; congruence|].
  split; [|reflexivity].
  rewrite map_size_delete.
  destruct (sessions m !! sessionID) eqn:Hu; simpl; [|lia].
  assert (size (sessions m) ≠ 0%nat).
  { intros H0. apply map_size_empty_inv in H0. rewrite H0 in Hu.
    rewrite lookup_empty in Hu. discriminate. }
  lia.
Qed.

End RegistryProperties.

(** ** The queue as a FIFO *)

Section QueueProperties.
Import Events Queue.

Lemma dequeue_n_spec (n : nat) (q : Queue) :
  (dequeue_n n q).1 = take n (buf (events q)) /\
  buf (events (dequeue_n n q).2) = drop n (buf (events q)) /\
  closed (dequeue_n n q).2 = closed q /\
  chclosed (events (dequeue_n n q).2) = chclosed (events q) /\
  size (dequeue_n n q).2 = size q /\
  cap (events (dequeue_n n q).2) = cap (events q).
Proof.
  revert q. induction n as [|n IH]; intros q; simpl.
  - rewrite drop_0. repeat split; reflexivity.
  - unfold Dequeue, chan_recv.
    destruct (buf (events q)) as [|v rest] eqn:Hb.
    + destruct (chclosed (events q)) eqn:Hch; simpl; rewrite ?Hb, ?Hch;
        repeat split; reflexivity.
    + specialize (IH (with_events q {| buf := rest; cap := cap (events q);
                                       chclosed := chclosed (events q) |})).
      destruct (dequeue_n n _) as [vs q2]. simpl in *.
      destruct IH as (I1 & I2 & I3 & I4 & I5 & I6).
      rewrite I1, I2, I3, I4, I5, I6. repeat split; reflexivity.
Qed.

(** X9. A queue is first in, first out: of the events enqueued on a new
    queue of capacity [C], the consumers receive the first [C] in the
    order they were enqueued, one per [Dequeue], the overflow having been
    dropped; once these are received a [Dequeue] finds nothing ready and
    its caller waits. *)
Theorem queue_is_fifo (C : Z) (q0 : Queue) (es : list Event) :
  NewQueue C = Ok q0 ->
  exists q, enqueue_all q0 es = Ok q /\
    (forall n, (dequeue_n n q).1 = Some <$> take n (take (Z.to_nat C) es)) /\
    forall n pick, (length es <= n)%nat ->
      Len (dequeue_n n q).2 = 0 /\
      Dequeue (dequeue_n n q).2 false pick = None.
Proof.
  intros Hnew. destruct (NewQueue_wf C q0 Hnew) as (Hw & Hq & Hlen).
  destruct (enqueue_all_overflow C q0 es Hnew) as (q & He & Hb).
  destruct (enqueue_all_open C es q0 Hw Hq) as (q' & He' & Hw' & Hq' & _).
  rewrite He in He'. injection He' as <-.
  exists q. split; [exact He|]. split.
  - intros n. rewrite (proj1 (dequeue_n_spec n q)), Hb.
    symmetry. apply fmap_take.
  - intros n pick Hn.
    destruct (dequeue_n_spec n q) as (_ & D2 & D3 & D4 & _).
    assert (Hnil : buf (events (dequeue_n n q).2) = []).
    { rewrite D2, Hb. apply drop_ge. rewrite length_fmap, length_take. lia. }
    split; [unfold Len, chan_len; rewrite Hnil; reflexivity|].
    unfold Dequeue, chan_recv. rewrite Hnil, D4.
    destruct Hw' as (_ & _ & -> & _). rewrite Hq'. reflexivity.
Qed.

Lemma queue_is_fifo_witness :
  NewQueue 2 = Ok (open_queue 2 []) /\
  exists q, enqueue_all (open_queue 2 []) [event1; event2; event3] = Ok q /\
    (dequeue_n 3 q).1 = [Some event1; Some event2].
Proof.
  split; [reflexivity|].
  destruct (queue_is_fifo 2 (open_queue 2 []) [event1; event2; event3]
              eq_refl) as (q & He & Hd & _).
  exists q. split; [exact He|]. apply (Hd 3%nat).
Defined.

Lemma step_closed (size : Z) (q q' : Queue) (op : QueueOp) :
  wf size q -> closed q = true -> step q op = Ok q' ->
  closed q' = true /\ Len q' <= Len q.
Proof.
  intros Hw Hc. destruct op as [e|ctxDone pick|]; simpl.
  - rewrite (Enqueue_closed q (Some e) Hc). simpl. intros [= <-].
    split; [exact Hc|lia].
  - unfold Dequeue, chan_recv, Len, chan_len.
    destruct (buf (events q)) as [|v rest] eqn:Hb.
    + destruct (chclosed (events q)), ctxDone; intros [= <-];
        rewrite Hb; split; [exact Hc|lia| exact Hc|lia|exact Hc|lia|exact Hc|lia].
    + destruct ctxDone; [destruct pick|]; intros [= <-]; simpl;
        rewrite ?Hb; simpl; split; try exact Hc; lia.
  - unfold Close. rewrite Hc. simpl. intros [= <-]. split; [exact Hc|lia].
Qed.

Lemma run_ops_closed (size : Z) (ops : list QueueOp) (q : Queue) :
  wf size q -> closed q = true ->
  exists q', run_ops q ops = Ok q' /\ wf size q' /\ closed q' = true /\
    Len q' <= Len q.
Proof.
  revert q. induction ops as [|op rest IH]; intros q Hw Hc; simpl.
  - exists q. split; [reflexivity|]. split; [exact Hw|]. split; [exact Hc|lia].
  - destruct (step_wf size q op Hw) as (q1 & Hs & Hw1). rewrite Hs. simpl.
    destruct (step_closed size q q1 op Hw Hc Hs) as [Hc1 Hl1].
    destruct (IH q1 Hw1 Hc1) as (q' & Hr & Hw' & Hc' & Hl').
    exists q'. split; [exact Hr|]. split; [exact Hw'|].
    split; [exact Hc'|lia].
Qed.

Lemma run_ops_app (ops1 ops2 : list QueueOp) (q : Queue) :
  run_ops q (ops1 ++ ops2) = q1 ← run_ops q ops1; run_ops q1 ops2.
Proof.
  revert q. induction ops1 as [|op rest IH]; intros q; simpl; [reflexivity|].
  destruct (step q op) as [q1| |]; simpl; [apply IH|reflexivity..].
Qed.

(** X10. [Close] can be repeated and is for ever: on a queue built by
    [NewQueue], whatever was done before, a [Close] never panics, a
    second [Close] changes nothing, and after it no sequence of
    operations reopens the queue, lengthens its buffer or changes its
    capacity. *)
Theorem Close_is_idempotent_and_final (C : Z) (q0 : Queue)
    (before after : list QueueOp) :
  NewQueue C = Ok q0 ->
  exists q q1 q2,
    run_ops q0 before = Ok q /\
    Close q = Ok q1 /\ Close q1 = Ok q1 /\
    buf (events q1) = buf (events q) /\
    run_ops q1 after = Ok q2 /\
    IsClosed q2 = true /\ Len q2 <= Len q /\ Cap q2 = C.
Proof.
  intros Hnew. destruct (NewQueue_wf C q0 Hnew) as (Hw0 & _ & _).
  destruct (run_ops_wf C before q0 Hw0) as (q & Hrun & Hw).
  destruct (Close_spec C q Hw) as (q1 & Hcl & Hc1 & Hb1 & Hw1).
  destruct (run_ops_closed C after q1 Hw1 Hc1) as (q2 & Hr2 & Hw2 & Hc2 & Hl2).
  exists q, q1, q2. split; [exact Hrun|]. split; [exact Hcl|].
  split; [unfold Close; rewrite Hc1; reflexivity|].
  split; [exact Hb1|]. split; [exact Hr2|]. split; [exact Hc2|].
  split; [|apply Hw2].
  unfold Len, chan_len in *. rewrite Hb1 in Hl2. exact Hl2.
Qed.

Lemma Close_is_idempotent_and_final_witness :
  NewQueue 2 = Ok (open_queue 2 []) /\
  exists q q1 q2,
    run_ops (open_queue 2 []) [OpEnqueue event1] = Ok q /\
    Close q = Ok q1 /\ Close q1 = Ok q1 /\
    buf (events q1) = buf (events q) /\
    run_ops q1 [OpClose; OpEnqueue event2] = Ok q2 /\
    IsClosed q2 = true /\ Len q2 <= Len q /\ Cap q2 = 2.
Proof.
  split; [reflexivity|].
  apply (Close_is_idempotent_and_final 2 (open_queue 2 [])
           [OpEnqueue event1] [OpClose; OpEnqueue event2] eq_refl).
Defined.

(** X11. A closed queue still delivers what it buffers: after [Close],
    the consumers receive the buffered events one per [Dequeue], oldest
    first, each with ok true; when none is left every [Dequeue] returns
    nil and ok false at once, whatever the context. *)
Theorem closed_queue_delivers_buffer (C : Z) (q0 q : Queue)
    (ops : list QueueOp) :
  NewQueue C = Ok q0 -> run_ops q0 ops = Ok q ->
  exists q1, Close q = Ok q1 /\
    (forall n, (dequeue_n n q1).1 = take n (buf (events q))) /\
    forall n ctxDone pick, (length (buf (events q)) <= n)%nat ->
      Dequeue (dequeue_n n q1).2 ctxDone pick =
      Some (None, false, (dequeue_n n q1).2).
Proof.
  intros Hnew Hrun. destruct (NewQueue_wf C q0 Hnew) as (Hw0 & _ & _).
  destruct (run_ops_wf C ops q0 Hw0) as (q' & Hrun' & Hw).
  rewrite Hrun in Hrun'. injection Hrun' as <-.
  destruct (Close_spec C q Hw) as (q1 & Hcl & Hc1 & Hb1 & Hw1).
  exists q1. split; [exact Hcl|]. split.
  - intros n. rewrite (proj1 (dequeue_n_spec n q1)), Hb1. reflexivity.
  - intros n ctxDone pick Hn.
    destruct (dequeue_n_spec n q1) as (_ & D2 & _ & D4 & _).
    assert (Hnil : buf (events (dequeue_n n q1).2) = []).
    { rewrite D2, Hb1. apply drop_ge. exact Hn. }
    unfold Dequeue, chan_recv. rewrite Hnil, D4.
    destruct Hw1 as (_ & _ & -> & _). rewrite Hc1.
    destruct ctxDone; reflexivity.
Qed.

Lemma closed_queue_delivers_buffer_witness :
  NewQueue 2 = Ok (open_queue 2 []) /\
  run_ops (open_queue 2 []) [OpEnqueue event1; OpEnqueue event2] =
    Ok (open_queue 2 [Some event1; Some event2]) /\
  exists q1, Close (open_queue 2 [Some event1; Some event2]) = Ok q1 /\
    (dequeue_n 5 q1).1 = [Some event1; Some event2].
Proof.
  split; [reflexivity|]. split; [reflexivity|].
  destruct (closed_queue_delivers_buffer 2 (open_queue 2 [])
              (open_queue 2 [Some event1; Some event2])
              [OpEnqueue event1; OpEnqueue event2] eq_refl eq_refl)
    as (q1 & Hc & Hd & _).
  exists q1. split; [exact Hc|]. apply (Hd 5%nat).
Defined.

(** X12. [Dequeue] never loses an event and, with a cancelled context,
    never waits: it returns either nil with ok false and the queue as it
    was, or the oldest buffered event with ok true and the queue without
    it; with a cancelled context and an empty buffer it returns nil and ok
    false, and with a cancelled context and a buffered event it returns
    one or the other, at the choice of the runtime. *)
Theorem Dequeue_never_loses_an_event (q : Queue) (ctxDone pick : bool) :
  (forall v ok q', Dequeue q ctxDone pick = Some (v, ok, q') ->
     (v = None /\ ok = false /\ q' = q) \/
     (ok = true /\ buf (events q) = v :: buf (events q') /\
      closed q' = closed q /\ size q' = size q)) /\
  (ctxDone = true -> is_Some (Dequeue q ctxDone pick)) /\
  (ctxDone = true -> buf (events q) = [] ->
   Dequeue q ctxDone pick = Some (None, false, q)) /\
  (forall v rest, ctxDone = true -> buf (events q) = v :: rest ->
   Dequeue q ctxDone pick =
   if pick
   then Some (v, true,
              with_events q {| buf := rest; cap := cap (events q);
                               chclosed := chclosed (events q) |})
   else Some (None, false, q)).
Proof.
  unfold Dequeue, chan_recv.
  destruct (buf (events q)) as [|x rest] eqn:Hb.
  - split; [|split; [|split]].
    + intros v ok q'.
      destruct (chclosed (events q)), ctxDone; intros [= <- <- <-] || intros [=];
        left; auto.
    + intros ->. destruct (chclosed (events q)); eauto.
    + intros -> _. destruct (chclosed (events q)); reflexivity.
    + intros v r _ [=].
  - split; [|split; [|split]].
    + intros v ok q'.
      destruct ctxDone; [destruct pick|]; intros [= <- <- <-];
        [right|left; auto|right]; simpl; auto.
    + intros ->. destruct pick; eauto.
    + intros _ [=].
    + intros v r -> [= <- <-]. reflexivity.
Qed.

End QueueProperties.

(** ** The worker pool: cancellation, nil events and repeated shutdown *)

Section WorkerProperties.
Import Events Queue Worker.
Context {St : Type}.
Variable handler : EventPtr -> St -> St * error.

(** The worker loop over a buffer of any pointers: the nil ones are
    received and skipped. *)
Lemma worker_loop_ptrs (b : list EventPtr) (fuel : nat) (id : Z)
    (pick : bool) (wp : WorkerPool) :
  cancelled wp = false ->
  buf (events (queue wp)) = b ->
  (length b < fuel)%nat ->
  let res := worker_loop handler fuel id pick wp in
  res.1 = (if chclosed (events (queue wp))
           then WorkerReturned else WorkerWaiting) /\
  hstate res.2 = handle_all handler (non_nil b) (hstate wp) /\
  buf (events (queue res.2)) = [] /\
  logged res.2 =
    logged wp
    ++ error_lines handler (worker_error_line id) (non_nil b) (hstate wp)
    ++ (if chclosed (events (queue wp))
        then [worker_prefix id +:+ ": queue closed or context cancelled"]
        else []).
Proof.
  revert fuel wp. induction b as [|p rest IH]; intros fuel wp Hc Hb Hf.
  - destruct fuel as [|fuel]; [simpl in Hf; lia|]. simpl.
    rewrite Hc. rewrite (Dequeue_nil _ pick Hb).
    destruct (chclosed (events (queue wp))); simpl.
    + repeat split; auto.
    + rewrite app_nil_r. repeat split; auto.
  - destruct fuel as [|fuel]; [simpl in Hf; lia|]. simpl in Hf.
    cbn [worker_loop]. rewrite Hc.
    rewrite (Dequeue_cons _ _ _ pick Hb).
    destruct p as [e|].
    + destruct (handler (Some e) (hstate _)) as [st oerr] eqn:Hh.
      simpl in Hh.
      destruct oerr as [err|].
      * match goal with |- context [worker_loop handler fuel id pick ?w] =>
          specialize (IH fuel w) end.
        destruct IH as (I1 & I2 & I3 & I4); [exact Hc|reflexivity|lia|].
        simpl in *. rewrite Hh; simpl.
        rewrite I1, I2, I3, I4. repeat split; auto.
        rewrite <- !app_assoc. reflexivity.
      * match goal with |- context [worker_loop handler fuel id pick ?w] =>
          specialize (IH fuel w) end.
        destruct IH as (I1 & I2 & I3 & I4); [exact Hc|reflexivity|lia|].
        simpl in *. rewrite Hh; simpl.
        rewrite I1, I2, I3, I4. repeat split; auto.
    + match goal with |- context [worker_loop handler fuel id pick ?w] =>
        specialize (IH fuel w) end.
      destruct IH as (I1 & I2 & I3 & I4); [exact Hc|reflexivity|lia|].
      simpl in *. rewrite I1, I2, I3, I4. repeat split; auto.
Qed.


(** [ShutdownWithDrain] up to the loop over the drained events. *)
Lemma ShutdownWithDrain_unfold (C : Z) (wp : WorkerPool) :
  wf C (queue wp) ->
  exists q2,
    closed q2 = true /\ buf (events q2) = [] /\ wf C q2 /\
    ShutdownWithDrain handler wp =
    wp2 ← process_remaining handler (buf (events (queue wp)))
            (log (with_queue
                    (log wp "Shutting down worker pool with drain...") q2)
               ("Processing "
                +:+ fmt_int (Z.of_nat (length (buf (events (queue wp)))))
                +:+ " remaining events"));
    mret (log (cancel wp2) "Worker pool shutdown with drain complete").
Proof.
  intros Hw. unfold ShutdownWithDrain.
  change (queue (log wp "Shutting down worker pool with drain..."))
    with (queue wp).
  destruct (Close_spec C (queue wp) Hw) as (q1 & -> & Hc1 & Hb1 & Hw1).
  simpl.
  destruct (Drain_closed C q1 Hw1 Hc1) as (q2 & -> & Hc2 & Hb2 & Hw2).
  simpl. rewrite Hb1. exists q2. repeat split; try assumption; apply Hw2.
Qed.

(** X13. The worker loop skips nil events: on a queue that buffers any
    pointers, nil ones among them, a worker that is not cancelled calls
    the handler on the events that are not nil, in order, and on nothing
    else, and empties the buffer. *)
Theorem worker_skips_nil_events (b : list EventPtr) (fuel : nat) (id : Z)
    (pick : bool) (wp : WorkerPool) :
  cancelled wp = false ->
  buf (events (queue wp)) = b ->
  (length b < fuel)%nat ->
  hstate (worker_loop handler fuel id pick wp).2 =
    handle_all handler (non_nil b) (hstate wp) /\
  buf (events (queue (worker_loop handler fuel id pick wp).2)) = [] /\
  (worker_loop handler fuel id pick wp).1 ≠ WorkerOutOfFuel.
Proof.
  intros Hc Hb Hf.
  destruct (worker_loop_ptrs b fuel id pick wp Hc Hb Hf) as (H1 & H2 & H3 & _).
  split; [exact H2|]. split; [exact H3|].
  rewrite H1. destruct (chclosed _); discriminate.
Qed.

(** X14. [Shutdown] cancels and does not close: afterwards a worker
    returns at its next turn without calling the handler and without
    taking an event, so what is buffered stays buffered; and the queue,
    not being closed, still accepts events while it has room. *)
Theorem Shutdown_cancels_without_closing (C : Z) (wp : WorkerPool)
    (fuel : nat) (id : Z) (pick : bool) (e : Event) :
  wf C (queue wp) -> closed (queue wp) = false -> Len (queue wp) < C ->
  cancelled (Shutdown wp) = true /\
  queue (Shutdown wp) = queue wp /\
  hstate (Shutdown wp) = hstate wp /\
  (worker_loop handler (S fuel) id pick (Shutdown wp)).1 = WorkerReturned /\
  hstate (worker_loop handler (S fuel) id pick (Shutdown wp)).2 = hstate wp /\
  queue (worker_loop handler (S fuel) id pick (Shutdown wp)).2 = queue wp /\
  exists q', Enqueue (queue (Shutdown wp)) (Some e) = Ok (true, q', []) /\
    buf (events q') = buf (events (queue wp)) ++ [Some e].
Proof.
  intros Hw Hc Hl. repeat (split; [reflexivity|]).
  change (queue (Shutdown wp)) with (queue wp).
  destruct (Enqueue_spec C (queue wp) e Hw)
    as (r & q' & logs & He & Hiff & _ & Ht & _).
  destruct r.
  - destruct (Ht eq_refl) as [Hb _]. exists q'. split; [|exact Hb].
    rewrite He. unfold Enqueue in He. rewrite Hc in He.
    destruct (chan_try_send _ _); [|destruct (Some e)|]; congruence.
  - destruct (proj1 Hiff eq_refl) as [H|H]; [lia|congruence].
Qed.


(** X16. [ShutdownWithDrain] can be repeated: after it has returned, the
    queue is closed and empty and the pool cancelled; a second call does
    not panic on the closed queue, calls the handler on nothing, and a
    worker started afterwards returns at once. *)
Theorem ShutdownWithDrain_twice (C : Z) (evs : list Event) (wp : WorkerPool)
    (fuel : nat) (id : Z) (pick : bool) :
  wf C (queue wp) ->
  buf (events (queue wp)) = Some <$> evs ->
  exists wp1 wp2,
    ShutdownWithDrain handler wp = Ok wp1 /\
    IsClosed (queue wp1) = true /\ Len (queue wp1) = 0 /\
    cancelled wp1 = true /\
    ShutdownWithDrain handler wp1 = Ok wp2 /\
    hstate wp2 = hstate wp1 /\
    buf (events (queue wp2)) = [] /\
    (worker_loop handler (S fuel) id pick wp1).1 = WorkerReturned /\
    hstate (worker_loop handler (S fuel) id pick wp1).2 = hstate wp1.
Proof.
  intros Hw Hb.
  destruct (ShutdownWithDrain_unfold C wp Hw) as (q2 & Hc2 & Hb2 & Hw2 & E1).
  rewrite Hb in E1.
  match type of E1 with context [process_remaining handler _ ?w] =>
    destruct (process_remaining_all handler evs w)
      as (wp1 & Hp & I2 & I3 & I4 & I5) end.
  rewrite Hp in E1. simpl in E1, I3.
  set (wpA := log (cancel wp1) "Worker pool shutdown with drain complete")
    in *.
  assert (HwA : wf C (queue wpA)) by (simpl; rewrite I3; exact Hw2).
  destruct (ShutdownWithDrain_unfold C wpA HwA) as (q3 & Hc3 & Hb3 & Hw3 & E2).
  assert (HbA : buf (events (queue wpA)) = []) by (simpl; rewrite I3; exact Hb2).
  rewrite HbA in E2. simpl in E2.
  exists wpA. eexists. split; [exact E1|].
  split; [simpl; rewrite I3; exact Hc2|].
  split; [simpl; rewrite I3; unfold Len, chan_len; rewrite Hb2; reflexivity|].
  split; [reflexivity|].
  split; [exact E2|]. simpl.
  split; [reflexivity|]. split; [exact Hb3|]. split; reflexivity.
Qed.

End WorkerProperties.

Lemma worker_skips_nil_events_witness :
  Worker.cancelled Worker.example_pool_nil = false /\
  Worker.hstate
    (Worker.worker_loop Worker.failing_handler 4 0 true
       Worker.example_pool_nil).2
  = [Some Events.event1; Some Events.event2].
Proof.
  split; [reflexivity|].
  apply (proj1 (worker_skips_nil_events Worker.failing_handler
           [Some Events.event1; None; Some Events.event2] 4 0 true
           Worker.example_pool_nil eq_refl eq_refl ltac:(simpl; lia))).
Defined.

Lemma Shutdown_cancels_without_closing_witness :
  Queue.wf 3 (Worker.queue Worker.example_pool_room) /\
  Queue.closed (Worker.queue Worker.example_pool_room) = false /\
  Queue.Len (Worker.queue Worker.example_pool_room) < 3 /\
  Worker.hstate
    (Worker.worker_loop Worker.failing_handler 1 0 true
       (Worker.Shutdown Worker.example_pool_room)).2
  = Worker.hstate Worker.example_pool_room /\
  Worker.queue
    (Worker.worker_loop Worker.failing_handler 1 0 true
       (Worker.Shutdown Worker.example_pool_room)).2
  = Worker.queue Worker.example_pool_room.
Proof.
  split; [vm_compute; repeat split; discriminate|].
  split; [reflexivity|]. split; [reflexivity|].
  pose proof (Shutdown_cancels_without_closing Worker.failing_handler 3
                Worker.example_pool_room 0 0 true Events.event3
                ltac:(vm_compute; repeat split; discriminate)
                eq_refl eq_refl) as H.
  split; apply H.
Defined.


Lemma ShutdownWithDrain_twice_witness :
  Queue.wf 2 (Worker.queue Worker.example_pool) /\
  exists wp1 wp2,
    Worker.ShutdownWithDrain Worker.failing_handler Worker.example_pool
      = Ok wp1 /\
    Worker.ShutdownWithDrain Worker.failing_handler wp1 = Ok wp2 /\
    Worker.hstate wp2 = Worker.hstate wp1.
Proof.
  split; [vm_compute; repeat split; discriminate|].
  destruct (ShutdownWithDrain_twice Worker.failing_handler 2
              [Events.event1; Events.event2] Worker.example_pool 0 0 true
              ltac:(vm_compute; repeat split; discriminate) eq_refl)
    as (wp1 & wp2 & H1 & _ & _ & _ & H2 & H3 & _).
  exists wp1, wp2. split; [exact H1|]. split; [exact H2|exact H3].
Defined.

(** ** Milestones: identifiers, time stamps and the first percentage *)

Section MilestoneProperties.
Import Float64 Milestones.

(** X17. A milestone id tells the thresholds of one session and type
    apart: two milestones of the same session and type have the same id
    only if they have the same threshold.  It does not tell sessions and
    types apart: the underscore that joins the parts may also occur in
    them, and two different pairs of session and type can give one id. *)
Theorem milestone_id_separates_thresholds (sessionID : string)
    (milestoneType : MilestoneType) :
  (forall t1 t2,
     generateMilestoneID sessionID milestoneType t1 =
     generateMilestoneID sessionID milestoneType t2 -> t1 = t2) /\
  ~ (forall s1 ty1 s2 ty2 t,
       generateMilestoneID s1 ty1 t = generateMilestoneID s2 ty2 t ->
       s1 = s2 /\ ty1 = ty2).
Proof.
  split.
  - intros t1 t2 H. unfold generateMilestoneID in H.
    repeat apply String.app_inj in H. apply pretty_Z_inj in H. exact H.
  - intros H.
    destruct (H "a_b"%string "c"%string "a"%string "b_c"%string 1 eq_refl)
      as [H1 _]. discriminate.
Qed.

Lemma update_all_Progress (calls : list (Z * Z)) (m : Milestone) :
  Progress (update_all m calls).1 = default (Progress m) (last (fst <$> calls)).
Proof.
  revert m. induction calls as [|[v now] rest IH]; intros m; [reflexivity|].
  rewrite update_all_cons. simpl fst. rewrite IH, UpdateProgress_Progress.
  rewrite fmap_cons, last_cons. simpl fst.
  destruct (last (fst <$> rest)); reflexivity.
Qed.

(** X18. The time of achievement is stamped once: after the call that
    achieves a milestone, whatever values are reported later, the
    milestone stays achieved and [AchievedAt] keeps the clock reading of
    that call, while the progress follows the last value reported, which
    may be below the threshold. *)
Theorem AchievedAt_is_stamped_once (m : Milestone) (before : list (Z * Z))
    (v now : Z) (after : list (Z * Z)) :
  (UpdateProgress (update_all m before).1 v now).2 = true ->
  let final := (update_all m (before ++ (v, now) :: after)).1 in
  Achieved final = true /\
  AchievedAt final = Some now /\
  Progress final = default v (last (fst <$> after)).
Proof.
  intros Hr final. subst final.
  rewrite update_all_app, update_all_cons. cbn [fst snd].
  set (m1 := (UpdateProgress (update_all m before).1 v now).1).
  assert (Ha : Achieved m1 = true).
  { subst m1. rewrite UpdateProgress_Achieved.
    rewrite UpdateProgress_result in Hr.
    apply andb_true_iff in Hr as [_ ->]. apply orb_true_r. }
  destruct (update_all_achieved after m1 Ha) as (H1 & H2 & _).
  split; [exact H1|]. split.
  - rewrite H2. subst m1. rewrite UpdateProgress_AchievedAt, Hr. reflexivity.
  - rewrite update_all_Progress. subst m1.
    rewrite UpdateProgress_Progress. reflexivity.
Qed.

Lemma AchievedAt_is_stamped_once_witness :
  (UpdateProgress
     (update_all (NewMilestone "s1" MilestoneTypeConcurrentUsers 3)
        [(1, 10); (2, 11)]).1 3 12).2 = true /\
  AchievedAt
    (update_all (NewMilestone "s1" MilestoneTypeConcurrentUsers 3)
       ([(1, 10); (2, 11)] ++ (3, 12) :: [(5, 13); (0, 14)])).1 = Some 12 /\
  Progress
    (update_all (NewMilestone "s1" MilestoneTypeConcurrentUsers 3)
       ([(1, 10); (2, 11)] ++ (3, 12) :: [(5, 13); (0, 14)])).1 = 0.
Proof.
  split; [reflexivity|].
  pose proof (AchievedAt_is_stamped_once
                (NewMilestone "s1" MilestoneTypeConcurrentUsers 3)
                [(1, 10); (2, 11)] 3 12 [(5, 13); (0, 14)] eq_refl) as H.
  split; apply H.
Defined.

(** X19. A new milestone stands at zero percent: for every threshold,
    [ProgressPercentage] of a milestone just made is a zero, the negative
    zero when the threshold is negative. *)
Theorem new_milestone_percentage_is_zero (sessionID : string)
    (milestoneType : MilestoneType) (threshold : Z) :
  Int64.in_range threshold ->
  ProgressPercentage (NewMilestone sessionID milestoneType threshold) =
  S754_zero (threshold <? 0).
Proof.
  unfold Int64.in_range, Int64.min, Int64.max. intros Hr.
  unfold ProgressPercentage. simpl.
  destruct (Z.eqb_spec threshold 0) as [->|Hnz]; [reflexivity|].
  pose proof (of_int_finite threshold Hnz ltac:(lia)) as Hb.
  destruct (of_int threshold) as [| | |s m e]; simpl in Hb; try contradiction.
  subst s. change (of_int 0) with (S754_zero false).
  destruct (threshold <? 0); reflexivity.
Qed.

Lemma new_milestone_percentage_is_zero_witness :
  Int64.in_range (-7) /\
  ProgressPercentage (NewMilestone "s1" MilestoneTypeTotalReactions (-7)) =
  S754_zero true.
Proof.
  split; [unfold Int64.in_range, Int64.min, Int64.max; lia|].
  apply (new_milestone_percentage_is_zero "s1" MilestoneTypeTotalReactions
           (-7)).
  unfold Int64.in_range, Int64.min, Int64.max; lia.
Defined.

End MilestoneProperties.

(** ** The tracker: checks, registration and removal *)

Section TrackerProperties.
Import Milestones Tracker.

Lemma is_achieved_insert (h : Heap) (p p' : loc) (m : Milestone) :
  is_achieved {| objs := <[p := m]> (objs h); arrays := arrays h |} p' =
  if decide (p = p') then Achieved m else is_achieved h p'.
Proof.
  unfold is_achieved; simpl. destruct (decide (p = p')) as [<-|Hne].
  - rewrite lookup_insert_eq. reflexivity.
  - rewrite lookup_insert_ne by exact Hne. reflexivity.
Qed.

Lemma crossed_insert_ne (h : Heap) (p p' : loc) (m : Milestone)
    (tot act el : Z) :
  p ≠ p' ->
  crossed {| objs := <[p := m]> (objs h); arrays := arrays h |} p' tot act el
  = crossed h p' tot act el.
Proof.
  intros Hne. unfold crossed; simpl.
  rewrite lookup_insert_ne by exact Hne. reflexivity.
Qed.

(** The milestone that [UpdateProgress] leaves behind is not crossed any
    more by the same value: it is achieved, or the value is below its
    threshold. *)
Lemma crossed_after_update (h : Heap) (p : loc) (m : Milestone)
    (tot act el now : Z) :
  Achieved m = false ->
  crossed {| objs := <[p := (UpdateProgress m (current_value m tot act el)
                               now).1]> (objs h);
             arrays := arrays h |} p tot act el = false.
Proof.
  intros Ha. unfold crossed; simpl. rewrite lookup_insert_eq.
  rewrite UpdateProgress_Achieved, UpdateProgress_Threshold, Ha. simpl.
  assert (Hcv : current_value
                  (UpdateProgress m (current_value m tot act el) now).1
                  tot act el = current_value m tot act el).
  { unfold current_value, UpdateProgress; simpl.
    destruct (negb (Achieved m) && _); reflexivity. }
  rewrite Hcv. destruct (Threshold m <=? _); reflexivity.
Qed.

Lemma check_loop_cons_pending (p : loc) (rest : list loc) (h : Heap)
    (m : Milestone) (sid : string) (tot act el now : Z) :
  objs h !! p = Some m -> Achieved m = false ->
  check_loop (p :: rest) h sid tot act el now =
  let cv := current_value m tot act el in
  let m1 := (UpdateProgress m cv now).1 in
  '(h2, achievements, lines) ←
    check_loop rest {| objs := <[p := m1]> (objs h); arrays := arrays h |}
      sid tot act el now;
  if Threshold m <=? cv
  then mret (h2,
             {| Milestone_ := p; ASessionID := sid; AAchievedAt := now;
                CurrentValue := cv |} :: achievements,
             achieved_line sid m1 cv :: lines)
  else mret (h2, achievements, lines).
Proof.
  intros Hm Ha. cbn [check_loop]. rewrite Hm, Ha.
  pose proof (UpdateProgress_result m (current_value m tot act el) now) as Hr.
  rewrite Ha in Hr. simpl in Hr.
  destruct (UpdateProgress m (current_value m tot act el) now) as [m1 r].
  simpl in *. subst r. reflexivity.
Qed.

Lemma check_loop_spec (ps : list loc) (h : Heap) (sid : string)
    (tot act el now : Z) :
  (forall p, p ∈ ps -> is_Some (objs h !! p)) ->
  exists h2 achs lines,
    check_loop ps h sid tot act el now = Ok (h2, achs, lines) /\
    check_post ps h h2 achs sid tot act el now.
Proof.
  revert h. induction ps as [|p rest IH]; intros h Hval.
  - exists h, [], []. split; [reflexivity|]. unfold check_post.
    split; [reflexivity|]. split; [tauto|]. split; [reflexivity|].
    split; [reflexivity|]. split.
    { intros p Hp. apply elem_of_nil in Hp. contradiction. }
    split.
    { intros p. simpl. split.
      - intros Hp. apply elem_of_nil in Hp. contradiction.
      - intros [Hp _]. apply elem_of_nil in Hp. contradiction. }
    split; [constructor|].
    intros a Ha. apply elem_of_nil in Ha. contradiction.
  - destruct (Hval p ltac:(left)) as [m Hm].
    destruct (Achieved m) eqn:Ha.
    + (* already achieved: skipped *)
      assert (Hach : is_achieved h p = true)
        by (unfold is_achieved; rewrite Hm; exact Ha).
      assert (Hcr : crossed h p tot act el = false)
        by (unfold crossed; rewrite Hm, Ha; reflexivity).
      destruct (IH h) as (h2 & achs & lines & Hrun & Hpost).
      { intros q Hq. apply Hval. right. exact Hq. }
      exists h2, achs, lines. split.
      { cbn [check_loop]. rewrite Hm, Ha. exact Hrun. }
      destruct Hpost as (P1 & P2 & P3 & P4 & P5 & P6 & P7 & P8).
      split; [exact P1|]. split; [exact P2|]. split.
      { intros q Hq. apply P3. intros Hq'. apply Hq. right. exact Hq'. }
      split; [exact P4|]. split.
      { intros q Hq. apply elem_of_cons in Hq as [->|Hq]; [|apply P5, Hq].
        rewrite Hcr, orb_false_r. unfold is_achieved at 1.
        rewrite (P4 p Hach). reflexivity. }
      split.
      { intros q. rewrite P6, elem_of_cons. split.
        - intros [Hq Hc]. split; [right; exact Hq|exact Hc].
        - intros [[->|Hq] Hc]; [congruence|split; assumption]. }
      split; [exact P7|exact P8].
    + (* pending: updated, and the rest checked in the new heap *)
      rewrite (check_loop_cons_pending p rest h m sid tot act el now Hm Ha).
      cbv zeta.
      set (cv := current_value m tot act el).
      set (m1 := (UpdateProgress m cv now).1).
      set (h1 := {| objs := <[p := m1]> (objs h); arrays := arrays h |}).
      assert (Hach : is_achieved h p = false)
        by (unfold is_achieved; rewrite Hm; exact Ha).
      assert (Hcr : crossed h p tot act el = (Threshold m <=? cv))
        by (unfold crossed; rewrite Hm, Ha; reflexivity).
      assert (Hcr1 : crossed h1 p tot act el = false)
        by (apply crossed_after_update, Ha).
      assert (Hach1 : is_achieved h1 p = (Threshold m <=? cv)).
      { unfold h1. rewrite is_achieved_insert, decide_True by reflexivity.
        unfold m1. rewrite UpdateProgress_Achieved, Ha. reflexivity. }
      destruct (IH h1) as (h2 & achs & lines & Hrun & Hpost).
      { intros q Hq. unfold h1; simpl. rewrite lookup_insert_is_Some.
        destruct (decide (p = q)); [left; assumption|right].
        split; [assumption|]. apply Hval. right. exact Hq. }
      destruct Hpost as (P1 & P2 & P3 & P4 & P5 & P6 & P7 & P8).
      rewrite Hrun. cbn [mbind res_bind].
      assert (Hh2p : is_achieved h2 p = (Threshold m <=? cv)).
      { destruct (decide (p ∈ rest)) as [Hin|Hnin].
        - rewrite (P5 p Hin), Hach1, Hcr1, orb_false_r. reflexivity.
        - unfold is_achieved at 1. rewrite (P3 p Hnin).
          exact Hach1. }
      assert (Hother : forall q, q ≠ p ->
                objs h1 !! q = objs h !! q /\
                is_achieved h1 q = is_achieved h q /\
                crossed h1 q tot act el = crossed h q tot act el).
      { intros q Hq. split; [|split].
        - unfold h1; simpl. apply lookup_insert_ne. congruence.
        - unfold h1. rewrite is_achieved_insert, decide_False by congruence.
          reflexivity.
        - apply crossed_insert_ne. congruence. }
      assert (Hcommon :
        arrays h2 = arrays h /\
        (forall q, is_Some (objs h2 !! q) <-> is_Some (objs h !! q)) /\
        (forall q, q ∉ p :: rest -> objs h2 !! q = objs h !! q) /\
        (forall q, is_achieved h q = true -> objs h2 !! q = objs h !! q) /\
        (forall q, q ∈ p :: rest ->
           is_achieved h2 q = is_achieved h q || crossed h q tot act el)).
      { split; [exact P1|]. split.
        { intros q. rewrite P2. unfold h1; simpl.
          rewrite lookup_insert_is_Some. split.
          - intros [<-|[_ H]]; [eauto|exact H].
          - intros H. destruct (decide (p = q)); [left|right]; auto. }
        split.
        { intros q Hq. rewrite P3 by (intros Hq'; apply Hq; right; exact Hq').
          apply Hother. intros ->. apply Hq. left. }
        split.
        { intros q Hq. assert (q ≠ p) by congruence.
          destruct (Hother q H) as (O1 & O2 & _).
          rewrite P4 by congruence. exact O1. }
        intros q Hq. destruct (decide (q = p)) as [->|Hne].
        - rewrite Hh2p, Hach, Hcr. reflexivity.
        - apply elem_of_cons in Hq as [->|Hq]; [congruence|].
          destruct (Hother q Hne) as (_ & O2 & O3).
          rewrite (P5 q Hq), O2, O3. reflexivity. }
      assert (Hrest : forall q, q ∈ Milestone_ <$> achs <->
                q ≠ p /\ q ∈ rest /\ crossed h q tot act el = true).
      { intros q. rewrite P6. split.
        - intros [Hq Hc]. assert (q ≠ p) by congruence.
          destruct (Hother q H) as (_ & _ & O3).
          split; [assumption|]. split; [assumption|congruence].
        - intros (Hne & Hq & Hc). destruct (Hother q Hne) as (_ & _ & O3).
          split; [assumption|congruence]. }
      assert (Hdet : forall a, a ∈ achs ->
                ASessionID a = sid /\ AAchievedAt a = now /\
                exists m', objs h !! Milestone_ a = Some m' /\
                  CurrentValue a = current_value m' tot act el).
      { intros a Ha'. destruct (P8 a Ha') as (D1 & D2 & m' & D3 & D4).
        split; [exact D1|]. split; [exact D2|]. exists m'.
        split; [|exact D4].
        assert (Hin : Milestone_ a ∈ Milestone_ <$> achs)
          by (apply list_elem_of_fmap; eauto).
        apply Hrest in Hin as (Hne & _ & _).
        destruct (Hother _ Hne) as (O1 & _ & _). congruence. }
      destruct Hcommon as (C1 & C2 & C3 & C4 & C5).
      destruct (Threshold m <=? cv) eqn:Hle.
      * eexists. eexists. eexists. split; [reflexivity|].
        split; [exact C1|]. split; [exact C2|]. split; [exact C3|].
        split; [exact C4|]. split; [exact C5|]. split.
        { intros q. rewrite fmap_cons, !elem_of_cons, Hrest. simpl. split.
          - intros [->|(Hne & Hq & Hc)]; [split; [left; reflexivity|exact Hcr]
                                         |split; [right; exact Hq|exact Hc]].
          - intros [[->|Hq] Hc]; [left; reflexivity|].
            destruct (decide (q = p)) as [->|Hne]; [left; reflexivity|].
            right. auto. }
        split.
        { rewrite fmap_cons. simpl. constructor; [|exact P7].
          intros Hin. apply Hrest in Hin as (Hne & _). congruence. }
        intros a Ha'. apply elem_of_cons in Ha' as [->|Ha']; [|apply Hdet, Ha'].
        simpl. split; [reflexivity|]. split; [reflexivity|].
        exists m. split; [exact Hm|reflexivity].
      * exists h2, achs, lines. split; [reflexivity|].
        split; [exact C1|]. split; [exact C2|]. split; [exact C3|].
        split; [exact C4|]. split; [exact C5|]. split.
        { intros q. rewrite Hrest, elem_of_cons. split.
          - intros (Hne & Hq & Hc). split; [right; exact Hq|exact Hc].
          - intros [[->|Hq] Hc]; [congruence|].
            destruct (decide (q = p)) as [->|Hne]; [congruence|auto]. }
        split; [exact P7|exact Hdet].
Qed.

Lemma CheckMilestones_run (t : Tracker) (h : Heap) (sessionID : string)
    (stats : Aggregation.SessionStats) (elapsedMinutes now : Z) :
  tracker_wf t h ->
  exists h2 found lines,
    CheckMilestones t h sessionID stats elapsedMinutes now =
      Ok (h2, if notifyFunc t then found else [], lines) /\
    check_post (session_ptrs t h sessionID) h h2 found sessionID
      (Aggregation.GetTotalReactions stats)
      (Aggregation.GetActiveUserCount stats) elapsedMinutes now /\
    (milestones t !! sessionID = None -> h2 = h /\ lines = []).
Proof.
  intros Hwf. unfold CheckMilestones, session_ptrs.
  destruct (milestones t !! sessionID) as [ms|] eqn:Hms.
  - destruct (check_loop_spec (elems h ms) h sessionID
                (Aggregation.GetTotalReactions stats)
                (Aggregation.GetActiveUserCount stats) elapsedMinutes now
                (proj2 (Hwf _ _ Hms)))
      as (h2 & found & lines & Hrun & Hpost).
    exists h2, found, lines. rewrite Hrun. simpl.
    split; [reflexivity|]. split; [exact Hpost|discriminate].
  - destruct (check_loop_spec [] h sessionID
                (Aggregation.GetTotalReactions stats)
                (Aggregation.GetActiveUserCount stats) elapsedMinutes now)
      as (h2 & found & lines & Hrun & Hpost).
    { intros p Hp. apply elem_of_nil in Hp. contradiction. }
    simpl in Hrun. injection Hrun as <- <- <-.
    exists h, [], []. split; [destruct (notifyFunc t); reflexivity|].
    split; [exact Hpost|]. intros _. split; reflexivity.
Qed.

Lemma check_post_wf (t : Tracker) (ps : list loc) (h h2 : Heap)
    (achs : list MilestoneAchievement) (sid : string) (tot act el now : Z) :
  check_post ps h h2 achs sid tot act el now ->
  tracker_wf t h ->
  tracker_wf t h2 /\
  forall sid', session_ptrs t h2 sid' = session_ptrs t h sid'.
Proof.
  intros (P1 & P2 & _) Hwf.
  assert (He : forall s, elems h2 s = elems h s).
  { intros [a|]; simpl; [rewrite P1|]; reflexivity. }
  split.
  - intros sid' s Hs. destruct (Hwf sid' s Hs) as [Hal Hps]. split.
    + destruct s as [a|]; simpl in *; [rewrite P1; exact Hal|exact I].
    + intros p Hp. rewrite He in Hp. apply P2, Hps, Hp.
  - intros sid'. unfold session_ptrs.
    destruct (milestones t !! sid'); [apply He|reflexivity].
Qed.

(** X20. A check reports what was crossed, and it alone: on a tracker
    whose milestones are in the heap, [CheckMilestones] returns without a
    panic; afterwards a milestone of the session is achieved exactly if it
    was achieved before or was pending with its metric at or above its
    threshold; these newly achieved milestones, each once, are what is
    handed to the callback, with the metric value, the session and the
    time of the check; and with a nil callback they are marked achieved
    all the same and nothing is handed out. *)
Theorem CheckMilestones_reports_the_crossed (t : Tracker) (h : Heap)
    (sessionID : string) (stats : Aggregation.SessionStats)
    (elapsedMinutes now : Z) :
  tracker_wf t h ->
  let tot := Aggregation.GetTotalReactions stats in
  let act := Aggregation.GetActiveUserCount stats in
  exists h2 achs lines,
    CheckMilestones t h sessionID stats elapsedMinutes now =
      Ok (h2, achs, lines) /\
    (forall p, p ∈ session_ptrs t h sessionID ->
       is_achieved h2 p =
       is_achieved h p || crossed h p tot act elapsedMinutes) /\
    (notifyFunc t = true ->
     forall p, p ∈ Milestone_ <$> achs <->
       p ∈ session_ptrs t h sessionID /\
       crossed h p tot act elapsedMinutes = true) /\
    (notifyFunc t = false -> achs = []) /\
    NoDup (Milestone_ <$> achs) /\
    (forall a, a ∈ achs ->
       ASessionID a = sessionID /\ AAchievedAt a = now /\
       exists m, objs h !! Milestone_ a = Some m /\
         CurrentValue a = current_value m tot act elapsedMinutes).
Proof.
  intros Hwf tot act.
  destruct (CheckMilestones_run t h sessionID stats elapsedMinutes now Hwf)
    as (h2 & found & lines & Hrun & Hpost & _).
  destruct Hpost as (_ & _ & _ & _ & P5 & P6 & P7 & P8).
  exists h2, (if notifyFunc t then found else []), lines.
  split; [exact Hrun|]. split; [exact P5|].
  destruct (notifyFunc t).
  - split; [intros _; exact P6|]. split; [discriminate|].
    split; [exact P7|exact P8].
  - split; [discriminate|]. split; [reflexivity|].
    split; [constructor|]. intros a Ha. apply elem_of_nil in Ha. contradiction.
Qed.

(** X21. A milestone fires once: of two checks of a session, one after
    the other and on any statistics, the second never reports a milestone
    that the first reported, nor one that was achieved before the first. *)
Theorem CheckMilestones_fires_once (t : Tracker) (h : Heap)
    (sessionID : string) (stats stats' : Aggregation.SessionStats)
    (elapsedMinutes now elapsedMinutes' now' : Z) :
  tracker_wf t h ->
  exists h2 achs lines h3 achs' lines',
    CheckMilestones t h sessionID stats elapsedMinutes now =
      Ok (h2, achs, lines) /\
    CheckMilestones t h2 sessionID stats' elapsedMinutes' now' =
      Ok (h3, achs', lines') /\
    forall p, p ∈ Milestone_ <$> achs' ->
      (p ∉ Milestone_ <$> achs) /\ is_achieved h p = false.
Proof.
  intros Hwf.
  destruct (CheckMilestones_run t h sessionID stats elapsedMinutes now Hwf)
    as (h2 & found & lines & Hrun & Hpost & _).
  destruct (check_post_wf t _ _ _ _ _ _ _ _ _ Hpost Hwf) as [Hwf2 Hptrs].
  destruct (CheckMilestones_run t h2 sessionID stats' elapsedMinutes' now'
              Hwf2) as (h3 & found' & lines' & Hrun' & Hpost' & _).
  exists h2, (if notifyFunc t then found else []), lines,
         h3, (if notifyFunc t then found' else []), lines'.
  split; [exact Hrun|]. split; [exact Hrun'|].
  intros p Hp.
  assert (Hp' : p ∈ Milestone_ <$> found').
  { destruct (notifyFunc t); [exact Hp|].
    apply elem_of_nil in Hp. contradiction. }
  destruct Hpost as (_ & _ & _ & Q4 & Q5 & Q6 & _).
  destruct Hpost' as (_ & _ & _ & _ & _ & R6 & _).
  apply R6 in Hp' as [Hin Hcr]. rewrite Hptrs in Hin.
  assert (Hna2 : is_achieved h2 p = false).
  { unfold crossed in Hcr. unfold is_achieved.
    destruct (objs h2 !! p) as [m|]; [|reflexivity].
    apply andb_true_iff in Hcr as [Hcr _]. apply negb_true_iff in Hcr.
    exact Hcr. }
  rewrite (Q5 p Hin) in Hna2. apply orb_false_iff in Hna2 as [Hna Hnc].
  split; [|exact Hna].
  intros Hrep.
  assert (Hrep' : p ∈ Milestone_ <$> found).
  { destruct (notifyFunc t); [exact Hrep|].
    apply elem_of_nil in Hrep. contradiction. }
  apply Q6 in Hrep' as [_ Hc]. congruence.
Qed.

(** X22. A check touches the pending milestones of its session only: it
    changes no slice; it leaves every milestone outside the session as it
    is, and every milestone that was achieved already, progress and time
    stamp included; it keeps the tracker's slices and milestones in the
    heap; and for a session the tracker does not know it changes nothing,
    reports nothing and logs nothing. *)
Theorem CheckMilestones_frame (t : Tracker) (h : Heap) (sessionID : string)
    (stats : Aggregation.SessionStats) (elapsedMinutes now : Z) :
  tracker_wf t h ->
  exists h2 achs lines,
    CheckMilestones t h sessionID stats elapsedMinutes now =
      Ok (h2, achs, lines) /\
    arrays h2 = arrays h /\
    (forall p, p ∉ session_ptrs t h sessionID ->
       objs h2 !! p = objs h !! p) /\
    (forall p, is_achieved h p = true -> objs h2 !! p = objs h !! p) /\
    tracker_wf t h2 /\
    (milestones t !! sessionID = None ->
     h2 = h /\ achs = [] /\ lines = []).
Proof.
  intros Hwf.
  destruct (CheckMilestones_run t h sessionID stats elapsedMinutes now Hwf)
    as (h2 & found & lines & Hrun & Hpost & Hnone).
  destruct (check_post_wf t _ _ _ _ _ _ _ _ _ Hpost Hwf) as [Hwf2 _].
  exists h2, (if notifyFunc t then found else []), lines.
  split; [exact Hrun|].
  destruct Hpost as (P1 & _ & P3 & P4 & _ & P6 & _).
  split; [exact P1|]. split; [exact P3|]. split; [exact P4|].
  split; [exact Hwf2|].
  intros Hn. destruct (Hnone Hn) as [-> ->].
  split; [reflexivity|]. split; [|reflexivity].
  destruct (notifyFunc t); [|reflexivity].
  destruct found as [|a found]; [reflexivity|exfalso].
  assert (Hin : Milestone_ a ∈ Milestone_ <$> (a :: found))
    by (rewrite fmap_cons; left).
  apply P6 in Hin as [Hin _]. unfold session_ptrs in Hin. rewrite Hn in Hin.
  apply elem_of_nil in Hin. exact Hin.
Qed.

Lemma CheckMilestones_reports_the_crossed_witness :
  tracker_wf example_tracker example_heap /\
  exists h2 achs lines,
    CheckMilestones example_tracker example_heap "s1"
      (Aggregation.NewSessionStats "s1" 0) 0 7 = Ok (h2, achs, lines) /\
    NoDup (Milestone_ <$> achs).
Proof.
  split; [apply InitializeSession_wf, NewTracker_wf|].
  destruct (CheckMilestones_reports_the_crossed example_tracker example_heap
              "s1" (Aggregation.NewSessionStats "s1" 0) 0 7
              (InitializeSession_wf _ _ _ _ (NewTracker_wf _ _)))
    as (h2 & achs & lines & Hrun & _ & _ & _ & Hnd & _).
  exists h2, achs, lines. split; [exact Hrun|exact Hnd].
Defined.

Lemma CheckMilestones_fires_once_witness :
  tracker_wf example_tracker example_heap /\
  exists h2 achs lines h3 achs' lines',
    CheckMilestones example_tracker example_heap "s1"
      (Aggregation.NewSessionStats "s1" 0) 0 7 = Ok (h2, achs, lines) /\
    CheckMilestones example_tracker h2 "s1"
      (Aggregation.NewSessionStats "s1" 0) 1 8 = Ok (h3, achs', lines') /\
    forall p, p ∈ Milestone_ <$> achs' -> p ∉ (Milestone_ <$> achs).
Proof.
  split; [apply InitializeSession_wf, NewTracker_wf|].
  destruct (CheckMilestones_fires_once example_tracker example_heap "s1"
              (Aggregation.NewSessionStats "s1" 0)
              (Aggregation.NewSessionStats "s1" 0) 0 7 1 8
              (InitializeSession_wf _ _ _ _ (NewTracker_wf _ _)))
    as (h2 & achs & lines & h3 & achs' & lines' & H1 & H2 & H3).
  exists h2, achs, lines, h3, achs', lines'.
  split; [exact H1|]. split; [exact H2|].
  intros p Hp. apply (H3 p Hp).
Defined.

Lemma CheckMilestones_frame_witness :
  tracker_wf example_tracker example_heap /\
  exists h2 achs lines,
    CheckMilestones example_tracker example_heap "s1"
      (Aggregation.NewSessionStats "s1" 0) 0 7 = Ok (h2, achs, lines) /\
    arrays h2 = arrays example_heap /\ tracker_wf example_tracker h2.
Proof.
  split; [apply InitializeSession_wf, NewTracker_wf|].
  destruct (CheckMilestones_frame example_tracker example_heap "s1"
              (Aggregation.NewSessionStats "s1" 0) 0 7
              (InitializeSession_wf _ _ _ _ (NewTracker_wf _ _)))
    as (h2 & achs & lines & Hrun & Harr & _ & _ & Hwf & _).
  exists h2, achs, lines. split; [exact Hrun|]. split; [exact Harr|exact Hwf].
Defined.

(** The milestones [InitializeSession] makes: as many pointers as
    thresholds, all different and none in use before, each to the new
    milestone of its threshold; every other pointer reads as before. *)
Lemma new_milestones_objs (thresholds : list Z) (h : Heap)
    (sessionID : string) :
  NoDup (new_milestones h sessionID thresholds).1 /\
  (forall p, p ∈ (new_milestones h sessionID thresholds).1 ->
     objs h !! p = None) /\
  (forall p, p ∉ (new_milestones h sessionID thresholds).1 ->
     objs (new_milestones h sessionID thresholds).2 !! p = objs h !! p) /\
  (fun p => objs (new_milestones h sessionID thresholds).2 !! p)
    <$> (new_milestones h sessionID thresholds).1
  = (fun th => Some (NewMilestone sessionID MilestoneTypeTotalReactions th))
    <$> thresholds.
Proof.
  revert h. induction thresholds as [|th rest IH]; intros h; simpl.
  - split; [constructor|]. split.
    + intros p Hp. apply elem_of_nil in Hp. contradiction.
    + split; reflexivity.
  - specialize (IH (alloc_obj h
      (NewMilestone sessionID MilestoneTypeTotalReactions th)).2).
    simpl in IH.
    destruct (new_milestones _ sessionID rest) as [ps h2].
    simpl in *. destruct IH as (IH1 & IH2 & IH3 & IH4).
    set (p0 := fresh (dom (objs h))) in *.
    assert (Hp0 : p0 ∉ ps).
    { intros Hin. apply IH2 in Hin. rewrite lookup_insert_eq in Hin.
      discriminate. }
    split; [constructor; assumption|]. split.
    + intros p Hp. apply elem_of_cons in Hp as [->|Hp].
      * apply fresh_obj.
      * pose proof (IH2 p Hp) as Hn.
        rewrite lookup_insert_None in Hn. apply Hn.
    + split.
      * intros p Hp. rewrite not_elem_of_cons in Hp. destruct Hp as [Hne Hp].
        rewrite (IH3 p Hp). apply lookup_insert_ne. congruence.
      * cbn [fmap list_fmap]. f_equal; [|exact IH4].
        rewrite (IH3 p0 Hp0). apply lookup_insert_eq.
Qed.

(** X23. [InitializeSession] gives the session one new milestone of type
    total_reactions per threshold, in the order of the thresholds, each
    pending with no progress, behind pointers that are all different and
    were not in use; whatever the session had before is replaced, not
    extended; no milestone that existed is changed; and every other
    session of the tracker owns what it owned. *)
Theorem InitializeSession_replaces_the_session (t : Tracker) (h : Heap)
    (sessionID : string) (thresholds : list Z) :
  tracker_wf t h ->
  let t1 := (InitializeSession t h sessionID thresholds).1.1 in
  let h1 := (InitializeSession t h sessionID thresholds).1.2 in
  (fun p => objs h1 !! p) <$> session_ptrs t1 h1 sessionID
  = (fun th => Some (NewMilestone sessionID MilestoneTypeTotalReactions th))
    <$> thresholds /\
  NoDup (session_ptrs t1 h1 sessionID) /\
  (forall p, p ∈ session_ptrs t1 h1 sessionID -> objs h !! p = None) /\
  (forall p m, objs h !! p = Some m -> objs h1 !! p = Some m) /\
  (forall sid', sid' ≠ sessionID -> owned t1 h1 sid' = owned t h sid').
Proof.
  intros Hwf t1 h1. subst t1 h1. unfold InitializeSession.
  pose proof (new_milestones_objs thresholds h sessionID)
    as (Hnd & Hfresh & Hold & Hnew).
  pose proof (new_milestones_spec thresholds h sessionID) as (Harr & _ & _).
  destruct (new_milestones h sessionID thresholds) as [ps h1].
  simpl in Hnd, Hfresh, Hold, Hnew, Harr.
  pose proof (append_all_spec h1 ps) as (Hobjs & Helems & _ & Hother).
  destruct (append_all h1 ps) as [s h2]. simpl in *.
  unfold session_ptrs. simpl. rewrite lookup_insert_eq. rewrite Helems.
  split.
  { rewrite <- Hnew. apply list_fmap_ext. intros i p _. rewrite Hobjs.
    reflexivity. }
  split; [exact Hnd|]. split; [exact Hfresh|]. split.
  { intros p m Hm. rewrite Hobjs, Hold; [exact Hm|].
    intros Hin. apply Hfresh in Hin. congruence. }
  intros sid' Hne. unfold owned. simpl.
  rewrite lookup_insert_ne by congruence.
  destruct (milestones t !! sid') as [s'|] eqn:Hs'; [|reflexivity].
  destruct (Hwf _ _ Hs') as [Hal Hps].
  assert (Hal1 : allocated h1 s').
  { destruct s' as [a|]; simpl in *; [rewrite Harr; exact Hal|exact I]. }
  destruct (Hother s' Hal1) as [_ Hel]. rewrite Hel.
  assert (Hel1 : elems h1 s' = elems h s').
  { destruct s' as [a|]; simpl; [rewrite Harr|]; reflexivity. }
  rewrite Hel1. f_equal. apply list_fmap_ext. intros i p Hi.
  rewrite Hobjs. f_equal. apply Hold. intros Hin. apply Hfresh in Hin.
  destruct (Hps p) as [m Hm]; [|congruence].
  apply (list_elem_of_lookup_2 _ i). exact Hi.
Qed.

Lemma InitializeSession_replaces_the_session_witness :
  tracker_wf example_tracker example_heap /\
  NoDup (session_ptrs
           (InitializeSession example_tracker example_heap "s1" [5]).1.1
           (InitializeSession example_tracker example_heap "s1" [5]).1.2
           "s1").
Proof.
  split; [apply InitializeSession_wf, NewTracker_wf|].
  apply (InitializeSession_replaces_the_session example_tracker example_heap
           "s1" [5] (InitializeSession_wf _ _ _ _ (NewTracker_wf _ _))).
Defined.

Lemma AddCustomMilestone_facts (t : Tracker) (h : Heap) (sessionID : string)
    (milestoneType : MilestoneType) (threshold : Z) :
  tracker_wf t h ->
  let p := fresh (dom (objs h)) in
  let t1 := (AddCustomMilestone t h sessionID milestoneType threshold).1 in
  let h1 := (AddCustomMilestone t h sessionID milestoneType threshold).2 in
  session_ptrs t1 h1 sessionID = session_ptrs t h sessionID ++ [p] /\
  objs h !! p = None /\
  objs h1 !! p = Some (NewMilestone sessionID milestoneType threshold) /\
  (forall q, q ≠ p -> objs h1 !! q = objs h !! q) /\
  (forall sid', sid' ≠ sessionID -> owned t1 h1 sid' = owned t h sid') /\
  tracker_wf t1 h1.
Proof.
  intros Hwf p t1 h1. subst t1 h1. unfold AddCustomMilestone.
  cbn [alloc_obj]. fold p. rewrite alloc_array_spec. cbn [fst snd arrays objs].
  set (old := default None (milestones t !! sessionID)).
  set (hm := {| objs := <[p := NewMilestone sessionID milestoneType threshold]>
                          (objs h);
                arrays := arrays h |}).
  assert (Hold : elems hm old = session_ptrs t h sessionID).
  { unfold old, session_ptrs.
    destruct (milestones t !! sessionID) as [[a|]|]; reflexivity. }
  assert (Hfa : forall s, allocated h s ->
            s ≠ Some (fresh (dom (arrays h)))).
  { intros s. apply allocated_not_fresh. }
  split.
  { unfold session_ptrs at 1. simpl. rewrite lookup_insert_eq. simpl.
    rewrite lookup_insert_eq. simpl. rewrite Hold. reflexivity. }
  split; [apply fresh_obj|].
  split; [simpl; apply lookup_insert_eq|].
  split; [intros q Hq; simpl; apply lookup_insert_ne; congruence|].
  split.
  - intros sid' Hne. unfold owned. simpl.
    rewrite lookup_insert_ne by congruence.
    destruct (milestones t !! sid') as [s'|] eqn:Hs'; [|reflexivity].
    destruct (Hwf _ _ Hs') as [Hal Hps].
    rewrite (elems_other_array h s') by (apply Hfa, Hal).
    f_equal. apply list_fmap_ext. intros i q Hi. f_equal.
    apply lookup_insert_ne. intros <-.
    destruct (Hps p (list_elem_of_lookup_2 _ i _ Hi)) as [m Hm].
    pose proof (fresh_obj h) as Hf. fold p in Hf. congruence.
  - intros sid' s'. simpl. rewrite lookup_insert_Some.
    intros [[_ <-]|[_ Hs']].
    + split; [simpl; rewrite lookup_insert_eq; eauto|].
      intros q. simpl. rewrite lookup_insert_eq. simpl. rewrite Hold.
      rewrite elem_of_app, list_elem_of_singleton.
      intros [Hq| ->]; [|rewrite lookup_insert_eq; eauto].
      rewrite lookup_insert_is_Some. destruct (decide (p = q)); [auto|].
      right. split; [assumption|].
      unfold session_ptrs in Hq.
      destruct (milestones t !! sessionID) as [s|] eqn:Hs.
      * apply (Hwf _ _ Hs), Hq.
      * apply elem_of_nil in Hq. contradiction.
    + destruct (Hwf _ _ Hs') as [Hal Hps]. split.
      * destruct s' as [a|]; simpl in *; [|exact I].
        rewrite lookup_insert_is_Some.
        destruct (decide (fresh (dom (arrays h)) = a)); auto.
      * intros q. rewrite (elems_other_array h s') by (apply Hfa, Hal).
        intros Hq. simpl. rewrite lookup_insert_is_Some.
        destruct (decide (p = q)); [auto|]. right. split; [assumption|].
        apply Hps, Hq.
Qed.

(** X24. [AddCustomMilestone] puts one new pending milestone, of the type
    and threshold given, behind a new pointer at the end of the session's
    milestones, and starts the list for a session the tracker does not
    know; the milestones that existed and what the other sessions own
    stay as they were. *)
Theorem AddCustomMilestone_appends_one (t : Tracker) (h : Heap)
    (sessionID : string) (milestoneType : MilestoneType) (threshold : Z) :
  tracker_wf t h ->
  let p := fresh (dom (objs h)) in
  let t1 := (AddCustomMilestone t h sessionID milestoneType threshold).1 in
  let h1 := (AddCustomMilestone t h sessionID milestoneType threshold).2 in
  session_ptrs t1 h1 sessionID = session_ptrs t h sessionID ++ [p] /\
  (milestones t !! sessionID = None -> session_ptrs t1 h1 sessionID = [p]) /\
  objs h !! p = None /\
  objs h1 !! p = Some (NewMilestone sessionID milestoneType threshold) /\
  (forall q, q ≠ p -> objs h1 !! q = objs h !! q) /\
  (forall sid', sid' ≠ sessionID -> owned t1 h1 sid' = owned t h sid') /\
  tracker_wf t1 h1.
Proof.
  intros Hwf p t1 h1.
  destruct (AddCustomMilestone_facts t h sessionID milestoneType threshold
              Hwf) as (F1 & F2 & F3 & F4 & F5 & F6).
  split; [exact F1|]. split.
  { intros Hn. subst t1 h1 p. rewrite F1. unfold session_ptrs. rewrite Hn.
    reflexivity. }
  split; [exact F2|]. split; [exact F3|]. split; [exact F4|].
  split; [exact F5|exact F6].
Qed.

Lemma AddCustomMilestone_appends_one_witness :
  tracker_wf example_tracker example_heap /\
  session_ptrs
    (AddCustomMilestone example_tracker example_heap "s1"
       MilestoneTypeConcurrentUsers 10).1
    (AddCustomMilestone example_tracker example_heap "s1"
       MilestoneTypeConcurrentUsers 10).2 "s1"
  = session_ptrs example_tracker example_heap "s1"
    ++ [fresh (dom (objs example_heap))].
Proof.
  split; [apply InitializeSession_wf, NewTracker_wf|].
  apply (AddCustomMilestone_appends_one example_tracker example_heap "s1"
           MilestoneTypeConcurrentUsers 10
           (InitializeSession_wf _ _ _ _ (NewTracker_wf _ _))).
Defined.

(** X25. A milestone of a type that is none of the three the tracker
    measures is measured at 0: added with [AddCustomMilestone], the next
    check achieves it exactly if its threshold is zero or negative,
    whatever the statistics of the session. *)
Theorem unknown_type_is_measured_at_zero (t : Tracker) (h : Heap)
    (sessionID : string) (milestoneType : MilestoneType) (threshold : Z)
    (stats : Aggregation.SessionStats) (elapsedMinutes now : Z) :
  tracker_wf t h ->
  milestoneType ≠ MilestoneTypeTotalReactions ->
  milestoneType ≠ MilestoneTypeConcurrentUsers ->
  milestoneType ≠ MilestoneTypeSessionDuration ->
  let p := fresh (dom (objs h)) in
  let t1 := (AddCustomMilestone t h sessionID milestoneType threshold).1 in
  let h1 := (AddCustomMilestone t h sessionID milestoneType threshold).2 in
  exists h2 achs lines,
    CheckMilestones t1 h1 sessionID stats elapsedMinutes now =
      Ok (h2, achs, lines) /\
    (is_achieved h2 p = true <-> threshold <= 0).
Proof.
  intros Hwf H1 H2 H3 p t1 h1.
  destruct (AddCustomMilestone_facts t h sessionID milestoneType threshold
              Hwf) as (F1 & _ & F3 & _ & _ & F6).
  fold p t1 h1 in F1, F3, F6.
  destruct (CheckMilestones_run t1 h1 sessionID stats elapsedMinutes now F6)
    as (h2 & found & lines & Hrun & Hpost & _).
  exists h2, (if notifyFunc t1 then found else []), lines.
  split; [exact Hrun|].
  destruct Hpost as (_ & _ & _ & _ & P5 & _).
  rewrite (P5 p) by (rewrite F1, elem_of_app, list_elem_of_singleton; auto).
  unfold is_achieved, crossed. rewrite F3. simpl.
  unfold current_value. simpl.
  rewrite (proj2 (String.eqb_neq _ _) H1), (proj2 (String.eqb_neq _ _) H2),
    (proj2 (String.eqb_neq _ _) H3).
  apply Z.leb_le.
Qed.

Lemma unknown_type_is_measured_at_zero_witness :
  tracker_wf example_tracker example_heap /\
  exists h2 achs lines,
    CheckMilestones
      (AddCustomMilestone example_tracker example_heap "s1" "likes" 5).1
      (AddCustomMilestone example_tracker example_heap "s1" "likes" 5).2
      "s1" (Aggregation.NewSessionStats "s1" 0) 0 7 = Ok (h2, achs, lines) /\
    (is_achieved h2 (fresh (dom (objs example_heap))) = true <-> 5 <= 0).
Proof.
  split; [apply InitializeSession_wf, NewTracker_wf|].
  apply (unknown_type_is_measured_at_zero example_tracker example_heap "s1"
           "likes" 5 (Aggregation.NewSessionStats "s1" 0) 0 7
           (InitializeSession_wf _ _ _ _ (NewTracker_wf _ _)));
    discriminate.
Defined.

(** X26. [RemoveSession] makes the session unknown to the tracker: its
    milestones read as nil, a check of it does nothing; the other sessions
    own what they owned; and removing a session the tracker does not know
    changes nothing. *)
Theorem RemoveSession_makes_unknown (t : Tracker) (h : Heap)
    (sessionID : string) (stats : Aggregation.SessionStats)
    (elapsedMinutes now : Z) :
  let t1 := RemoveSession t sessionID in
  GetSessionMilestones t1 h sessionID = (None, h) /\
  GetAchievedMilestones t1 h sessionID = Ok (None, h) /\
  CheckMilestones t1 h sessionID stats elapsedMinutes now = Ok (h, [], []) /\
  (forall sid', sid' ≠ sessionID -> owned t1 h sid' = owned t h sid') /\
  (tracker_wf t h -> tracker_wf t1 h) /\
  (milestones t !! sessionID = None -> t1 = t).
Proof.
  intros t1. subst t1.
  unfold GetSessionMilestones, GetAchievedMilestones, CheckMilestones, owned,
    RemoveSession.
  simpl. rewrite lookup_delete_eq.
  split; [reflexivity|]. split; [reflexivity|]. split; [reflexivity|].
  split.
  { intros sid' Hne. rewrite lookup_delete_ne by congruence. reflexivity. }
  split.
  { intros Hwf sid' s. simpl. rewrite lookup_delete_Some.
    intros [_ Hs]. apply (Hwf _ _ Hs). }
  intros Hn. destruct t as [ms nf]. simpl in *. f_equal.
  apply delete_id. exact Hn.
Qed.

Lemma filter_bool_ext (f g : loc -> bool) (l : list loc) :
  (forall p, p ∈ l -> f p = g p) ->
  filter (fun p => f p) l = filter (fun p => g p) l.
Proof.
  induction l as [|x l IH]; intros Hfg; [reflexivity|].
  pose proof (Hfg x ltac:(left)) as Hx.
  rewrite !filter_cons.
  rewrite IH by (intros p Hp; apply Hfg; right; exact Hp).
  cbv beta. rewrite Hx. reflexivity.
Qed.

Lemma filter_bool_nil (f : loc -> bool) (l : list loc) :
  filter (fun p => f p) l = [] <-> forall p, p ∈ l -> f p = false.
Proof.
  induction l as [|x l IH].
  - split; [|reflexivity]. intros _ p Hp. apply elem_of_nil in Hp.
    contradiction.
  - rewrite filter_cons. destruct (f x) eqn:Hx.
    + rewrite decide_True by exact I. split; [discriminate|].
      intros H. specialize (H x ltac:(left)). congruence.
    + rewrite decide_False by (intros []). rewrite IH. split.
      * intros H p Hp. apply elem_of_cons in Hp as [->|Hp]; auto.
      * intros H p Hp. apply H. right. exact Hp.
Qed.

Lemma append_all_nil (h : Heap) (l : list loc) :
  (append_all h l).1 = None <-> l = [].
Proof.
  destruct l as [|x l]; simpl; split; intros H; try reflexivity;
    discriminate.
Qed.

(** X27. After a check, [GetAchievedMilestones] returns the milestones of
    the session that were achieved before the check or reached their
    threshold in it, in the order the session holds them; the slice it
    returns is nil exactly if there is none. *)
Theorem GetAchievedMilestones_after_check (t : Tracker) (h : Heap)
    (sessionID : string) (stats : Aggregation.SessionStats)
    (elapsedMinutes now : Z) :
  tracker_wf t h ->
  let tot := Aggregation.GetTotalReactions stats in
  let act := Aggregation.GetActiveUserCount stats in
  exists h2 achs lines r h3,
    CheckMilestones t h sessionID stats elapsedMinutes now =
      Ok (h2, achs, lines) /\
    GetAchievedMilestones t h2 sessionID = Ok (r, h3) /\
    elems h3 r =
      filter (fun p => is_achieved h p
                       || crossed h p tot act elapsedMinutes)
             (session_ptrs t h sessionID) /\
    (r = None <->
     forall p, p ∈ session_ptrs t h sessionID ->
       is_achieved h p = false /\
       crossed h p tot act elapsedMinutes = false).
Proof.
  intros Hwf tot act.
  destruct (CheckMilestones_run t h sessionID stats elapsedMinutes now Hwf)
    as (h2 & found & lines & Hrun & Hpost & _).
  destruct (check_post_wf t _ _ _ _ _ _ _ _ _ Hpost Hwf) as [Hwf2 Hptrs].
  destruct Hpost as (_ & _ & _ & _ & P5 & _).
  fold tot act in P5.
  set (l := filter (fun p => is_achieved h p
                             || crossed h p tot act elapsedMinutes)
                   (session_ptrs t h sessionID)).
  assert (Hl : filter (fun p => is_achieved h2 p) (session_ptrs t h sessionID)
               = l) by (apply filter_bool_ext, P5).
  assert (Hget : GetAchievedMilestones t h2 sessionID =
                 Ok (append_all h2 l)).
  { unfold GetAchievedMilestones. specialize (Hptrs sessionID).
    unfold session_ptrs in Hptrs, Hl.
    destruct (milestones t !! sessionID) as [ms|] eqn:Hms.
    - rewrite (achieved_loop_spec h2 (elems h2 ms) [])
        by (apply (Hwf2 _ _ Hms)).
      simpl. rewrite Hptrs, Hl. reflexivity.
    - simpl in Hl. rewrite <- Hl. reflexivity. }
  exists h2, (if notifyFunc t then found else []), lines,
         (append_all h2 l).1, (append_all h2 l).2.
  split; [exact Hrun|].
  split; [rewrite Hget; destruct (append_all h2 l); reflexivity|].
  split; [apply (append_all_spec h2 l)|].
  rewrite append_all_nil. unfold l.
  rewrite (filter_bool_nil
             (fun p => is_achieved h p || crossed h p tot act elapsedMinutes)).
  split; intros H p Hp.
  - apply orb_false_iff, H, Hp.
  - apply orb_false_iff, H, Hp.
Qed.

Lemma GetAchievedMilestones_after_check_witness :
  tracker_wf example_tracker example_heap /\
  exists h2 achs lines r h3,
    CheckMilestones example_tracker example_heap "s1"
      (Aggregation.NewSessionStats "s1" 0) 0 7 = Ok (h2, achs, lines) /\
    GetAchievedMilestones example_tracker h2 "s1" = Ok (r, h3) /\
    elems h3 r =
      filter (fun p => is_achieved example_heap p
                       || crossed example_heap p 0 0 0)
             (session_ptrs example_tracker example_heap "s1").
Proof.
  split; [apply InitializeSession_wf, NewTracker_wf|].
  destruct (GetAchievedMilestones_after_check example_tracker example_heap
              "s1" (Aggregation.NewSessionStats "s1" 0) 0 7
              (InitializeSession_wf _ _ _ _ (NewTracker_wf _ _)))
    as (h2 & achs & lines & r & h3 & H1 & H2 & H3 & _).
  exists h2, achs, lines, r, h3.
  split; [exact H1|]. split; [exact H2|exact H3].
Defined.

End TrackerProperties.

(** ** Reading the configuration *)

Section ConfigProperties.
Import Config.
Variable Atoi : string -> option Z.
Variable ParseDuration : string -> option Z.
Variable Split : string -> string -> list string.
Variable TrimSpace : string -> string.

Lemma getEnv_unset (env : gmap string string) (key defaultValue : string) :
  default EmptyString (env !! key) = EmptyString ->
  getEnv env key defaultValue = defaultValue.
Proof. intros H. unfold getEnv. rewrite H. reflexivity. Qed.

Lemma getEnv_set (env : gmap string string) (key defaultValue v : string) :
  env !! key = Some v -> v ≠ EmptyString ->
  getEnv env key defaultValue = v.
Proof.
  intros H Hv. unfold getEnv. rewrite H. simpl.
  destruct (String.eqb_spec v EmptyString); [contradiction|reflexivity].
Qed.

(** X28. [Load] reports no error, whatever the environment, and the
    configuration it returns always has a region: [Validate] never
    rejects it for the region, and accepts it exactly if the worker count
    and the queue size, as read from the environment or defaulted, parse
    to positive numbers. *)
Theorem Load_then_Validate (env : gmap string string) :
  (Load Atoi ParseDuration Split TrimSpace env).2 = None /\
  Region (DynamoDB (Load Atoi ParseDuration Split TrimSpace env).1)
    ≠ EmptyString /\
  Validate (Load Atoi ParseDuration Split TrimSpace env).1
    ≠ Some "AWS region is required"%string /\
  (Validate (Load Atoi ParseDuration Split TrimSpace env).1 = None <->
   0 < parseInt Atoi (getEnv env "WORKER_COUNT" "10") /\
   0 < parseInt Atoi (getEnv env "EVENT_QUEUE_SIZE" "10000")).
Proof.
  assert (Hr : getEnv env "AWS_REGION" "us-west-2" ≠ EmptyString)
    by (apply getEnv_nonempty; discriminate).
  split; [reflexivity|]. split; [exact Hr|].
  unfold Validate.
  cbn [Config.Load fst Worker Count EventQueueSize DynamoDB Region].
  destruct (Z.leb_spec (parseInt Atoi (getEnv env "WORKER_COUNT" "10")) 0)
    as [Hc|Hc].
  { split; [discriminate|]. split; [discriminate|]. intros [H _]. lia. }
  destruct (Z.leb_spec
              (parseInt Atoi (getEnv env "EVENT_QUEUE_SIZE" "10000")) 0)
    as [Hq|Hq].
  { split; [discriminate|]. split; [discriminate|]. intros [_ H]. lia. }
  destruct (String.eqb_spec (getEnv env "AWS_REGION" "us-west-2") EmptyString)
    as [He|He]; [contradiction|].
  split; [discriminate|]. split; [intros _; split; assumption|reflexivity].
Qed.

(** X29. A variable set to the empty string counts as unset, and a
    number that does not parse counts as 0: with WORKER_COUNT set to the
    empty string [Load] reads the count from the default 10, and with
    WORKER_COUNT set to text that [strconv.Atoi] rejects [Load] still
    reports no error, returns a worker count of 0, and [Validate] rejects
    the configuration for its worker count. *)
Theorem unparsable_count_is_zero (env : gmap string string) (v : string) :
  env !! "WORKER_COUNT" = Some v ->
  (v = EmptyString ->
   Count (Worker (Load Atoi ParseDuration Split TrimSpace env).1)
   = parseInt Atoi "10") /\
  (v ≠ EmptyString -> Atoi v = None ->
   (Load Atoi ParseDuration Split TrimSpace env).2 = None /\
   Count (Worker (Load Atoi ParseDuration Split TrimSpace env).1) = 0 /\
   Validate (Load Atoi ParseDuration Split TrimSpace env).1
   = Some "worker count must be positive"%string).
Proof.
  intros Hv. split.
  - intros ->. cbn [Config.Load fst Worker Count].
    rewrite getEnv_unset by (rewrite Hv; reflexivity). reflexivity.
  - intros Hne Hbad.
    assert (Hc : Count (Worker (Load Atoi ParseDuration Split TrimSpace env).1)
                 = 0).
    { cbn [Config.Load fst Worker Count].
      rewrite (getEnv_set env _ _ v Hv Hne). unfold parseInt.
      rewrite Hbad. reflexivity. }
    split; [reflexivity|]. split; [exact Hc|].
    unfold Validate. rewrite Hc. reflexivity.
Qed.

Lemma parseIntSlice_loop_omap (parts : list string) (result : list Z) :
  parseIntSlice_loop Atoi TrimSpace parts result =
  result ++ omap (fun part => Atoi (TrimSpace part)) parts.
Proof.
  revert result. induction parts as [|part rest IH]; intros result; simpl.
  - rewrite app_nil_r. reflexivity.
  - destruct (Atoi (TrimSpace part)) as [val|]; rewrite IH.
    + rewrite <- app_assoc. reflexivity.
    + reflexivity.
Qed.

(** X30. [parseIntSlice] keeps what parses: its result is the numbers of
    the comma-separated parts that, with the white space around them
    trimmed, [strconv.Atoi] accepts, in the order of the parts; a part it
    rejects is dropped without an error, so the result is never longer
    than the list of parts and is empty when no part parses. *)
Theorem parseIntSlice_keeps_what_parses (s : string) :
  parseIntSlice Atoi Split TrimSpace s =
    omap (fun part => Atoi (TrimSpace part)) (Split s ",") /\
  (length (parseIntSlice Atoi Split TrimSpace s)
   <= length (Split s ","))%nat /\
  (forall val, val ∈ parseIntSlice Atoi Split TrimSpace s <->
     exists part, part ∈ Split s "," /\ Atoi (TrimSpace part) = Some val) /\
  ((forall part, part ∈ Split s "," -> Atoi (TrimSpace part) = None) ->
   parseIntSlice Atoi Split TrimSpace s = []).
Proof.
  assert (Heq : parseIntSlice Atoi Split TrimSpace s =
                omap (fun part => Atoi (TrimSpace part)) (Split s ",")).
  { unfold parseIntSlice. rewrite parseIntSlice_loop_omap.
    reflexivity. }
  split; [exact Heq|]. rewrite Heq. clear Heq. split.
  { induction (Split s ",") as [|part rest IH]; simpl; [lia|].
    fold (omap (fun part => Atoi (TrimSpace part)) rest).
    destruct (Atoi (TrimSpace part)); simpl; lia. }
  split.
  - intros val. apply list_elem_of_omap.
  - intros Hall. induction (Split s ",") as [|part rest IH]; [reflexivity|].
    simpl. rewrite (Hall part) by left.
    apply IH. intros q Hq. apply Hall. right. exact Hq.
Qed.

End ConfigProperties.

Lemma unparsable_count_is_zero_witness :
  Config.example_env !! "WORKER_COUNT" = Some "many"%string /\
  Config.decimal "many" = None /\
  Config.Validate
    (Config.Load Config.decimal Config.decimal (fun s _ => [s]) (fun s => s)
       Config.example_env).1
  = Some "worker count must be positive"%string.
Proof.
  split; [reflexivity|]. split; [reflexivity|].
  apply (unparsable_count_is_zero Config.decimal Config.decimal
           (fun s _ => [s]) (fun s => s) Config.example_env "many");
    [reflexivity|discriminate|reflexivity].
Defined.
